(** * isco_bot: the event store, the reminder scheduler and the dispatcher

    A shallow embedding of [database.py] and of the notification engine of
    [bot.py], and the properties of the notification engine proved (or
    refuted) on it.

    Conventions.
    - A Python [datetime] without zone is the number of microseconds of
      its wall clock since the epoch ([naive]); an aware one adds the UTC
      offset of its [tzinfo] ([aware]).  A [timedelta] is a number of
      microseconds.
    - The tables of the store are lists of rows in insertion order; the
      constraints of [create_tables] (column widths, UNIQUE, REFERENCES)
      are checked by the statements that write.
    - An [async def] is a function of the world (store, job store, chat
      outbox, log) that returns a value or raises; what was done before
      the exception stays done.  The transport and the storage driver fail
      when the environment's oracles say so. *)

From Stdlib Require Import ZArith List String Ascii Bool Lia.
From Stdlib Require Import DecimalString DecimalZ DecimalPos.
From Stdlib Require Import Sorting.Sorted Permutation.
Import ListNotations.

Local Open Scope string_scope.
Local Open Scope Z_scope.

(** ** Dates, durations and zones *)

Module Time.

(** [timedelta]: microseconds. *)
Definition timedelta := Z.

Definition second : timedelta := 1000000.
Definition minutes (n : Z) : timedelta := n * 60 * second.
Definition hours (n : Z) : timedelta := n * 3600 * second.
Definition days (n : Z) : timedelta := n * 86400 * second.

(** A [datetime] with [tzinfo=None]. *)
Definition naive := Z.

(** A [datetime] with a zone: the wall clock and the UTC offset that the
    attached [tzinfo] gives for it. *)
Record aware := mk_aware { wall : naive; utcoffset : timedelta }.

Inductive datetime :=
| Naive (w : naive)
| Aware (a : aware).

(** The instant an aware datetime denotes, as UTC microseconds. *)
Definition instant (a : aware) : Z := wall a - utcoffset a.

(** A [pytz] zone: the offset in force at a UTC instant (what
    [datetime.now(tz)] and [astimezone] attach) and the offset
    [tz.localize] picks for a wall clock. *)
Record tzinfo := mk_tz {
  utcoffset_at_utc : Z -> timedelta;
  utcoffset_at_wall : naive -> timedelta
}.

Definition UTC : tzinfo := mk_tz (fun _ => 0) (fun _ => 0).

Definition fixed_offset (off : timedelta) : tzinfo :=
  mk_tz (fun _ => off) (fun _ => off).

(** [tz.localize(dt)]: the wall clock is kept, the zone is attached. *)
Definition localize (tz : tzinfo) (w : naive) : aware :=
  mk_aware w (utcoffset_at_wall tz w).

(** [dt.astimezone(tz)]: the instant is kept, the wall clock changes. *)
Definition astimezone (tz : tzinfo) (a : aware) : aware :=
  let u := instant a in
  mk_aware (u + utcoffset_at_utc tz u) (utcoffset_at_utc tz u).

(** [dt.replace(tzinfo=None)]. *)
Definition replace_tzinfo_None (a : aware) : naive := wall a.

(** [datetime.now(tz)] when the clock reads the UTC instant [u]. *)
Definition now_in (tz : tzinfo) (u : Z) : aware :=
  mk_aware (u + utcoffset_at_utc tz u) (utcoffset_at_utc tz u).

(** [dt - delta] on an aware datetime: wall-clock arithmetic, the
    [tzinfo] object is carried over unchanged. *)
Definition sub (a : aware) (d : timedelta) : aware :=
  mk_aware (wall a - d) (utcoffset a).

(** [a > b] on aware datetimes. *)
Definition gtb (a b : aware) : bool := instant b <? instant a.

(** Does the character occur in the string? *)
Fixpoint occurs (c : ascii) (s : string) : bool :=
  match s with
  | EmptyString => false
  | String x r => Ascii.eqb x c || occurs c r
  end.

(** [str(n)] for a Python [int]. *)
Definition str_int (n : Z) : string := NilZero.string_of_int (Z.to_int n).

(** ["%0<w>d" % n] for [0 <= n]: zeros on the left up to width [w]. *)
Fixpoint zeros (k : nat) : string :=
  match k with
  | O => ""
  | S k' => "0" ++ zeros k'
  end.

Definition fmt_0d (w : nat) (n : Z) : string :=
  let s := str_int n in zeros (w - String.length s) ++ s.

(** [timedelta.__str__]: days, then [h:mm:ss], then the microseconds
    when there are some. *)
Definition str_timedelta (d : timedelta) : string :=
  let td_days := d / days 1 in
  let rest := d mod days 1 in
  let td_seconds := rest / second in
  let td_microseconds := rest mod second in
  let mm := td_seconds / 60 in
  let ss := td_seconds mod 60 in
  let hh := mm / 60 in
  let mm := mm mod 60 in
  let s := str_int hh ++ ":" ++ fmt_0d 2 mm ++ ":" ++ fmt_0d 2 ss in
  let s := if td_days =? 0 then s
           else str_int td_days ++ " day"
                ++ (if Z.abs td_days =? 1 then "" else "s") ++ ", " ++ s in
  if td_microseconds =? 0 then s else s ++ "." ++ fmt_0d 6 td_microseconds.

End Time.

(** ** What the program raises, logs and sends *)

(** The exceptions the model distinguishes.  [Other] stands for whatever
    the chat transport or the storage driver raises. *)
Inductive Exception :=
| StringDataRightTruncationError
| ForeignKeyViolationError
| ConflictingIdError
| Other (name : string).

Inductive Result (A : Type) :=
| Ok (a : A)
| Raise (e : Exception).
Arguments Ok {A} a.
Arguments Raise {A} e.

(** ** The tables of [create_tables] *)

Module Schema.

(** A row of [users]. *)
Record User := mk_user {
  user_id : Z;
  phone_number : string;
  first_name : string;
  last_name : string;
  registered_at : Time.naive
}.

(** A row of [events]; [event_datetime] is TIMESTAMP WITHOUT TIME ZONE. *)
Record Event := mk_event {
  event_id : Z;
  title : string;
  description : string;
  photo_id : string;
  event_datetime : Time.naive;
  created_at : Time.naive;
  created_by : Z
}.

(** A row of [notifications], reduced to the columns of its UNIQUE
    constraint; the surrogate [id] and [sent_at] are read by no
    statement of the program. *)
Record Notification := mk_notification {
  n_event_id : Z;
  n_user_id : Z;
  notification_type : string
}.

Record Store := mk_store {
  users : list User;
  events : list Event;
  notifications : list Notification;
  (** next value of the sequence behind [event_id SERIAL] *)
  events_event_id_seq : Z
}.

Definition with_events (s : Store) (es : list Event) (next : Z) : Store :=
  mk_store (users s) es (notifications s) next.

Definition with_notifications (s : Store) (ns : list Notification) : Store :=
  mk_store (users s) (events s) ns (events_event_id_seq s).

Definition Event_eq_dec (a b : Event) : {a = b} + {a <> b}.
Proof.
  decide equality; try apply Z.eq_dec; apply string_dec.
Defined.

Definition Notification_eqb (a b : Notification) : bool :=
  (n_event_id a =? n_event_id b) && (n_user_id a =? n_user_id b)
  && String.eqb (notification_type a) (notification_type b).

(** A string of the model is the UTF-8 encoding of the Python [str].
    The width of a [VARCHAR(n)] column counts characters, as [len] does:
    the bytes of the encoding that are not continuation bytes
    ([10xxxxxx]). *)
Definition is_continuation (c : ascii) : bool :=
  match c with
  | Ascii _ _ _ _ _ _ b6 b7 => b7 && negb b6
  end.

Fixpoint char_length (s : string) : nat :=
  match s with
  | EmptyString => 0%nat
  | String c r =>
      if is_continuation c then char_length r else S (char_length r)
  end.

(** The first [n] characters of a string, and what follows them. *)
Fixpoint split_chars (n : nat) (s : string) : string * string :=
  match s with
  | EmptyString => (EmptyString, EmptyString)
  | String c r =>
      if is_continuation c
      then let (kept, excess) := split_chars n r in (String c kept, excess)
      else match n with
           | O => (EmptyString, s)
           | S n' =>
               let (kept, excess) := split_chars n' r in (String c kept, excess)
           end
  end.

Fixpoint all_spaces (s : string) : bool :=
  match s with
  | EmptyString => true
  | String c r => Ascii.eqb c " "%char && all_spaces r
  end.

(** Assignment to a [VARCHAR(n)] column: a value of more than [n]
    characters is an error, unless what exceeds is only spaces, which
    are cut. *)
Definition varchar (n : nat) (s : string) : option string :=
  if (char_length s <=? n)%nat then Some s
  else let (kept, excess) := split_chars n s in
       if all_spaces excess then Some kept else None.

Definition has_user (s : Store) (u : Z) : bool :=
  existsb (fun r => user_id r =? u) (users s).

Definition has_event (s : Store) (e : Z) : bool :=
  existsb (fun r => event_id r =? e) (events s).

Definition has_notification (s : Store) (k : Notification) : bool :=
  existsb (Notification_eqb k) (notifications s).

End Schema.
Import Schema.

(** ** The job store of the scheduler *)

Module Scheduler.

(** The [args] every job of the program carries: those of
    [send_notification]. *)
Record JobArgs := mk_args {
  a_event_id : Z;
  a_title : string;
  a_description : string;
  a_photo_id : string;
  a_notification_type : string
}.

(** A pending job with a ['date'] trigger. *)
Record Job := mk_job {
  job_id : string;
  run_date : Time.aware;
  args : JobArgs
}.

Definition has_id (id : string) (j : Job) : bool := String.eqb (job_id j) id.

Definition lookup_job (id : string) (js : list Job) : option Job :=
  find (has_id id) js.

(** How many pending jobs carry the id. *)
Definition count_id (id : string) (js : list Job) : nat :=
  List.length (filter (has_id id) js).

(** The job store's [update_job]: the entry found under the id is
    replaced. *)
Fixpoint update_job (j : Job) (js : list Job) : list Job :=
  match js with
  | [] => []
  | k :: rest =>
      if has_id (job_id j) k then j :: rest else k :: update_job j rest
  end.

(** [scheduler.add_job(..., id=..., replace_existing=...)] on a running
    scheduler with the in-memory job store: a new id is added, a known
    id is a conflict, which [replace_existing] turns into an update.
    The order in which the store keeps its jobs is not modelled. *)
Definition real_add_job (replace_existing : bool) (j : Job) (js : list Job)
  : Result (list Job) :=
  match lookup_job (job_id j) js with
  | None => Ok (js ++ [j])%list
  | Some _ =>
      if replace_existing then Ok (update_job j js)
      else Raise ConflictingIdError
  end.

(** The job store after [add_job] with [replace_existing=True]. *)
Definition put_job (j : Job) (js : list Job) : list Job :=
  match lookup_job (job_id j) js with
  | None => (js ++ [j])%list
  | Some _ => update_job j js
  end.

(** Adding a list of jobs one after the other. *)
Definition put_jobs (new : list Job) (js : list Job) : list Job :=
  fold_left (fun acc j => put_job j acc) new js.


(** No two pending jobs share an id: the invariant of the job store. *)
Definition unique_ids (js : list Job) : Prop := NoDup (map job_id js).

End Scheduler.
Import Scheduler.

(** ** The world an [async def] runs in *)

(** What goes out on the chat transport.  The captions are kept as the
    template and its fields; their rendering is the transport's business. *)
Inductive Caption :=
| EventReminder (title description notification_type : string)
| NewEventCreated (title : string) (event_datetime : Time.datetime)
                  (description : string)
| UpcomingEvent (title : string) (event_time : Time.naive) (description : string).

Inductive Text :=
| WelcomeNoUpcomingEvents
| WelcomeUpcomingEvents (n : nat)
| SorryErrorProcessingEvents.

Inductive Outgoing :=
| SendPhoto (chat_id : Z) (photo : string) (caption : Caption)
| SendMessage (chat_id : Z) (text : Text).

Inductive Level := INFO | ERROR.

Inductive LogMsg :=
| Fetching_events_for_new_user (user : Z)
| Current_time (t : Time.naive)
| Found_events_for_new_user (n : nat) (user : Z)
| Event_found (event : Z) (title : string) (dt : Time.naive)
| Recorded_notification (event user : Z) (notification_type : string)
| Error_recording_notification (e : Exception)
| Notification_sent_to_user (user event : Z)
| Failed_to_send_notification_to_user (user : Z) (e : Exception)
| Failed_to_process_notification_for_event (event : Z) (e : Exception)
| Event_creation_notification_sent_to_user (user : Z)
| Failed_to_send_event_creation_notification_to_user (user : Z) (e : Exception)
| Scheduled_notification_for_event (event : Z) (at_time : Time.aware)
| Failed_to_schedule_notification (e : Exception)
| Starting_notification_scheduling_for_new_user (user : Z)
| Retrieved_events_for_user (n : nat) (user : Z)
| No_upcoming_events_found_for_user (user : Z)
| Sent_welcome_message_to_user (user : Z)
| Processing_event_for_user (event user : Z)
| Sent_event_details_to_user (event user : Z)
| Recorded_initial_notification (event user : Z)
| Scheduled_for_event_user (text : string) (event user : Z) (at_time : Time.aware)
| Error_processing_event_for_user (event user : Z) (e : Exception)
| Error_in_schedule_notifications_for_new_user (user : Z) (e : Exception).

(** What the program does not control.  The clock is read as one instant
    for the length of a call; [system_utcoffset] is the offset of the zone
    of the process, which [datetime.now()] without argument uses;
    [TIMEZONE] is the configured zone.  The n-th call on the transport or
    on the storage driver fails when the oracle says so. *)
Record Env := mk_env {
  clock_utc : Z;
  system_utcoffset : Time.timedelta;
  TIMEZONE : Time.tzinfo;
  transport : nat -> option Exception;
  storage : nat -> option Exception
}.

Record World := mk_world {
  store : Store;
  scheduler : list Job;
  outbox : list Outgoing;
  log : list (Level * LogMsg);
  (** calls made so far on the chat transport *)
  transport_calls : nat;
  (** calls made so far on the storage driver *)
  storage_calls : nat
}.

Definition M (A : Type) : Type := World -> Result A * World.

Definition ret {A} (a : A) : M A := fun w => (Ok a, w).

Definition bind {A B} (m : M A) (f : A -> M B) : M B :=
  fun w => match m w with
           | (Ok a, w') => f a w'
           | (Raise e, w') => (Raise e, w')
           end.

Definition raise {A} (e : Exception) : M A := fun w => (Raise e, w).

(** [try: m  except Exception as e: handler e]. *)
Definition try_except {A} (m : M A) (handler : Exception -> M A) : M A :=
  fun w => match m w with
           | (Ok a, w') => (Ok a, w')
           | (Raise e, w') => handler e w'
           end.

Declare Scope world_scope.
Delimit Scope world_scope with world.
Notation "x <- m ;; k" := (bind m (fun x => k))
  (at level 61, m at next level, right associativity) : world_scope.
Notation "m ;; k" := (bind m (fun _ => k))
  (at level 61, right associativity) : world_scope.
Local Open Scope world_scope.

(** [for x in xs: body x]. *)
Fixpoint for_each {A} (xs : list A) (body : A -> M unit) : M unit :=
  match xs with
  | [] => ret tt
  | x :: rest => body x ;; for_each rest body
  end.

Definition logging (lvl : Level) (msg : LogMsg) : M unit :=
  fun w => (Ok tt, mk_world (store w) (scheduler w) (outbox w)
                            (log w ++ [(lvl, msg)])%list
                            (transport_calls w) (storage_calls w)).

(** One call on the storage driver: it is counted, and fails when the
    oracle says so. *)
Definition storage_call (oracle : nat -> option Exception) : M unit :=
  fun w =>
    let w' := mk_world (store w) (scheduler w) (outbox w) (log w)
                       (transport_calls w) (S (storage_calls w)) in
    match oracle (storage_calls w) with
    | Some e => (Raise e, w')
    | None => (Ok tt, w')
    end.

(** One call on the chat transport, likewise. *)
Definition transport_call (oracle : nat -> option Exception) : M unit :=
  fun w =>
    let w' := mk_world (store w) (scheduler w) (outbox w) (log w)
                       (S (transport_calls w)) (storage_calls w) in
    match oracle (transport_calls w) with
    | Some e => (Raise e, w')
    | None => (Ok tt, w')
    end.

Definition set_store (w : World) (s : Store) : World :=
  mk_world s (scheduler w) (outbox w) (log w)
           (transport_calls w) (storage_calls w).

Definition set_scheduler (w : World) (js : list Job) : World :=
  mk_world (store w) js (outbox w) (log w)
           (transport_calls w) (storage_calls w).

Definition set_outbox (w : World) (o : list Outgoing) : World :=
  mk_world (store w) (scheduler w) o (log w)
           (transport_calls w) (storage_calls w).

(** ** database.py *)

Module Database.
Section WithEnv.

Variable env : Env.

(** [async with self.pool.acquire() as conn]. *)
Definition pool_acquire : M unit := storage_call (storage env).

(** [await conn.execute / fetch / fetchval]: one call on the driver,
    then the statement on the tables. *)
Definition conn_run {A} (stmt : Store -> Result (A * Store)) : M A :=
  storage_call (storage env) ;;
  (fun w => match stmt (store w) with
            | Ok (a, s') => (Ok a, set_store w s')
            | Raise e => (Raise e, w)
            end).

(** [ORDER BY event_datetime], ascending; rows with the same datetime
    keep the order of the table (SQL leaves their order open). *)
Fixpoint insert_by_datetime (e : Event) (l : list Event) : list Event :=
  match l with
  | [] => [e]
  | x :: rest =>
      if event_datetime e <=? event_datetime x then e :: l
      else x :: insert_by_datetime e rest
  end.

Definition order_by_event_datetime (l : list Event) : list Event :=
  fold_right insert_by_datetime [] l.

(** Two neighbours of a list in ascending order of datetime. *)
Definition by_datetime (a b : Event) : Prop :=
  event_datetime a <= event_datetime b.

(** [get_all_users]: [SELECT user_id FROM users]. *)
Definition get_all_users : M (list Z) :=
  pool_acquire ;;
  conn_run (fun s => Ok (map user_id (users s), s)).

(** A statement that draws from a sequence: it gives its result and the
    tables it leaves, because a value drawn by [nextval] is not given
    back when the statement fails. *)
Definition conn_run_nextval {A} (stmt : Store -> Result A * Store) : M A :=
  storage_call (storage env) ;;
  (fun w => let (r, s') := stmt (store w) in (r, set_store w s')).

(** The INSERT of [create_event], with its RETURNING.  The two texts are
    fitted to their columns when the parameters are bound; then the row
    is formed, which draws [event_id] from the sequence; then the
    reference [created_by] is checked.  A statement that fails adds no
    row, but an id it drew is used up. *)
Definition insert_event (title description photo_id : string)
    (event_datetime : Time.naive) (created_by : Z) (s : Store)
  : Result Z * Store :=
  match varchar 200 title, varchar 200 photo_id with
  | Some t, Some p =>
      let id := events_event_id_seq s in
      if has_user s created_by then
        let row := mk_event id t description p event_datetime
                            (clock_utc env) created_by in
        (Ok id, with_events s (events s ++ [row])%list (id + 1))
      else (Raise ForeignKeyViolationError, with_events s (events s) (id + 1))
  | _, _ => (Raise StringDataRightTruncationError, s)
  end.

Definition create_event (title description photo_id : string)
    (event_datetime : Time.datetime) (created_by : Z) : M Z :=
  (* Convert to UTC for storage *)
  let event_datetime :=
    match event_datetime with
    | Time.Aware a => Time.replace_tzinfo_None (Time.astimezone Time.UTC a)
    | Time.Naive w => w
    end in
  pool_acquire ;;
  conn_run_nextval
    (insert_event title description photo_id event_datetime created_by).

(** A row of [get_upcoming_events] after the loop that rewrites
    [event['event_datetime']]. *)
Record EventDict := mk_event_dict {
  d_event_id : Z;
  d_title : string;
  d_description : string;
  d_photo_id : string;
  d_event_datetime : Time.aware;
  d_created_at : Time.naive;
  d_created_by : Z
}.

(** [event = dict(row)] followed by
    [event['event_datetime'] = timezone.localize(event['event_datetime'])]. *)
Definition localized_dict (timezone : Time.tzinfo) (row : Event) : EventDict :=
  mk_event_dict (event_id row) (title row) (description row) (photo_id row)
    (Time.localize timezone (event_datetime row))
    (created_at row) (created_by row).

(** The two SELECTs of [get_upcoming_events].  [hours_ahead] is given
    as the interval [interval '1 hour' * $2] the store computes from
    the float. *)
Definition select_upcoming (utc_now : Time.naive)
    (hours_ahead : option Time.timedelta) (s : Store) : list Event :=
  match hours_ahead with
  | Some h =>
      order_by_event_datetime
        (filter (fun e => (utc_now <? event_datetime e)
                          && (event_datetime e <=? utc_now + h))
                (events s))
  | None =>
      order_by_event_datetime
        (filter (fun e => utc_now <? event_datetime e) (events s))
  end.

Definition get_upcoming_events (hours_ahead : option Time.timedelta)
  : M (list EventDict) :=
  (* Get current time in UTC *)
  let utc_now :=
    Time.replace_tzinfo_None (Time.now_in Time.UTC (clock_utc env)) in
  let timezone := TIMEZONE env in
  pool_acquire ;;
  rows <- conn_run (fun s => Ok (select_upcoming utc_now hours_ahead s, s)) ;;
  (* Convert rows to dictionaries and add timezone information *)
  ret (map (localized_dict timezone) rows).

(** The NOT EXISTS subquery of [get_events_for_new_user]. *)
Definition initial_notification_exists (s : Store) (e : Event) (user : Z)
  : bool :=
  existsb (fun n => (n_event_id n =? event_id e) && (n_user_id n =? user)
                    && String.eqb (notification_type n) "initial_notification")
          (notifications s).

(** The SELECT DISTINCT of [get_events_for_new_user]. *)
Definition select_events_for_new_user (current_time : Time.naive)
    (user : Z) (s : Store) : list Event :=
  order_by_event_datetime
    (nodup Event_eq_dec
       (filter (fun e => (current_time <? event_datetime e)
                         && negb (initial_notification_exists s e user))
               (events s))).

Definition get_events_for_new_user (user : Z) : M (list Event) :=
  pool_acquire ;;
  logging INFO (Fetching_events_for_new_user user) ;;
  (* datetime.now(): the wall clock of the process, no zone *)
  let current_time := clock_utc env + system_utcoffset env in
  logging INFO (Current_time current_time) ;;
  rows <- conn_run (fun s => Ok (select_events_for_new_user current_time user s, s)) ;;
  logging INFO (Found_events_for_new_user (List.length rows) user) ;;
  for_each rows (fun row =>
    logging INFO (Event_found (event_id row) (title row) (event_datetime row))) ;;
  ret rows.

(** The INSERT ... ON CONFLICT DO NOTHING of [record_notification]:
    the value is fitted to [notification_type VARCHAR(20)], a row with
    the same key makes the statement do nothing, and a row that is
    inserted must reference an event and a user. *)
Definition insert_notification (event user : Z) (notification_type : string)
    (s : Store) : Result (unit * Store) :=
  match varchar 20 notification_type with
  | None => Raise StringDataRightTruncationError
  | Some t =>
      let row := mk_notification event user t in
      if has_notification s row then Ok (tt, s)
      else if has_event s event && has_user s user
           then Ok (tt, with_notifications s (notifications s ++ [row])%list)
           else Raise ForeignKeyViolationError
  end.

Definition record_notification (event user : Z) (notification_type : string)
  : M unit :=
  pool_acquire ;;
  try_except
    (conn_run (insert_notification event user notification_type) ;;
     logging INFO (Recorded_notification event user notification_type))
    (fun e => logging ERROR (Error_recording_notification e) ;; raise e).

End WithEnv.
End Database.

(** ** bot.py: dispatcher and reminder scheduling *)

Module Bot.
Section WithEnv.

Variable env : Env.

(** [await bot.send_photo(chat_id=..., photo=..., caption=...)]. *)
Definition send_photo (chat_id : Z) (photo : string) (caption : Caption)
  : M unit :=
  transport_call (transport env) ;;
  (fun w => (Ok tt, set_outbox w (outbox w ++ [SendPhoto chat_id photo caption])%list)).

(** [await bot.send_message(chat_id, text)]. *)
Definition send_message (chat_id : Z) (text : Text) : M unit :=
  transport_call (transport env) ;;
  (fun w => (Ok tt, set_outbox w (outbox w ++ [SendMessage chat_id text])%list)).

(** [scheduler.add_job(send_notification, 'date', run_date=..., args=...,
    id=..., replace_existing=True)]. *)
Definition add_job (id : string) (run_date : Time.aware) (args : JobArgs)
  : M unit :=
  fun w => match real_add_job true (mk_job id run_date args) (scheduler w) with
           | Ok js => (Ok tt, set_scheduler w js)
           | Raise e => (Raise e, w)
           end.

Definition send_notification (event : Z) (title description photo_id : string)
    (notification_type : string) : M unit :=
  try_except
    (users <- Database.get_all_users env ;;
     let message_text := EventReminder title description notification_type in
     for_each users (fun user =>
       try_except
         (send_photo user photo_id message_text ;;
          Database.record_notification env event user notification_type ;;
          logging INFO (Notification_sent_to_user user event))
         (fun e => logging ERROR (Failed_to_send_notification_to_user user e))))
    (fun e => logging ERROR (Failed_to_process_notification_for_event event e)).

Definition send_event_creation_notification (event : Z)
    (title description photo_id : string) (event_datetime : Time.datetime)
  : M unit :=
  users <- Database.get_all_users env ;;
  let message_text := NewEventCreated title event_datetime description in
  for_each users (fun user =>
    try_except
      (send_photo user photo_id message_text ;;
       logging INFO (Event_creation_notification_sent_to_user user))
      (fun e => logging ERROR
                  (Failed_to_send_event_creation_notification_to_user user e))).

(** The table both scheduling paths iterate over. *)
Definition notification_times : list (Time.timedelta * string) :=
  [ (Time.days 1, "Event starts in 1 day");
    (Time.hours 6, "Event starts in 6 hours");
    (Time.hours 1, "Event starts in 1 hour");
    (Time.minutes 15, "Event starts in 15 minutes");
    (Time.minutes (-15), "Event started 15 minutes ago") ].

(** [f"event_{event_id}_notification_{time_delta}"]. *)
Definition event_job_id (event : Z) (time_delta : Time.timedelta) : string :=
  ("event_" ++ Time.str_int event ++ "_notification_"
   ++ Time.str_timedelta time_delta)%string.

(** [f"event_{event['event_id']}_user_{user_id}_notification_{time_delta}"]. *)
Definition user_job_id (event user : Z) (time_delta : Time.timedelta)
  : string :=
  ("event_" ++ Time.str_int event ++ "_user_" ++ Time.str_int user
   ++ "_notification_" ++ Time.str_timedelta time_delta)%string.

(** [event_datetime - time_delta] after the "ensure timezone-aware" step
    of [schedule_event_notifications]. *)
Definition ensure_aware (local_tz : Time.tzinfo) (dt : Time.datetime)
  : Time.aware :=
  match dt with
  | Time.Naive w => Time.localize local_tz w
  | Time.Aware a => a
  end.

Definition schedule_event_notifications (event : Z)
    (event_datetime : Time.datetime) (title description photo_id : string)
  : M unit :=
  let local_tz := TIMEZONE env in
  let event_datetime := ensure_aware local_tz event_datetime in
  let now := Time.now_in local_tz (clock_utc env) in
  for_each notification_times (fun '(time_delta, notification_text) =>
    (* the difference of an aware datetime is aware: the second
       localize of the source never runs *)
    let notification_time := Time.sub event_datetime time_delta in
    if Time.gtb notification_time now then
      let job_id := event_job_id event time_delta in
      try_except
        (add_job job_id notification_time
                 (mk_args event title description photo_id notification_text) ;;
         logging INFO (Scheduled_notification_for_event event notification_time))
        (fun e => logging ERROR (Failed_to_schedule_notification e))
    else ret tt).

Definition schedule_notifications_for_new_user (user : Z) : M unit :=
  try_except
    (logging INFO (Starting_notification_scheduling_for_new_user user) ;;
     events <- Database.get_events_for_new_user env user ;;
     logging INFO (Retrieved_events_for_user (List.length events) user) ;;
     match events with
     | [] =>
         logging INFO (No_upcoming_events_found_for_user user) ;;
         send_message user WelcomeNoUpcomingEvents
     | _ :: _ =>
         send_message user (WelcomeUpcomingEvents (List.length events)) ;;
         logging INFO (Sent_welcome_message_to_user user) ;;
         for_each events (fun event =>
           try_except
             (logging INFO (Processing_event_for_user (event_id event) user) ;;
              (* a row of the store: a naive datetime, never a str *)
              let event_time := event_datetime event in
              send_photo user (photo_id event)
                (UpcomingEvent (title event) event_time (description event)) ;;
              logging INFO (Sent_event_details_to_user (event_id event) user) ;;
              Database.record_notification env (event_id event) user
                "initial_notification" ;;
              logging INFO (Recorded_initial_notification (event_id event) user) ;;
              let local_tz := TIMEZONE env in
              let now := Time.now_in local_tz (clock_utc env) in
              for_each notification_times (fun '(time_delta, notification_text) =>
                (* naive minus timedelta is naive: it is localized *)
                let notification_time :=
                  Time.localize local_tz (event_time - time_delta) in
                if Time.gtb notification_time now then
                  let job_id := user_job_id (event_id event) user time_delta in
                  add_job job_id notification_time
                    (mk_args (event_id event) (title event) (description event)
                             (photo_id event) notification_text) ;;
                  logging INFO (Scheduled_for_event_user notification_text
                                  (event_id event) user notification_time)
                else ret tt))
             (fun e => logging ERROR
                         (Error_processing_event_for_user (event_id event) user e)))
     end)
    (fun e =>
       logging ERROR (Error_in_schedule_notifications_for_new_user user e) ;;
       try_except (send_message user SorryErrorProcessingEvents)
                  (fun _ => ret tt)).

(** The entries of [notification_times] that pass the test
    [notification_time > now] for an event at [event_datetime]. *)
Definition future_offsets (event_datetime now : Time.aware)
  : list (Time.timedelta * string) :=
  filter (fun p => Time.gtb (Time.sub event_datetime (fst p)) now)
         notification_times.

(** The job [schedule_event_notifications] hands to [add_job] for an
    entry of the table. *)
Definition event_job (event : Z) (event_datetime : Time.aware)
    (title description photo_id : string) (p : Time.timedelta * string) : Job :=
  mk_job (event_job_id event (fst p)) (Time.sub event_datetime (fst p))
         (mk_args event title description photo_id (snd p)).

End WithEnv.
End Bot.

(** ** Worlds and environments to run the program on *)

Definition no_fault : nat -> option Exception := fun _ => None.

(** Asia/Almaty, the default of [TIMEZONE]: UTC+5 since March 2024, no
    daylight saving. *)
Definition Asia_Almaty : Time.tzinfo := Time.fixed_offset (Time.hours 5).

Definition world_of (s : Store) : World := mk_world s [] [] [] 0 0.

(** An environment where nothing fails: the process runs in a zone
    [system_utcoffset] ahead of UTC, the bot is configured for Asia/Almaty
    and the clock reads the UTC instant [u]. *)
Definition env_at (u : Z) (system_utcoffset : Time.timedelta) : Env :=
  mk_env u system_utcoffset Asia_Almaty no_fault no_fault.

(** Wall clocks and instants of the examples, in microseconds since the
    epoch. *)
Definition t_2024_06_01_10_00 : Z := 1717236000000000.
Definition t_2024_06_01_04_50 : Z := 1717217400000000.
Definition t_2024_06_01_05_00 : Z := 1717218000000000.
Definition t_2024_05_31_04_00 : Z := 1717128000000000.

(** A store with an administrator (user 100), three more users and no
    event yet. *)
Definition store_with_users : Store :=
  mk_store [ mk_user 100 "+77000000000" "Admin" "A" 0;
             mk_user 1 "+77000000001" "Aigerim" "B" 0;
             mk_user 2 "+77000000002" "Bolat" "C" 0;
             mk_user 3 "+77000000003" "Dana" "D" 0 ]
           [] [] 1.

(** The same store after an event was created for 2024-06-01 10:00 in
    Almaty, which is 05:00 UTC. *)
Definition store_with_event : Store :=
  with_events store_with_users
    [ mk_event 1 "Meetup" "Monthly meetup" "photo-1" t_2024_06_01_05_00
               t_2024_05_31_04_00 100 ] 2.

(** The same store once user 2 has been shown the event on registering. *)
Definition store_with_record : Store :=
  with_notifications store_with_event
    [ mk_notification 1 2 "initial_notification" ].

(** An environment whose storage driver loses its connection at every
    statement (the pool still hands out connections). *)
Definition env_storage_down (u : Z) : Env :=
  mk_env u 0 Asia_Almaty no_fault
         (fun n => if Nat.even n then None
                   else Some (Other "ConnectionDoesNotExistError")).

(** An environment whose transport fails on its second call. *)
Definition env_second_send_fails (u : Z) : Env :=
  mk_env u 0 Asia_Almaty
         (fun n => if (n =? 1)%nat then Some (Other "BotBlocked") else None)
         no_fault.

(** A name of [n] times the Cyrillic capital letter A (U+0410), which
    UTF-8 encodes in the two bytes 208 and 144. *)
Fixpoint cyrillic_letters (n : nat) : string :=
  match n with
  | O => EmptyString
  | S k => String "208"%char (String "144"%char (cyrillic_letters k))
  end.

(** A computation that never writes to the store, whether it returns or
    raises. *)
Definition keeps_store {A} (m : M A) : Prop :=
  forall w, store (snd (m w)) = store w.

(** Every stored [notification_type] fits its column. *)
Definition ledger_ok (s : Store) : Prop :=
  Forall (fun n => (char_length (notification_type n) <= 20)%nat)
         (notifications s).

(** ** database.py: the users *)

Module Users.
Section WithEnv.

Variable env : Env.

(** The offset of the [TimeZone] setting of the database session.  The
    ON CONFLICT branch of [add_user] assigns [NOW()], a timestamp with
    zone, to a column without zone, and the server converts it with this
    setting; the program does not set it. *)
Variable session_utcoffset : Time.timedelta.

Definition with_users (s : Store) (us : list User) : Store :=
  mk_store us (events s) (notifications s) (events_event_id_seq s).

(** [DO UPDATE SET ...] on the row that conflicts on [user_id]: the
    table gets a new version of the row, written after the rows it
    holds, and the old version is gone.  The list is the table in the
    order [SELECT ... FROM users] returns it, so the row moves to the
    end. *)
Definition update_user (row : User) (us : list User) : list User :=
  (filter (fun r => negb (user_id r =? user_id row)) us ++ [row])%list.

(** The INSERT ... ON CONFLICT (user_id) DO UPDATE of [add_user].  The
    values are fitted to [phone_number VARCHAR(20)], [first_name
    VARCHAR(100)] and [last_name VARCHAR(100)]; a new row gets the
    default [registered_at], the UTC clock; a row that is there gets the
    three fields and [registered_at = NOW()]. *)
Definition upsert_user (user : Z) (phone_number first_name last_name : string)
    (s : Store) : Result (unit * Store) :=
  match varchar 20 phone_number, varchar 100 first_name,
        varchar 100 last_name with
  | Some p, Some f, Some l =>
      if has_user s user
      then Ok (tt, with_users s
                     (update_user
                        (mk_user user p f l (clock_utc env + session_utcoffset))
                        (users s)))
      else Ok (tt, with_users s
                     (users s ++ [mk_user user p f l (clock_utc env)])%list)
  | _, _, _ => Raise StringDataRightTruncationError
  end.

Definition add_user (user : Z) (phone_number first_name last_name : string)
  : M unit :=
  Database.pool_acquire env ;;
  Database.conn_run env (upsert_user user phone_number first_name last_name).

(** [SELECT * FROM users WHERE user_id = $1], first row or [None]. *)
Definition select_user (user : Z) (s : Store) : option User :=
  find (fun r => user_id r =? user) (users s).

Definition get_user (user : Z) : M (option User) :=
  Database.pool_acquire env ;;
  Database.conn_run env (fun s => Ok (select_user user s, s)).

End WithEnv.
End Users.

(** ** bot.py: start-up, the administrator, the list of events *)

(** The two lines [on_startup] itself writes to the log. *)
Inductive StartupMsg :=
| Bot_started_successfully
| Error_during_startup (e : Exception).

Module Startup.
Section WithEnv.

Variable env : Env.

(** [asyncpg.create_pool(...)]: connecting is a call on the storage
    driver. *)
Definition create_pool : M unit := storage_call (storage env).

(** The three [CREATE TABLE IF NOT EXISTS]: a table that is there is left
    alone, and a table that is not is created empty, which is how the
    store has it from the start. *)
Definition create_tables : M unit :=
  Database.pool_acquire env ;;
  Database.conn_run env (fun s => Ok (tt, s)) ;;
  Database.conn_run env (fun s => Ok (tt, s)) ;;
  Database.conn_run env (fun s => Ok (tt, s)).

(** The body of the [try] of [on_startup].  [scheduler.start()] has
    nothing to do in the model: the job store of the world is the one of
    the started scheduler. *)
Definition startup_body : M unit :=
  create_pool ;;
  create_tables ;;
  events <- Database.get_upcoming_events env None ;;
  for_each events (fun event =>
    Bot.schedule_event_notifications env
      (Database.d_event_id event)
      (Time.Aware (Database.d_event_datetime event))
      (Database.d_title event) (Database.d_description event)
      (Database.d_photo_id event)).

(** [on_startup]: the result, the world, and the line it adds to the end
    of the log ("Bot started successfully", or the error it re-raises). *)
Definition on_startup (w : World) : Result unit * World * (Level * StartupMsg) :=
  match startup_body w with
  | (Ok _, w') => (Ok tt, w', (INFO, Bot_started_successfully))
  | (Raise e, w') => (Raise e, w', (ERROR, Error_during_startup e))
  end.

End WithEnv.
End Startup.

Module Admin.

(** [is_admin]: [str(user_id) == os.getenv('ADMIN_ID')]; the variable
    may be unset. *)
Definition is_admin (ADMIN_ID : option string) (user_id : Z) : bool :=
  match ADMIN_ID with
  | Some a => String.eqb (Time.str_int user_id) a
  | None => false
  end.

End Admin.

Module ListEvents.

(** The "time until" of an entry of [list_events].  [now] is
    [datetime.now(event_time.tzinfo)], the instant of the clock;
    [time_until = event_time - now] is a [timedelta], whose [days] and
    [seconds] are the floor quotient by a day and what is left, in whole
    seconds. *)
Definition time_until (event_time : Time.aware) (clock : Z) : Time.timedelta :=
  Time.instant event_time - clock.

Definition days_until (time_until : Time.timedelta) : Z :=
  time_until / Time.days 1.

Definition td_seconds (time_until : Time.timedelta) : Z :=
  (time_until mod Time.days 1) / Time.second.

Definition hours_until (time_until : Time.timedelta) : Z :=
  td_seconds time_until / 3600.

Definition minutes_until (time_until : Time.timedelta) : Z :=
  (td_seconds time_until mod 3600) / 60.

(** The list [time_until_str]. *)
Definition time_until_str (time_until : Time.timedelta) : list string :=
  ((if 0 <? days_until time_until
    then [(Time.str_int (days_until time_until) ++ " days")%string] else [])
   ++ (if 0 <? hours_until time_until
       then [(Time.str_int (hours_until time_until) ++ " hours")%string] else [])
   ++ (if 0 <? minutes_until time_until
       then [(Time.str_int (minutes_until time_until) ++ " minutes")%string]
       else []))%list.

(** [", ".join(time_until_str) if time_until_str else "Starting now!"]. *)
Definition time_until_formatted (time_until : Time.timedelta) : string :=
  match time_until_str time_until with
  | [] => "Starting now!"
  | parts => String.concat ", " parts
  end.

(** [range(0, n, step)] for a positive [step]. *)
Definition range_step (n step : nat) : list nat :=
  map (fun k => (k * step)%nat) (seq 0 ((n + step - 1) / step)).

(** The limit of one message. *)
Definition limit : nat := 4096.

(** The messages [list_events] replies with for a response: the slices
    [response[i:i+4096]] when it is longer than the limit, the response
    itself otherwise.  A response is a sequence of characters, whatever
    they are. *)
Definition reply_parts {A} (response : list A) : list (list A) :=
  if (limit <? List.length response)%nat
  then map (fun i => firstn limit (skipn i response))
           (range_step (List.length response) limit)
  else [response].

End ListEvents.

(** ** What the store keeps *)

(** The second store has every event and every record of the first, and
    every user id of the first is still registered. *)
Definition extends (s s' : Store) : Prop :=
  incl (events s) (events s') /\
  incl (notifications s) (notifications s') /\
  (forall u, has_user s u = true -> has_user s' u = true).

(** A computation that deletes nothing from the store, whether it
    returns or raises. *)
Definition never_deletes {A} (m : M A) : Prop :=
  forall w, extends (store w) (store (snd (m w))).

(** The constraints of [create_tables]: primary keys, the UNIQUE of the
    ledger, the references, the column widths. *)
Definition store_ok (s : Store) : Prop :=
  NoDup (map user_id (users s)) /\
  Forall (fun r => (char_length (phone_number r) <= 20)%nat /\
                   (char_length (first_name r) <= 100)%nat /\
                   (char_length (last_name r) <= 100)%nat) (users s) /\
  NoDup (map event_id (events s)) /\
  Forall (fun e => event_id e < events_event_id_seq s /\
                   (char_length (title e) <= 200)%nat /\
                   (char_length (photo_id e) <= 200)%nat /\
                   has_user s (created_by e) = true) (events s) /\
  NoDup (notifications s) /\
  Forall (fun n => (char_length (notification_type n) <= 20)%nat /\
                   has_event s (n_event_id n) = true /\
                   has_user s (n_user_id n) = true) (notifications s).

(** A computation that keeps the constraints. *)
Definition keeps_constraints {A} (m : M A) : Prop :=
  forall w, store_ok (store w) -> store_ok (store (snd (m w))).

(** A computation that leaves the job under an id alone. *)
Definition keeps_job {A} (id : string) (m : M A) : Prop :=
  forall w, lookup_job id (scheduler (snd (m w))) = lookup_job id (scheduler w) /\
            count_id id (scheduler (snd (m w))) = count_id id (scheduler w).

(** The users a batch of sends reaches: those whose call on the
    transport, counted from [n], does not fail. *)
Fixpoint delivered (oracle : nat -> option Exception) (n : nat) (us : list Z)
  : list Z :=
  match us with
  | [] => []
  | u :: rest =>
      match oracle n with
      | None => u :: delivered oracle (S n) rest
      | Some _ => delivered oracle (S n) rest
      end
  end.

(** The job the per-user path hands to [add_job] for a stored event and
    an entry of the table. *)
Definition user_job (tz : Time.tzinfo) (user : Z) (e : Event)
    (p : Time.timedelta * string) : Job :=
  mk_job (Bot.user_job_id (event_id e) user (fst p))
         (Time.localize tz (event_datetime e - fst p))
         (mk_args (event_id e) (title e) (description e) (photo_id e) (snd p)).

(** The entries of the table that pass the test of the per-user path. *)
Definition user_future_offsets (tz : Time.tzinfo) (now : Time.aware) (e : Event)
  : list (Time.timedelta * string) :=
  filter (fun p => Time.gtb (Time.localize tz (event_datetime e - fst p)) now)
         Bot.notification_times.

(** * Properties *)

(** ** Rendering of durations *)

Example str_timedelta_one_day :
  Time.str_timedelta (Time.days 1) = "1 day, 0:00:00".
Proof. reflexivity. Qed.

Example str_timedelta_six_hours :
  Time.str_timedelta (Time.hours 6) = "6:00:00".
Proof. reflexivity. Qed.

Example str_timedelta_quarter :
  Time.str_timedelta (Time.minutes 15) = "0:15:00".
Proof. reflexivity. Qed.

Example str_timedelta_minus_quarter :
  Time.str_timedelta (Time.minutes (-15)) = "-1 day, 23:45:00".
Proof. reflexivity. Qed.

Example str_timedelta_microseconds :
  Time.str_timedelta (Time.days 2 + 5) = "2 days, 0:00:00.000005".
Proof. reflexivity. Qed.

Example event_job_id_example :
  Bot.event_job_id 7 (Time.minutes (-15)) = "event_7_notification_-1 day, 23:45:00".
Proof. reflexivity. Qed.

Example user_job_id_example :
  Bot.user_job_id 7 42 (Time.hours 6) = "event_7_user_42_notification_6:00:00".
Proof. reflexivity. Qed.

(** ** The job store *)

Section JobStoreFacts.

Implicit Types (j k : Job) (js : list Job) (id : string).

Lemma has_id_true id j : has_id id j = true <-> job_id j = id.
Proof. unfold has_id. apply String.eqb_eq. Qed.

Lemma has_id_false id j : has_id id j = false <-> job_id j <> id.
Proof. unfold has_id. apply String.eqb_neq. Qed.

Lemma real_add_job_replace j js : real_add_job true j js = Ok (put_job j js).
Proof.
  unfold real_add_job, put_job. destruct (lookup_job (job_id j) js); reflexivity.
Qed.

Lemma lookup_job_id id js j : lookup_job id js = Some j -> job_id j = id.
Proof.
  unfold lookup_job. intros H. apply find_some in H. apply has_id_true, H.
Qed.

Lemma lookup_job_None id js :
  lookup_job id js = None <-> ~ In id (map job_id js).
Proof.
  unfold lookup_job. induction js as [|k js IH]; simpl.
  - intuition.
  - destruct (has_id id k) eqn:E.
    + apply has_id_true in E. split; [discriminate | intros H; exfalso; auto].
    + apply has_id_false in E. rewrite IH. intuition.
Qed.

Lemma count_id_0 id js : count_id id js = 0%nat <-> ~ In id (map job_id js).
Proof.
  unfold count_id. induction js as [|k js IH]; simpl.
  - intuition.
  - destruct (has_id id k) eqn:E; simpl.
    + apply has_id_true in E. split; [discriminate | intros H; exfalso; auto].
    + apply has_id_false in E. rewrite IH. intuition.
Qed.

Lemma count_id_unique id js :
  unique_ids js -> In id (map job_id js) -> count_id id js = 1%nat.
Proof.
  unfold unique_ids, count_id. induction js as [|k js IH]; simpl; intros U H.
  - contradiction.
  - inversion U as [|? ? Hk U']; subst.
    destruct (has_id id k) eqn:E; simpl.
    + apply has_id_true in E. subst id.
      apply count_id_0 in Hk. unfold count_id in Hk. now rewrite Hk.
    + apply has_id_false in E. destruct H as [H|H]; [contradiction|]. auto.
Qed.

Lemma map_id_update j js : map job_id (update_job j js) = map job_id js.
Proof.
  induction js as [|k js IH]; simpl; [reflexivity|].
  destruct (has_id (job_id j) k) eqn:E; simpl.
  - apply has_id_true in E. now rewrite E.
  - now rewrite IH.
Qed.

Lemma lookup_update_same j js k :
  lookup_job (job_id j) js = Some k ->
  lookup_job (job_id j) (update_job j js) = Some j.
Proof.
  unfold lookup_job. induction js as [|x js IH]; simpl; [discriminate|].
  destruct (has_id (job_id j) x) eqn:E; simpl.
  - intros _. unfold has_id at 1. now rewrite String.eqb_refl.
  - rewrite E. exact IH.
Qed.

Lemma lookup_update_other id j js :
  id <> job_id j -> lookup_job id (update_job j js) = lookup_job id js.
Proof.
  unfold lookup_job. intros N. induction js as [|x js IH]; simpl; [reflexivity|].
  destruct (has_id (job_id j) x) eqn:E; simpl.
  - apply has_id_true in E.
    assert (has_id id j = false) as -> by (apply has_id_false; congruence).
    assert (has_id id x = false) as -> by (apply has_id_false; congruence).
    reflexivity.
  - destruct (has_id id x); [reflexivity | exact IH].
Qed.

Lemma count_update id j js : count_id id (update_job j js) = count_id id js.
Proof.
  unfold count_id. induction js as [|x js IH]; simpl; [reflexivity|].
  destruct (has_id (job_id j) x) eqn:E; simpl.
  - apply has_id_true in E. unfold has_id. rewrite E.
    destruct (String.eqb (job_id j) id); reflexivity.
  - destruct (has_id id x); simpl; now rewrite IH.
Qed.

Lemma lookup_app id js1 js2 :
  lookup_job id (js1 ++ js2) =
  match lookup_job id js1 with Some j => Some j | None => lookup_job id js2 end.
Proof.
  unfold lookup_job. induction js1 as [|x js1 IH]; simpl; [reflexivity|].
  destruct (has_id id x); [reflexivity | exact IH].
Qed.

Lemma count_app id js1 js2 :
  count_id id (js1 ++ js2) = (count_id id js1 + count_id id js2)%nat.
Proof. unfold count_id. now rewrite filter_app, length_app. Qed.

Lemma lookup_put_same j js : lookup_job (job_id j) (put_job j js) = Some j.
Proof.
  unfold put_job. destruct (lookup_job (job_id j) js) as [k|] eqn:E.
  - eapply lookup_update_same; eauto.
  - rewrite lookup_app, E. simpl. unfold has_id. now rewrite String.eqb_refl.
Qed.

Lemma lookup_put_other id j js :
  id <> job_id j -> lookup_job id (put_job j js) = lookup_job id js.
Proof.
  intros N. unfold put_job. destruct (lookup_job (job_id j) js) eqn:E.
  - now apply lookup_update_other.
  - rewrite lookup_app. destruct (lookup_job id js); [reflexivity|].
    simpl. assert (has_id id j = false) as -> by (apply has_id_false; congruence).
    reflexivity.
Qed.

Lemma count_put_other id j js :
  id <> job_id j -> count_id id (put_job j js) = count_id id js.
Proof.
  intros N. unfold put_job. destruct (lookup_job (job_id j) js) eqn:E.
  - apply count_update.
  - rewrite count_app. unfold count_id at 2. simpl.
    assert (has_id id j = false) as -> by (apply has_id_false; congruence).
    simpl. lia.
Qed.

Lemma unique_put j js : unique_ids js -> unique_ids (put_job j js).
Proof.
  unfold unique_ids, put_job. intros U.
  destruct (lookup_job (job_id j) js) eqn:E.
  - now rewrite map_id_update.
  - apply lookup_job_None in E. rewrite map_app. simpl.
    apply NoDup_app; [exact U | constructor; [simpl; tauto | constructor] |].
    intros x Hx [<-|[]]. contradiction.
Qed.

Lemma in_ids_put j js : In (job_id j) (map job_id (put_job j js)).
Proof.
  destruct (lookup_job (job_id j) (put_job j js)) eqn:E.
  - pose proof (lookup_put_same j js) as H. rewrite E in H. inversion H; subst.
    unfold lookup_job in E. apply find_some in E. apply in_map, E.
  - rewrite lookup_put_same in E. discriminate.
Qed.

Lemma count_put_same j js :
  unique_ids js -> count_id (job_id j) (put_job j js) = 1%nat.
Proof.
  intros U. apply count_id_unique; [now apply unique_put | apply in_ids_put].
Qed.

Lemma unique_put_jobs new js : unique_ids js -> unique_ids (put_jobs new js).
Proof.
  unfold put_jobs. revert js. induction new as [|j new IH]; simpl; intros js U.
  - exact U.
  - apply IH. now apply unique_put.
Qed.

Lemma lookup_put_jobs_other id new js :
  ~ In id (map job_id new) ->
  lookup_job id (put_jobs new js) = lookup_job id js.
Proof.
  unfold put_jobs. revert js. induction new as [|j new IH]; simpl; intros js N.
  - reflexivity.
  - rewrite IH by tauto. apply lookup_put_other. intros ->. tauto.
Qed.

Lemma count_put_jobs_other id new js :
  ~ In id (map job_id new) ->
  count_id id (put_jobs new js) = count_id id js.
Proof.
  unfold put_jobs. revert js. induction new as [|j new IH]; simpl; intros js N.
  - reflexivity.
  - rewrite IH by tauto. apply count_put_other. intros ->. tauto.
Qed.

Lemma lookup_put_jobs_in j new js :
  NoDup (map job_id new) -> In j new ->
  lookup_job (job_id j) (put_jobs new js) = Some j.
Proof.
  revert js. induction new as [|x new IH]; simpl; intros js D H.
  - contradiction.
  - inversion D as [|? ? Hx D']; subst. destruct H as [->|H].
    + change (lookup_job (job_id j) (put_jobs new (put_job j js)) = Some j).
      rewrite lookup_put_jobs_other by exact Hx. apply lookup_put_same.
    + apply (IH (put_job x js) D' H).
Qed.

Lemma count_put_jobs_in j new js :
  unique_ids js -> NoDup (map job_id new) -> In j new ->
  count_id (job_id j) (put_jobs new js) = 1%nat.
Proof.
  intros U D H. apply count_id_unique.
  - now apply unique_put_jobs.
  - pose proof (lookup_put_jobs_in j new js D H) as L.
    unfold lookup_job in L. apply find_some in L.
    apply in_map, L.
Qed.

End JobStoreFacts.

(** ** What one run of [schedule_event_notifications] does *)

Section ScheduleEvent.

Variable env : Env.
Variables (event : Z) (title description photo : string).

Let now := Time.now_in (TIMEZONE env) (clock_utc env).

Lemma add_job_run id rd a w :
  Bot.add_job id rd a w
  = (Ok tt, set_scheduler w (put_job (mk_job id rd a) (scheduler w))).
Proof. unfold Bot.add_job. now rewrite real_add_job_replace. Qed.

(** The loop over any table of offsets: the entries that pass the test
    are added in order, each with one line in the log; nothing else
    changes and nothing is raised. *)
Lemma schedule_loop_run (T : Time.aware) (table : list (Time.timedelta * string)) :
  forall w,
    for_each table (fun '(time_delta, notification_text) =>
      let notification_time := Time.sub T time_delta in
      if Time.gtb notification_time now then
        let job_id := Bot.event_job_id event time_delta in
        try_except
          (Bot.add_job job_id notification_time
             (mk_args event title description photo notification_text) ;;
           logging INFO (Scheduled_notification_for_event event notification_time))
          (fun e => logging ERROR (Failed_to_schedule_notification e))
      else ret tt) w
    = (Ok tt,
       let due := filter (fun p => Time.gtb (Time.sub T (fst p)) now) table in
       mk_world (store w)
         (put_jobs (map (Bot.event_job event T title description photo) due)
                   (scheduler w))
         (outbox w)
         (log w ++ map (fun p => (INFO, Scheduled_notification_for_event event
                                          (Time.sub T (fst p)))) due)%list
         (transport_calls w) (storage_calls w)).
Proof.
  induction table as [|[d text] table IH]; intros w; simpl.
  - unfold ret. rewrite app_nil_r. now destruct w.
  - unfold bind at 1. destruct (Time.gtb (Time.sub T d) now) eqn:G; simpl.
    + unfold try_except, bind at 1. rewrite add_job_run. unfold logging at 1.
      rewrite IH. simpl. rewrite <- app_assoc. reflexivity.
    + unfold ret at 1. apply IH.
Qed.

Lemma schedule_event_notifications_run dt w :
  let T := Bot.ensure_aware (TIMEZONE env) dt in
  let due := Bot.future_offsets T now in
  Bot.schedule_event_notifications env event dt title description photo w
  = (Ok tt,
     mk_world (store w)
       (put_jobs (map (Bot.event_job event T title description photo) due)
                 (scheduler w))
       (outbox w)
       (log w ++ map (fun p => (INFO, Scheduled_notification_for_event event
                                        (Time.sub T (fst p)))) due)%list
       (transport_calls w) (storage_calls w)).
Proof.
  intros T due. unfold Bot.schedule_event_notifications.
  apply (schedule_loop_run T Bot.notification_times w).
Qed.

End ScheduleEvent.

(** ** Job ids *)

Section JobIds.

Lemma string_app_inv_head (p a b : string) :
  (p ++ a)%string = (p ++ b)%string -> a = b.
Proof.
  induction p as [|c p IH]; simpl; intros H; [exact H|].
  injection H as H. auto.
Qed.

Lemma occurs_uint c d :
  Time.occurs c (NilEmpty.string_of_uint d) = true ->
  In c ["0"; "1"; "2"; "3"; "4"; "5"; "6"; "7"; "8"; "9"]%char.
Proof.
  induction d as [|d IH|d IH|d IH|d IH|d IH|d IH|d IH|d IH|d IH|d IH];
    cbn [Time.occurs NilEmpty.string_of_uint]; intros H; try discriminate;
    (apply orb_true_iff in H; destruct H as [H|H];
     [apply Ascii.eqb_eq in H; subst c; simpl; tauto | exact (IH H)]).
Qed.

(** A decimal rendering has no underscore. *)
Lemma str_int_no_underscore n : Time.occurs "_" (Time.str_int n) = false.
Proof.
  destruct (Time.occurs "_" (Time.str_int n)) eqn:E; [exfalso | reflexivity].
  unfold Time.str_int, NilZero.string_of_int in E.
  destruct (Z.to_int n) as [d|d];
    [| simpl in E];
    unfold NilZero.string_of_uint in E;
    destruct d; simpl in E; try discriminate;
    apply occurs_uint in E; simpl in E;
    repeat (destruct E as [E|E]; [discriminate|]); exact E.
Qed.

(** Two strings cut at their first underscore agree piecewise. *)
Lemma split_at_underscore (s1 s2 r1 r2 : string) :
  Time.occurs "_" s1 = false -> Time.occurs "_" s2 = false ->
  (s1 ++ String "_" r1)%string = (s2 ++ String "_" r2)%string ->
  s1 = s2 /\ r1 = r2.
Proof.
  revert s2. induction s1 as [|c s1 IH]; intros [|c2 s2]; simpl; intros H1 H2 E.
  - injection E as E. auto.
  - injection E as E1 E. subst c2. simpl in H2. discriminate.
  - injection E as E1 E. subst c. simpl in H1. discriminate.
  - injection E as E1 E. subst c2.
    apply orb_false_iff in H1. apply orb_false_iff in H2.
    destruct (IH s2) as [-> ->]; tauto.
Qed.

(** The id of the per-user path is never an id of the broadcast path,
    whatever the events, the user and the offsets. *)
Lemma user_job_id_not_event_job_id (e u : Z) (d : Time.timedelta)
    (e' : Z) (d' : Time.timedelta) :
  Bot.user_job_id e u d <> Bot.event_job_id e' d'.
Proof.
  unfold Bot.user_job_id, Bot.event_job_id. intros H.
  apply (string_app_inv_head "event_") in H.
  change ("_user_" ++ Time.str_int u ++ "_notification_" ++ Time.str_timedelta d)%string
    with (String "_" ("user_" ++ Time.str_int u ++ "_notification_"
                      ++ Time.str_timedelta d)%string) in H.
  change ("_notification_" ++ Time.str_timedelta d')%string
    with (String "_" ("notification_" ++ Time.str_timedelta d')%string) in H.
  apply split_at_underscore in H; try apply str_int_no_underscore.
  destruct H as [_ H]. simpl in H. discriminate.
Qed.

(** The broadcast ids of one event differ from one entry of the table
    to the next. *)
Lemma event_job_ids_NoDup (e : Z) :
  NoDup (map (fun p => Bot.event_job_id e (fst p)) Bot.notification_times).
Proof.
  assert (D : NoDup (map (fun p => Time.str_timedelta (fst p)) Bot.notification_times)).
  { vm_compute. repeat constructor; simpl; intuition discriminate. }
  revert D. generalize Bot.notification_times as l.
  induction l as [|p l IH]; simpl; intros D; [constructor|].
  inversion D as [|? ? Hp D']; subst. constructor; [|auto].
  intros H. apply Hp. apply in_map_iff in H. destruct H as [q [Hq Hin]].
  unfold Bot.event_job_id in Hq.
  apply string_app_inv_head in Hq. apply string_app_inv_head in Hq.
  apply string_app_inv_head in Hq.
  rewrite <- Hq. apply (in_map (fun p => Time.str_timedelta (fst p))), Hin.
Qed.

Lemma NoDup_map_filter {A B} (f : A -> B) (g : A -> bool) (l : list A) :
  NoDup (map f l) -> NoDup (map f (filter g l)).
Proof.
  induction l as [|a l IH]; simpl; intros D; [constructor|].
  inversion D as [|? ? Ha D']; subst.
  destruct (g a); simpl; [constructor|]; auto.
  intros H. apply Ha. apply in_map_iff in H. destruct H as [x [Hx Hin]].
  apply filter_In in Hin. rewrite <- Hx. apply in_map, Hin.
Qed.

Lemma event_jobs_ids (e : Z) T title description photo l :
  map job_id (map (Bot.event_job e T title description photo) l)
  = map (fun p => Bot.event_job_id e (fst p)) l.
Proof. rewrite map_map. reflexivity. Qed.

Lemma future_jobs_NoDup (e : Z) T now title description photo :
  NoDup (map job_id (map (Bot.event_job e T title description photo)
                         (Bot.future_offsets T now))).
Proof.
  rewrite event_jobs_ids. unfold Bot.future_offsets.
  apply NoDup_map_filter, event_job_ids_NoDup.
Qed.

End JobIds.

(** ** The reminders of one event *)

Section Reminders.

Lemma NoDup_map_eq {A B} (f : A -> B) (l : list A) (x y : A) :
  NoDup (map f l) -> In x l -> In y l -> f x = f y -> x = y.
Proof.
  induction l as [|a l IH]; simpl; intros D Hx Hy E; [contradiction|].
  inversion D as [|? ? Ha D']; subst.
  destruct Hx as [->|Hx], Hy as [->|Hy]; auto.
  - exfalso. apply Ha. rewrite E. now apply in_map.
  - exfalso. apply Ha. rewrite <- E. now apply in_map.
Qed.

Lemma gtb_lt a b : Time.gtb a b = true <-> Time.instant b < Time.instant a.
Proof. unfold Time.gtb. apply Z.ltb_lt. Qed.

Variable env : Env.
Variables (event : Z) (dt : Time.datetime) (title description photo : string).

Let T := Bot.ensure_aware (TIMEZONE env) dt.
Let now := Time.now_in (TIMEZONE env) (clock_utc env).

(** An entry that passes the test has its job pending afterwards. *)
Lemma future_offset_pending w delta text :
  In (delta, text) Bot.notification_times ->
  Time.gtb (Time.sub T delta) now = true ->
  lookup_job (Bot.event_job_id event delta)
    (scheduler (snd (Bot.schedule_event_notifications env event dt title
                       description photo w)))
  = Some (mk_job (Bot.event_job_id event delta) (Time.sub T delta)
                 (mk_args event title description photo text)).
Proof.
  intros Hin G. rewrite schedule_event_notifications_run. simpl.
  apply (lookup_put_jobs_in
           (Bot.event_job event T title description photo (delta, text))).
  - apply future_jobs_NoDup.
  - apply in_map. apply filter_In. split; [exact Hin | exact G].
Qed.

(** An entry that fails the test leaves its id alone. *)
Lemma skipped_offset_not_new delta text :
  In (delta, text) Bot.notification_times ->
  Time.gtb (Time.sub T delta) now = false ->
  ~ In (Bot.event_job_id event delta)
       (map job_id (map (Bot.event_job event T title description photo)
                        (Bot.future_offsets T now))).
Proof.
  intros Hin G H. rewrite event_jobs_ids in H.
  apply in_map_iff in H. destruct H as [q [Hq Hf]].
  apply filter_In in Hf. destruct Hf as [Hqin Hg].
  assert (q = (delta, text)) as ->.
  { apply (NoDup_map_eq (fun p => Bot.event_job_id event (fst p))
                        Bot.notification_times);
      auto using event_job_ids_NoDup. }
  simpl in Hg. fold T now in Hg. congruence.
Qed.

End Reminders.

(** C3.  One run of [schedule_event_notifications] at the instant [now]:
    the call returns; it makes one [add_job] call (one line of the log)
    for each entry of the table whose due time is after [now], in the
    order of the table; afterwards an offset whose due time is strictly
    after [now] has exactly one pending job under its id, with that due
    time; an offset whose due time is strictly before [now] is not
    enqueued: what the job store holds under its id is what it held
    before the run. *)
Theorem C3_future_enqueued_once_past_skipped
    (env : Env) (event : Z) (dt : Time.datetime)
    (title description photo : string) (w : World)
    (delta : Time.timedelta) (text : string) :
  unique_ids (scheduler w) ->
  In (delta, text) Bot.notification_times ->
  let T := Bot.ensure_aware (TIMEZONE env) dt in
  let now := Time.now_in (TIMEZONE env) (clock_utc env) in
  let due := Time.sub T delta in
  let id := Bot.event_job_id event delta in
  let r := Bot.schedule_event_notifications env event dt title description photo w in
  fst r = Ok tt /\
  log (snd r) =
    (log w ++ map (fun p => (INFO, Scheduled_notification_for_event event
                                     (Time.sub T (fst p))))
                  (filter (fun p => Time.instant now <? Time.instant (Time.sub T (fst p)))
                          Bot.notification_times))%list /\
  unique_ids (scheduler (snd r)) /\
  (Time.instant now < Time.instant due ->
     count_id id (scheduler (snd r)) = 1%nat /\
     lookup_job id (scheduler (snd r))
     = Some (mk_job id due (mk_args event title description photo text))) /\
  (Time.instant due < Time.instant now ->
     count_id id (scheduler (snd r)) = count_id id (scheduler w) /\
     lookup_job id (scheduler (snd r)) = lookup_job id (scheduler w)).
Proof.
  intros U Hin T now due id r.
  assert (R := schedule_event_notifications_run env event title description photo dt w).
  fold r in R. simpl in R. fold T now in R.
  split; [now rewrite R|]. split; [now rewrite R|].
  split; [rewrite R; simpl; now apply unique_put_jobs|].
  split.
  - intros L. apply gtb_lt in L. split.
    + rewrite R. simpl.
      apply (count_put_jobs_in
               (Bot.event_job event T title description photo (delta, text))).
      * exact U.
      * apply future_jobs_NoDup.
      * apply in_map, filter_In. split; [exact Hin | exact L].
    + now apply future_offset_pending.
  - intros L.
    assert (G : Time.gtb due now = false).
    { unfold Time.gtb. apply Z.ltb_ge. lia. }
    pose proof (skipped_offset_not_new env event dt title description photo
                  delta text Hin G) as N.
    rewrite R. simpl. split.
    + now apply count_put_jobs_other.
    + now apply lookup_put_jobs_other.
Qed.

(** At 09:50 in Almaty on the day of an event that starts at 10:00, the
    "15 minutes after" job is the only pending job under its id and the
    "15 minutes before" job is not there. *)
Lemma C3_witness :
  let r := Bot.schedule_event_notifications
             (env_at t_2024_06_01_04_50 0) 1 (Time.Naive t_2024_06_01_10_00)
             "Meetup" "Monthly meetup" "photo-1" (world_of store_with_event) in
  count_id (Bot.event_job_id 1 (Time.minutes (-15))) (scheduler (snd r)) = 1%nat /\
  count_id (Bot.event_job_id 1 (Time.minutes 15)) (scheduler (snd r)) = 0%nat.
Proof.
  split.
  - refine (proj1 (proj1 (proj2 (proj2 (proj2
      (C3_future_enqueued_once_past_skipped
         (env_at t_2024_06_01_04_50 0) 1 (Time.Naive t_2024_06_01_10_00)
         "Meetup" "Monthly meetup" "photo-1" (world_of store_with_event)
         (Time.minutes (-15)) "Event started 15 minutes ago" _ _)))) _)).
    + constructor.
    + simpl. tauto.
    + vm_compute. reflexivity.
  - refine (proj1 (proj2 (proj2 (proj2 (proj2
      (C3_future_enqueued_once_past_skipped
         (env_at t_2024_06_01_04_50 0) 1 (Time.Naive t_2024_06_01_10_00)
         "Meetup" "Monthly meetup" "photo-1" (world_of store_with_event)
         (Time.minutes 15) "Event starts in 15 minutes" _ _)))) _)).
    + constructor.
    + simpl. tauto.
    + vm_compute. reflexivity.
Defined.

(** C4.  Two [add_job] calls under the same id, as both scheduling paths
    make them ([replace_existing=True]): both return, and the job store
    then holds exactly one job under the id, the one of the second call
    with its due time and its arguments; the jobs under other ids are
    those it held before. *)
Theorem C4_same_id_replaces
    (id : string) (run_date1 run_date2 : Time.aware) (args1 args2 : JobArgs)
    (w : World) :
  unique_ids (scheduler w) ->
  let r1 := Bot.add_job id run_date1 args1 w in
  let r2 := Bot.add_job id run_date2 args2 (snd r1) in
  fst r1 = Ok tt /\ fst r2 = Ok tt /\
  count_id id (scheduler (snd r2)) = 1%nat /\
  lookup_job id (scheduler (snd r2)) = Some (mk_job id run_date2 args2) /\
  unique_ids (scheduler (snd r2)) /\
  (forall id', id' <> id ->
     count_id id' (scheduler (snd r2)) = count_id id' (scheduler w) /\
     lookup_job id' (scheduler (snd r2)) = lookup_job id' (scheduler w)).
Proof.
  intros U r1 r2. subst r1 r2. rewrite !add_job_run. simpl.
  set (j1 := mk_job id run_date1 args1). set (j2 := mk_job id run_date2 args2).
  repeat split.
  - apply (count_put_same j2). now apply unique_put.
  - apply (lookup_put_same j2).
  - now apply unique_put, unique_put.
  - rewrite (count_put_other id' j2), (count_put_other id' j1); auto.
  - rewrite (lookup_put_other id' j2), (lookup_put_other id' j1); auto.
Qed.

(** The reminder of one day before, scheduled at creation and again with
    another due time: one job stays, with the later due time. *)
Lemma C4_witness :
  let id := Bot.event_job_id 1 (Time.days 1) in
  let a := mk_args 1 "Meetup" "Monthly meetup" "photo-1" "Event starts in 1 day" in
  let rd1 := Time.mk_aware (t_2024_06_01_10_00 - Time.days 1) (Time.hours 5) in
  let rd2 := Time.mk_aware (t_2024_06_01_05_00 - Time.days 1) (Time.hours 5) in
  let w1 := snd (Bot.add_job id rd1 a (world_of store_with_event)) in
  let w2 := snd (Bot.add_job id rd2 a w1) in
  count_id id (scheduler w2) = 1%nat /\
  lookup_job id (scheduler w2) = Some (mk_job id rd2 a).
Proof.
  intros id a rd1 rd2 w1 w2.
  pose proof (C4_same_id_replaces id rd1 rd2 a a (world_of store_with_event)
                (NoDup_nil string)) as H.
  exact (conj (proj1 (proj2 (proj2 H))) (proj1 (proj2 (proj2 (proj2 H))))).
Defined.

(** C7.  The due time of a reminder is the event's datetime minus the
    offset of its entry: the job that [schedule_event_notifications]
    leaves pending for an entry that is still ahead runs at that time, in
    the zone of the event's datetime; over the table the due times are
    the event's instant minus one day, six hours, one hour and fifteen
    minutes, and plus fifteen minutes for the entry with the negative
    offset. *)
Theorem C7_due_time_is_datetime_minus_offset
    (env : Env) (event : Z) (dt : Time.datetime)
    (title description photo : string) (w : World)
    (delta : Time.timedelta) (text : string) :
  In (delta, text) Bot.notification_times ->
  let T := Bot.ensure_aware (TIMEZONE env) dt in
  let now := Time.now_in (TIMEZONE env) (clock_utc env) in
  Time.gtb (Time.sub T delta) now = true ->
  let r := Bot.schedule_event_notifications env event dt title description photo w in
  (exists j,
     lookup_job (Bot.event_job_id event delta) (scheduler (snd r)) = Some j /\
     Time.wall (run_date j) = Time.wall T - delta /\
     Time.utcoffset (run_date j) = Time.utcoffset T /\
     Time.instant (run_date j) = Time.instant T - delta) /\
  map (fun p => Time.instant (Time.sub T (fst p))) Bot.notification_times
  = [ Time.instant T - Time.days 1;
      Time.instant T - Time.hours 6;
      Time.instant T - Time.hours 1;
      Time.instant T - Time.minutes 15;
      Time.instant T + Time.minutes 15 ].
Proof.
  intros Hin T now G r. split.
  - eexists. split.
    + apply future_offset_pending; [exact Hin | exact G].
    + simpl. unfold Time.instant. simpl. fold T. repeat split; lia.
  - unfold Bot.notification_times, Time.instant, Time.sub,
      Time.days, Time.hours, Time.minutes, Time.second.
    cbn [map fst Time.wall Time.utcoffset].
    repeat (apply f_equal2; [lia|]). reflexivity.
Qed.

(** A day and an hour before the event, the "event started" job is due
    at 10:15 in Almaty. *)
Lemma C7_witness :
  exists j,
    lookup_job (Bot.event_job_id 1 (Time.minutes (-15)))
      (scheduler (snd (Bot.schedule_event_notifications
                         (env_at t_2024_05_31_04_00 0) 1
                         (Time.Naive t_2024_06_01_10_00)
                         "Meetup" "Monthly meetup" "photo-1"
                         (world_of store_with_event)))) = Some j /\
    Time.wall (run_date j) = t_2024_06_01_10_00 + Time.minutes 15.
Proof.
  destruct (C7_due_time_is_datetime_minus_offset
              (env_at t_2024_05_31_04_00 0) 1 (Time.Naive t_2024_06_01_10_00)
              "Meetup" "Monthly meetup" "photo-1" (world_of store_with_event)
              (Time.minutes (-15)) "Event started 15 minutes ago")
    as [[j [L [W _]]] _].
  - simpl. tauto.
  - vm_compute. reflexivity.
  - exists j. split; [exact L | exact W].
Defined.


(** Both paths on one store: the broadcast path schedules its five jobs
    when the event is created, the per-user path adds its own for the
    reminders still ahead when user 2 registers, and none of the first
    five is replaced. *)
Example both_paths_keep_their_jobs :
  let env := env_at t_2024_05_31_04_00 0 in
  let D := Time.mk_aware t_2024_06_01_10_00 (Time.hours 5) in
  let w1 := snd (Bot.schedule_event_notifications env 1 (Time.Aware D)
                   "Meetup" "Monthly meetup" "photo-1"
                   (world_of store_with_event)) in
  let w2 := snd (Bot.schedule_notifications_for_new_user env 2 w1) in
  map job_id (scheduler w2)
  = [ "event_1_notification_1 day, 0:00:00";
      "event_1_notification_6:00:00";
      "event_1_notification_1:00:00";
      "event_1_notification_0:15:00";
      "event_1_notification_-1 day, 23:45:00";
      "event_1_user_2_notification_6:00:00";
      "event_1_user_2_notification_1:00:00";
      "event_1_user_2_notification_0:15:00";
      "event_1_user_2_notification_-1 day, 23:45:00" ] /\
  firstn 5 (scheduler w2) = scheduler w1.
Proof.
  vm_compute. split; reflexivity.
Qed.

(** ** Computations that leave the store alone *)

Section Frame.

Lemma keeps_ret {A} (a : A) : keeps_store (ret a).
Proof. intros w. reflexivity. Qed.

Lemma keeps_raise {A} e : keeps_store (@raise A e).
Proof. intros w. reflexivity. Qed.

Lemma keeps_logging lvl msg : keeps_store (logging lvl msg).
Proof. intros w. reflexivity. Qed.

Lemma keeps_storage_call oracle : keeps_store (storage_call oracle).
Proof.
  intros w. unfold storage_call. destruct (oracle (storage_calls w)); reflexivity.
Qed.

Lemma keeps_transport_call oracle : keeps_store (transport_call oracle).
Proof.
  intros w. unfold transport_call.
  destruct (oracle (transport_calls w)); reflexivity.
Qed.

Lemma keeps_bind {A B} (m : M A) (f : A -> M B) :
  keeps_store m -> (forall a, keeps_store (f a)) -> keeps_store (bind m f).
Proof.
  intros Hm Hf w. unfold bind. specialize (Hm w).
  destruct (m w) as [[a|e] w']; simpl in *.
  - now rewrite Hf.
  - exact Hm.
Qed.

Lemma keeps_try_except {A} (m : M A) (h : Exception -> M A) :
  keeps_store m -> (forall e, keeps_store (h e)) -> keeps_store (try_except m h).
Proof.
  intros Hm Hh w. unfold try_except. specialize (Hm w).
  destruct (m w) as [[a|e] w']; simpl in *.
  - exact Hm.
  - now rewrite Hh.
Qed.

Lemma keeps_for_each {A} (xs : list A) (body : A -> M unit) :
  (forall x, keeps_store (body x)) -> keeps_store (for_each xs body).
Proof.
  intros Hb. induction xs as [|x xs IH]; simpl.
  - apply keeps_ret.
  - apply keeps_bind; auto.
Qed.

Variable env : Env.

Lemma keeps_send_photo chat photo caption :
  keeps_store (Bot.send_photo env chat photo caption).
Proof.
  apply keeps_bind; [apply keeps_transport_call | intros _ w; reflexivity].
Qed.

(** A statement that only reads. *)
Lemma keeps_conn_run_query {A} (q : Store -> A) :
  keeps_store (Database.conn_run env (fun s => Ok (q s, s))).
Proof.
  apply keeps_bind; [apply keeps_storage_call | intros _ w; simpl; now destruct w].
Qed.

Lemma keeps_get_all_users : keeps_store (Database.get_all_users env).
Proof.
  apply keeps_bind; [apply keeps_storage_call | intros _].
  apply (keeps_conn_run_query (fun s => map user_id (users s))).
Qed.

Lemma keeps_send_event_creation_notification event title description photo dt :
  keeps_store (Bot.send_event_creation_notification env event title
                 description photo dt).
Proof.
  apply keeps_bind; [apply keeps_get_all_users | intros us].
  apply keeps_for_each. intros u.
  apply keeps_try_except; [| intros e; apply keeps_logging].
  apply keeps_bind; [apply keeps_send_photo | intros _; apply keeps_logging].
Qed.

End Frame.

(** C9.  The announcement broadcast after an event was created writes no
    NotificationRecord: whatever the transport and the storage driver do,
    and whether the call returns or raises, the store after
    [send_event_creation_notification] is the store before it; so the
    ledger is the same, no user has an initial notification recorded
    that they did not have before, and the query of
    [get_events_for_new_user] selects for every user the rows it selected
    before. *)
Theorem C9_creation_broadcast_leaves_ledger
    (env : Env) (event : Z) (title description photo : string)
    (dt : Time.datetime) (w : World) :
  let w' := snd (Bot.send_event_creation_notification env event title
                   description photo dt w) in
  store w' = store w /\
  notifications (store w') = notifications (store w) /\
  (forall e user,
     Database.initial_notification_exists (store w') e user
     = Database.initial_notification_exists (store w) e user) /\
  (forall current_time user,
     Database.select_events_for_new_user current_time user (store w')
     = Database.select_events_for_new_user current_time user (store w)).
Proof.
  intros w'.
  assert (E : store w' = store w)
    by apply keeps_send_event_creation_notification.
  rewrite E. repeat split; reflexivity.
Qed.

(** The event is created, the announcement reaches the four users, and
    user 2 registering afterwards is still handed the event as one they
    have not seen. *)
Example announced_event_is_still_unseen :
  let env := env_at t_2024_05_31_04_00 0 in
  let D := Time.Aware (Time.mk_aware t_2024_06_01_10_00 (Time.hours 5)) in
  let r1 := Database.create_event env "Meetup" "Monthly meetup" "photo-1" D 100
              (world_of store_with_users) in
  let r2 := Bot.send_event_creation_notification env 1 "Meetup"
              "Monthly meetup" "photo-1" D (snd r1) in
  let r3 := Database.get_events_for_new_user env 2 (snd r2) in
  fst r1 = Ok 1 /\
  map (fun o => match o with SendPhoto c _ _ | SendMessage c _ => c end)
      (outbox (snd r2)) = [100; 1; 2; 3] /\
  notifications (store (snd r2)) = [] /\
  fst r3 = Ok [ mk_event 1 "Meetup" "Monthly meetup" "photo-1"
                         t_2024_06_01_05_00 t_2024_05_31_04_00 100 ].
Proof.
  vm_compute. repeat split; reflexivity.
Qed.

(** ** The queries of the event store *)

Section Queries.

Lemma insert_by_datetime_perm e l :
  Permutation (Database.insert_by_datetime e l) (e :: l).
Proof.
  induction l as [|x l IH]; simpl; [reflexivity|].
  destruct (event_datetime e <=? event_datetime x); [reflexivity|].
  rewrite IH. apply perm_swap.
Qed.

Lemma order_by_perm l : Permutation (Database.order_by_event_datetime l) l.
Proof.
  unfold Database.order_by_event_datetime.
  induction l as [|x l IH]; simpl; [constructor|].
  rewrite insert_by_datetime_perm. now constructor.
Qed.

Lemma insert_by_datetime_sorted e l :
  Sorted Database.by_datetime l ->
  Sorted Database.by_datetime (Database.insert_by_datetime e l).
Proof.
  unfold Database.by_datetime.
  induction l as [|x l IH]; simpl; intros S.
  - repeat constructor.
  - destruct (event_datetime e <=? event_datetime x) eqn:C.
    + apply Z.leb_le in C. constructor; [exact S | now constructor].
    + apply Z.leb_gt in C. inversion S as [|? ? S' Hd]; subst.
      constructor; [auto|].
      destruct l as [|y l]; simpl.
      * constructor. lia.
      * destruct (event_datetime e <=? event_datetime y); constructor.
        -- lia.
        -- now inversion Hd.
Qed.

Lemma order_by_sorted l :
  Sorted Database.by_datetime (Database.order_by_event_datetime l).
Proof.
  unfold Database.order_by_event_datetime.
  induction l as [|x l IH]; simpl; [constructor|].
  now apply insert_by_datetime_sorted.
Qed.

Lemma In_order_by e l : In e (Database.order_by_event_datetime l) <-> In e l.
Proof.
  split; apply Permutation_in; [| symmetry]; apply order_by_perm.
Qed.

(** The NOT EXISTS test, in terms of the ledger. *)
Lemma initial_notification_exists_In s e user :
  Database.initial_notification_exists s e user = true <->
  In (mk_notification (event_id e) user "initial_notification") (notifications s).
Proof.
  unfold Database.initial_notification_exists. rewrite existsb_exists. split.
  - intros [[ne nu nt] [Hin H]]. simpl in H.
    apply andb_true_iff in H. destruct H as [H Ht].
    apply andb_true_iff in H. destruct H as [He Hu].
    apply Z.eqb_eq in He, Hu. apply String.eqb_eq in Ht. now subst.
  - intros Hin. eexists. split; [exact Hin|]. simpl.
    now rewrite !Z.eqb_refl.
Qed.

Lemma select_events_for_new_user_In current_time user s e :
  In e (Database.select_events_for_new_user current_time user s) <->
  In e (events s) /\ current_time < event_datetime e /\
  ~ In (mk_notification (event_id e) user "initial_notification") (notifications s).
Proof.
  unfold Database.select_events_for_new_user.
  rewrite In_order_by, nodup_In, filter_In, andb_true_iff, Z.ltb_lt,
    negb_true_iff, <- initial_notification_exists_In.
  destruct (Database.initial_notification_exists s e user); intuition congruence.
Qed.

Lemma select_upcoming_all_In utc_now s e :
  In e (Database.select_upcoming utc_now None s) <->
  In e (events s) /\ utc_now < event_datetime e.
Proof.
  unfold Database.select_upcoming.
  now rewrite In_order_by, filter_In, Z.ltb_lt.
Qed.

Lemma for_each_logging {A} (rows : list A) (f : A -> LogMsg) w :
  for_each rows (fun row => logging INFO (f row)) w
  = (Ok tt, mk_world (store w) (scheduler w) (outbox w)
              (log w ++ map (fun row => (INFO, f row)) rows)
              (transport_calls w) (storage_calls w)).
Proof.
  revert w. induction rows as [|x rows IH]; intros w; simpl.
  - unfold ret. rewrite app_nil_r. now destruct w.
  - unfold bind, logging at 1. rewrite IH. simpl. now rewrite <- app_assoc.
Qed.

Variable env : Env.

(** With the storage driver up, [get_events_for_new_user] returns the
    rows of its query at the wall clock of the process, and writes
    nothing. *)
Lemma get_events_for_new_user_run user w :
  storage env (storage_calls w) = None -> storage env (S (storage_calls w)) = None ->
  let r := Database.get_events_for_new_user env user w in
  fst r = Ok (Database.select_events_for_new_user
                (clock_utc env + system_utcoffset env) user (store w)) /\
  store (snd r) = store w.
Proof.
  intros H1 H2 r. subst r.
  unfold Database.get_events_for_new_user, Database.pool_acquire,
    Database.conn_run, bind, storage_call, logging.
  rewrite H1. cbn [storage_calls]. rewrite H2.
  pose proof (@for_each_logging Event) as L. unfold logging in L.
  rewrite L. split; reflexivity.
Qed.

(** With the storage driver up, [get_upcoming_events] returns the rows
    of its query at the UTC clock, each with its stored datetime
    localized. *)
Lemma get_upcoming_events_run hours_ahead w :
  storage env (storage_calls w) = None -> storage env (S (storage_calls w)) = None ->
  let r := Database.get_upcoming_events env hours_ahead w in
  fst r = Ok (map (Database.localized_dict (TIMEZONE env))
                  (Database.select_upcoming (clock_utc env) hours_ahead (store w))) /\
  store (snd r) = store w.
Proof.
  intros H1 H2 r. subst r.
  unfold Database.get_upcoming_events, Database.pool_acquire,
    Database.conn_run, bind, storage_call.
  rewrite H1. cbn [storage_calls]. rewrite H2.
  cbn [Time.replace_tzinfo_None Time.now_in Time.wall Time.UTC
       Time.utcoffset_at_utc].
  replace (clock_utc env + 0) with (clock_utc env) by lia.
  split; reflexivity.
Qed.

End Queries.




(** With the process eight hours behind UTC the wall clock reads 02:00
    when the UTC clock reads 10:00: the event of 05:00 UTC started five
    hours ago, and the query still returns it. *)
Example passed_event_is_returned_behind_utc :
  let e := mk_event 1 "Meetup" "Monthly meetup" "photo-1" t_2024_06_01_05_00
                    t_2024_05_31_04_00 100 in
  event_datetime e < t_2024_06_01_10_00 /\
  fst (Database.get_events_for_new_user
         (env_at t_2024_06_01_10_00 (Time.hours (-8))) 2
         (world_of store_with_event))
  = Ok [e].
Proof. split; vm_compute; reflexivity. Qed.

(** C10.  The two queries read two clocks.  With the storage driver up,
    [get_upcoming_events] returns the events stored with a datetime after
    the UTC clock, [get_events_for_new_user] those after the wall clock
    of the process (and without record for the user).  So an event
    without record whose datetime is after UTC-now and not after
    local-now is upcoming for the first and missing from the second, and
    one after local-now and not after UTC-now is the other way round. *)
Theorem C10_upcoming_and_unseen_read_different_clocks
    (env : Env) (user : Z) (w : World) (e : Event) :
  storage env (storage_calls w) = None -> storage env (S (storage_calls w)) = None ->
  In e (events (store w)) ->
  ~ In (mk_notification (event_id e) user "initial_notification")
       (notifications (store w)) ->
  let utc_now := clock_utc env in
  let local_now := clock_utc env + system_utcoffset env in
  exists upcoming unseen,
    fst (Database.get_upcoming_events env None w)
    = Ok (map (Database.localized_dict (TIMEZONE env)) upcoming) /\
    fst (Database.get_events_for_new_user env user w) = Ok unseen /\
    (forall x, In x upcoming <->
               In x (events (store w)) /\ utc_now < event_datetime x) /\
    (forall x, In x unseen <->
               In x (events (store w)) /\ local_now < event_datetime x /\
               ~ In (mk_notification (event_id x) user "initial_notification")
                    (notifications (store w))) /\
    (utc_now < event_datetime e <= local_now ->
       In e upcoming /\ ~ In e unseen) /\
    (local_now < event_datetime e <= utc_now ->
       ~ In e upcoming /\ In e unseen).
Proof.
  intros H1 H2 Hin Hn utc_now local_now.
  destruct (get_upcoming_events_run env None w H1 H2) as [RU _].
  destruct (get_events_for_new_user_run env user w H1 H2) as [RN _].
  cbv zeta in RU, RN. fold utc_now in RU. fold local_now in RN.
  do 2 eexists. split; [exact RU|]. split; [exact RN|].
  split; [intros x; apply select_upcoming_all_In|].
  split; [intros x; apply select_events_for_new_user_In|].
  rewrite select_upcoming_all_In, select_events_for_new_user_In.
  split; intros [A B]; split; try tauto; intros C; destruct C; lia.
Qed.

(** A process whose zone is five hours ahead of UTC, ten minutes before
    the event by the UTC clock: the event is upcoming and not unseen.
    A process whose zone is five hours behind, at the start of the
    event: the event is unseen and not upcoming. *)
Lemma C10_witness :
  let e := mk_event 1 "Meetup" "Monthly meetup" "photo-1" t_2024_06_01_05_00
                    t_2024_05_31_04_00 100 in
  let w := world_of store_with_event in
  (let env := env_at t_2024_06_01_04_50 (Time.hours 5) in
   exists upcoming unseen,
     fst (Database.get_upcoming_events env None w)
     = Ok (map (Database.localized_dict Asia_Almaty) upcoming) /\
     fst (Database.get_events_for_new_user env 2 w) = Ok unseen /\
     In e upcoming /\ ~ In e unseen) /\
  (let env := env_at t_2024_06_01_05_00 (Time.hours (-5)) in
   exists upcoming unseen,
     fst (Database.get_upcoming_events env None w)
     = Ok (map (Database.localized_dict Asia_Almaty) upcoming) /\
     fst (Database.get_events_for_new_user env 2 w) = Ok unseen /\
     ~ In e upcoming /\ In e unseen).
Proof.
  intros e w. split; intros env.
  - destruct (C10_upcoming_and_unseen_read_different_clocks env 2 w e)
      as [upcoming [unseen [RU [RN [_ [_ [D _]]]]]]].
    + reflexivity.
    + reflexivity.
    + simpl. tauto.
    + simpl. intros [].
    + exists upcoming, unseen. split; [exact RU|]. split; [exact RN|].
      apply D. vm_compute. split; [reflexivity | discriminate].
  - destruct (C10_upcoming_and_unseen_read_different_clocks env 2 w e)
      as [upcoming [unseen [RU [RN [_ [_ [_ D]]]]]]].
    + reflexivity.
    + reflexivity.
    + simpl. tauto.
    + simpl. intros [].
    + exists upcoming, unseen. split; [exact RU|]. split; [exact RN|].
      apply D. vm_compute. split; [reflexivity | discriminate].
Defined.

(** ** The ledger *)

Section Ledger.

Lemma Notification_eqb_eq a b : Notification_eqb a b = true <-> a = b.
Proof.
  unfold Notification_eqb. destruct a as [ae au at_], b as [be bu bt]. simpl.
  rewrite !andb_true_iff, !Z.eqb_eq, String.eqb_eq. split.
  - intros [[-> ->] ->]. reflexivity.
  - intros H. inversion H. auto.
Qed.

Lemma has_notification_In s row :
  has_notification s row = true <-> In row (notifications s).
Proof.
  unfold has_notification. rewrite existsb_exists. split.
  - intros [x [Hin E]]. apply Notification_eqb_eq in E. now subst.
  - intros Hin. exists row. split; [exact Hin | now apply Notification_eqb_eq].
Qed.


(** A value of at most [n] characters is stored as it is. *)
Lemma varchar_fits_chars n s : (char_length s <= n)%nat -> varchar n s = Some s.
Proof. intros H. unfold varchar. apply Nat.leb_le in H. now rewrite H. Qed.



Lemma char_length_split_chars s : forall n,
  (char_length (fst (split_chars n s)) <= n)%nat.
Proof.
  induction s as [|c s IH]; intros n; simpl; [lia|].
  destruct (is_continuation c) eqn:C.
  - specialize (IH n). destruct (split_chars n s) as [kept excess].
    simpl in *. now rewrite C.
  - destruct n as [|n]; simpl; [lia|].
    specialize (IH n). destruct (split_chars n s) as [kept excess].
    simpl in *. rewrite C. lia.
Qed.

(** What [varchar] lets through fits the column. *)
Lemma varchar_length n s t : varchar n s = Some t -> (char_length t <= n)%nat.
Proof.
  unfold varchar. destruct (char_length s <=? n)%nat eqn:L.
  - intros H. inversion H; subst. now apply Nat.leb_le.
  - pose proof (char_length_split_chars s n) as K.
    destruct (split_chars n s) as [kept excess].
    destruct (all_spaces excess); [|discriminate].
    intros H. inversion H; subst. exact K.
Qed.

(** Fitting a fitted value changes nothing. *)
Lemma varchar_idem n s t : varchar n s = Some t -> varchar n t = Some t.
Proof. intros H. apply varchar_fits_chars. eapply varchar_length; eauto. Qed.

(** The statement on a key that is there: no error, no change. *)
Lemma insert_notification_existing event user kind s :
  ledger_ok s ->
  In (mk_notification event user kind) (notifications s) ->
  Database.insert_notification event user kind s = Ok (tt, s).
Proof.
  intros Hok Hin. unfold Database.insert_notification.
  assert (L : (char_length kind <= 20)%nat).
  { unfold ledger_ok in Hok. rewrite Forall_forall in Hok.
    exact (Hok _ Hin). }
  rewrite (varchar_fits_chars 20 kind L).
  apply has_notification_In in Hin. now rewrite Hin.
Qed.

(** The statement keeps every row and the invariant of the column. *)
Lemma insert_notification_ok event user kind s s' :
  Database.insert_notification event user kind s = Ok (tt, s') ->
  (exists t, varchar 20 kind = Some t /\
             In (mk_notification event user t) (notifications s')) /\
  (forall row, In row (notifications s) -> In row (notifications s')) /\
  (ledger_ok s -> ledger_ok s').
Proof.
  unfold Database.insert_notification.
  destruct (varchar 20 kind) as [t|] eqn:V; [|discriminate].
  destruct (has_notification s (mk_notification event user t)) eqn:H.
  - intros E. inversion E; subst s'. apply has_notification_In in H. eauto.
  - destruct (has_event s event && has_user s user); [|discriminate].
    intros E. inversion E; subst s'. simpl. split; [|split].
    + exists t. split; [reflexivity|]. apply in_or_app. simpl. auto.
    + intros row Hrow. apply in_or_app. auto.
    + unfold ledger_ok. simpl. intros Hok. apply Forall_app. split; [exact Hok|].
      constructor; [|constructor]. simpl. eapply varchar_length; eauto.
Qed.

(** The statement a second time does nothing. *)
Lemma insert_notification_twice event user kind s s' :
  Database.insert_notification event user kind s = Ok (tt, s') ->
  Database.insert_notification event user kind s' = Ok (tt, s').
Proof.
  intros E. destruct (insert_notification_ok _ _ _ _ _ E) as [[t [V Hin]] _].
  unfold Database.insert_notification. rewrite V.
  apply has_notification_In in Hin. now rewrite Hin.
Qed.

Variable env : Env.

Lemma record_notification_acquire_fault event user kind w f :
  storage env (storage_calls w) = Some f ->
  Database.record_notification env event user kind w
  = (Raise f, mk_world (store w) (scheduler w) (outbox w) (log w)
              (transport_calls w) (S (storage_calls w))).
Proof.
  intros H. unfold Database.record_notification, Database.pool_acquire,
    bind, storage_call. now rewrite H.
Qed.

Lemma record_notification_execute_fault event user kind w f :
  storage env (storage_calls w) = None -> storage env (S (storage_calls w)) = Some f ->
  Database.record_notification env event user kind w
  = (Raise f, mk_world (store w) (scheduler w) (outbox w)
                (log w ++ [(ERROR, Error_recording_notification f)])
                (transport_calls w) (S (S (storage_calls w)))).
Proof.
  intros H1 H2. unfold Database.record_notification, Database.pool_acquire,
    Database.conn_run, try_except, bind, storage_call.
  rewrite H1. cbn [storage_calls]. now rewrite H2.
Qed.

Lemma record_notification_statement event user kind w :
  storage env (storage_calls w) = None -> storage env (S (storage_calls w)) = None ->
  Database.record_notification env event user kind w
  = match Database.insert_notification event user kind (store w) with
    | Ok (_, s') =>
        (Ok tt, mk_world s' (scheduler w) (outbox w)
                  (log w ++ [(INFO, Recorded_notification event user kind)])
                  (transport_calls w) (S (S (storage_calls w))))
    | Raise f =>
        (Raise f, mk_world (store w) (scheduler w) (outbox w)
                    (log w ++ [(ERROR, Error_recording_notification f)])
                    (transport_calls w) (S (S (storage_calls w))))
    end.
Proof.
  intros H1 H2. unfold Database.record_notification, Database.pool_acquire,
    Database.conn_run, try_except, bind, storage_call.
  rewrite H1. cbn [storage_calls]. rewrite H2. cbn [store].
  destruct (Database.insert_notification event user kind (store w))
    as [[[] s']|f]; reflexivity.
Qed.

End Ledger.

(** C5.  [record_notification] on a key that the ledger already holds
    returns without error and leaves the store as it was (the log gets
    the usual "recorded" line, no error line).  A fault is raised to the
    caller, with the ledger unchanged: the one of the driver, on
    acquiring the connection or on executing the statement, and the one
    of the statement itself.  And a call that returned can be repeated:
    the second call returns and changes nothing. *)
Theorem C5_record_notification_idempotent
    (env : Env) (event user : Z) (kind : string) (w : World) :
  let r := Database.record_notification env event user kind w in
  (storage env (storage_calls w) = None -> storage env (S (storage_calls w)) = None ->
   ledger_ok (store w) ->
   In (mk_notification event user kind) (notifications (store w)) ->
   fst r = Ok tt /\ store (snd r) = store w /\
   log (snd r) = (log w ++ [(INFO, Recorded_notification event user kind)])%list) /\
  (forall f,
     storage env (storage_calls w) = Some f \/
     (storage env (storage_calls w) = None /\
      (storage env (S (storage_calls w)) = Some f \/
       (storage env (S (storage_calls w)) = None /\
        Database.insert_notification event user kind (store w) = Raise f))) ->
     fst r = Raise f /\ store (snd r) = store w) /\
  (storage env (storage_calls w) = None -> storage env (S (storage_calls w)) = None ->
   fst r = Ok tt ->
   storage env (storage_calls (snd r)) = None ->
   storage env (S (storage_calls (snd r))) = None ->
   let r2 := Database.record_notification env event user kind (snd r) in
   fst r2 = Ok tt /\ store (snd r2) = store (snd r)).
Proof.
  intros r. split; [|split].
  - intros H1 H2 Hok Hin. subst r.
    rewrite (record_notification_statement env _ _ _ _ H1 H2).
    rewrite (insert_notification_existing _ _ _ _ Hok Hin). simpl. auto.
  - intros f [H1 | [H1 [H2 | [H2 St]]]]; subst r.
    + rewrite (record_notification_acquire_fault env _ _ _ _ _ H1). auto.
    + rewrite (record_notification_execute_fault env _ _ _ _ _ H1 H2). auto.
    + rewrite (record_notification_statement env _ _ _ _ H1 H2), St. auto.
  - intros H1 H2 R H3 H4 r2. subst r r2.
    rewrite (record_notification_statement env _ _ _ _ H3 H4).
    rewrite (record_notification_statement env _ _ _ _ H1 H2) in *.
    destruct (Database.insert_notification event user kind (store w))
      as [[[] s']|f] eqn:St; [|discriminate].
    cbn [snd store]. rewrite (insert_notification_twice _ _ _ _ _ St). auto.
Qed.

(** The record of user 2 a second time: nothing changes.  With the
    connection lost, the fault reaches the caller.  The record of user 3
    twice in a row: the second call changes nothing. *)
Lemma C5_witness :
  (let r := Database.record_notification (env_at t_2024_06_01_04_50 0) 1 2
              "initial_notification" (world_of store_with_record) in
   fst r = Ok tt /\ store (snd r) = store_with_record) /\
  (let r := Database.record_notification (env_storage_down t_2024_06_01_04_50)
              1 3 "initial_notification" (world_of store_with_record) in
   fst r = Raise (Other "ConnectionDoesNotExistError") /\
   store (snd r) = store_with_record) /\
  (let r := Database.record_notification (env_at t_2024_06_01_04_50 0) 1 3
              "initial_notification" (world_of store_with_record) in
   let r2 := Database.record_notification (env_at t_2024_06_01_04_50 0) 1 3
               "initial_notification" (snd r) in
   fst r2 = Ok tt /\ store (snd r2) = store (snd r)).
Proof.
  split; [|split].
  - destruct (proj1 (C5_record_notification_idempotent
                       (env_at t_2024_06_01_04_50 0) 1 2 "initial_notification"
                       (world_of store_with_record)))
      as [R [S _]].
    + reflexivity.
    + reflexivity.
    + repeat constructor.
    + simpl. tauto.
    + split; [exact R | exact S].
  - apply (proj1 (proj2 (C5_record_notification_idempotent
                           (env_storage_down t_2024_06_01_04_50) 1 3
                           "initial_notification"
                           (world_of store_with_record)))).
    right. split; [reflexivity|]. left. reflexivity.
  - apply (proj2 (proj2 (C5_record_notification_idempotent
                           (env_at t_2024_06_01_04_50 0) 1 3
                           "initial_notification"
                           (world_of store_with_record)))); reflexivity.
Defined.

(** ** The datetime of an event, stored and read back *)

Section RoundTrip.

(** What [create_event] stores for an aware datetime is its UTC wall
    clock, which is its instant. *)
Lemma stored_datetime_is_instant a :
  Time.replace_tzinfo_None (Time.astimezone Time.UTC a) = Time.instant a.
Proof. unfold Time.replace_tzinfo_None, Time.astimezone. simpl. lia. Qed.

(** What [get_upcoming_events] hands out denotes the stored value read
    as a wall clock of the configured zone: the instant moves by the
    offset of the zone. *)
Lemma localized_dict_instant tz row :
  Time.instant (Database.d_event_datetime (Database.localized_dict tz row))
  = event_datetime row - Time.utcoffset_at_wall tz (event_datetime row).
Proof. reflexivity. Qed.

End RoundTrip.

(** C6, on the code.  An event is created for 2024-06-01 10:00 +05:00
    with the bot configured for Asia/Almaty.  The stored datetime is the
    UTC wall clock 05:00 of that instant, without zone.  What
    [get_upcoming_events] then returns is 05:00 +05:00: the stored UTC
    wall clock with the zone attached, which is the instant 00:00 UTC,
    five hours before the event. *)
Theorem C6_read_back_datetime_is_shifted :
  let env := env_at t_2024_05_31_04_00 0 in
  let D := Time.mk_aware t_2024_06_01_10_00 (Time.hours 5) in
  let r1 := Database.create_event env "Meetup" "Monthly meetup" "photo-1"
              (Time.Aware D) 100 (world_of store_with_users) in
  let r2 := Database.get_upcoming_events env None (snd r1) in
  fst r1 = Ok 1 /\
  map event_datetime (events (store (snd r1))) = [Time.instant D] /\
  Time.instant D = t_2024_06_01_05_00 /\
  exists d,
    fst r2 = Ok [d] /\
    Database.d_event_id d = 1 /\
    Database.d_event_datetime d = Time.mk_aware t_2024_06_01_05_00 (Time.hours 5) /\
    Time.instant (Database.d_event_datetime d) = Time.instant D - Time.hours 5 /\
    Time.instant (Database.d_event_datetime d) <> Time.instant D.
Proof.
  vm_compute. repeat split; try reflexivity.
  eexists. repeat split; try reflexivity. discriminate.
Qed.

(** ** The dispatcher *)

Section Dispatcher.

(** No label of the reminder table fits [notification_type VARCHAR(20)]. *)
Lemma reminder_labels_do_not_fit delta text :
  In (delta, text) Bot.notification_times -> varchar 20 text = None.
Proof.
  simpl. intros H.
  repeat (destruct H as [H|H]; [inversion H; subst; reflexivity|]).
  contradiction.
Qed.

Variable env : Env.

(** A statement that fails writes nothing. *)
Lemma keeps_conn_run_failing {A} (stmt : Store -> Result (A * Store)) :
  (forall s, exists e, stmt s = Raise e) -> keeps_store (Database.conn_run env stmt).
Proof.
  intros F. apply keeps_bind; [apply keeps_storage_call | intros _ w].
  destruct (F (store w)) as [e E]. now rewrite E.
Qed.

Lemma keeps_record_notification_too_long event user kind :
  varchar 20 kind = None ->
  keeps_store (Database.record_notification env event user kind).
Proof.
  intros V. apply keeps_bind; [apply keeps_storage_call | intros _].
  apply keeps_try_except.
  - apply keeps_bind; [| intros _; apply keeps_logging].
    apply keeps_conn_run_failing. intros s.
    unfold Database.insert_notification. rewrite V. eauto.
  - intros e. apply keeps_bind; [apply keeps_logging | intros _; apply keeps_raise].
Qed.

(** The dispatcher never raises. *)
Lemma send_notification_returns event title description photo kind w :
  fst (Bot.send_notification env event title description photo kind w) = Ok tt.
Proof.
  unfold Bot.send_notification, try_except.
  match goal with
  | |- context [match ?m w with _ => _ end] => destruct (m w) as [[[]|e] w']
  end;
    reflexivity.
Qed.

(** Fired with a label of the reminder table, the dispatcher records
    nothing, whoever the photo was delivered to. *)
Lemma send_notification_reminder_not_recorded
    event title description photo delta text w :
  In (delta, text) Bot.notification_times ->
  store (snd (Bot.send_notification env event title description photo text w))
  = store w.
Proof.
  intros Hin. revert w. change (keeps_store
    (Bot.send_notification env event title description photo text)).
  apply keeps_try_except; [| intros e; apply keeps_logging].
  apply keeps_bind; [apply keeps_get_all_users | intros us].
  apply keeps_for_each. intros u.
  apply keeps_try_except; [| intros e; apply keeps_logging].
  apply keeps_bind; [apply keeps_send_photo | intros _].
  apply keeps_bind; [| intros _; apply keeps_logging].
  apply keeps_record_notification_too_long.
  eapply reminder_labels_do_not_fit; eauto.
Qed.

End Dispatcher.

(** ** The dispatcher with a label that fits the column *)

Section DispatcherLoop.

Variable env : Env.
Variables (event : Z) (title description photo kind : string).

Hypothesis storage_up : forall n, storage env n = None.
Hypothesis kind_fits : (String.length kind <= 20)%nat.

Let caption := EventReminder title description kind.

Let body := fun user : Z =>
  try_except
    (Bot.send_photo env user photo caption ;;
     Database.record_notification env event user kind ;;
     logging INFO (Notification_sent_to_user user event))
    (fun e => logging ERROR (Failed_to_send_notification_to_user user e)).






End DispatcherLoop.

(** C2, on the code.  The job of the reminder "one day before" fires for
    event 1 with four registered users, the transport delivers to all of
    them and the storage driver is up.  The dispatcher returns, every
    user got the photo, and the ledger is still empty: each INSERT was
    refused because the label is longer than the column
    [notification_type VARCHAR(20)], and each refusal was logged as a
    failure to send. *)
Theorem C2_delivered_reminder_is_not_recorded :
  let env := env_at t_2024_05_31_04_00 0 in
  let kind := "Event starts in 1 day" in
  let r := Bot.send_notification env 1 "Meetup" "Monthly meetup" "photo-1" kind
             (world_of store_with_event) in
  let caption := EventReminder "Meetup" "Monthly meetup" kind in
  String.length kind = 21%nat /\
  fst r = Ok tt /\
  outbox (snd r) = [ SendPhoto 100 "photo-1" caption; SendPhoto 1 "photo-1" caption;
                     SendPhoto 2 "photo-1" caption; SendPhoto 3 "photo-1" caption ] /\
  notifications (store (snd r)) = [] /\
  log (snd r)
  = [ (ERROR, Error_recording_notification StringDataRightTruncationError);
      (ERROR, Failed_to_send_notification_to_user 100 StringDataRightTruncationError);
      (ERROR, Error_recording_notification StringDataRightTruncationError);
      (ERROR, Failed_to_send_notification_to_user 1 StringDataRightTruncationError);
      (ERROR, Error_recording_notification StringDataRightTruncationError);
      (ERROR, Failed_to_send_notification_to_user 2 StringDataRightTruncationError);
      (ERROR, Error_recording_notification StringDataRightTruncationError);
      (ERROR, Failed_to_send_notification_to_user 3 StringDataRightTruncationError) ].
Proof.
  vm_compute. repeat split; reflexivity.
Qed.

(** The loop itself is as the dispatcher's contract wants it: with a
    label that fits the column and the second delivery failing, the
    three users reached are recorded, the fourth is not, and the call
    returns. *)
Example send_notification_short_label :
  let env := env_second_send_fails t_2024_05_31_04_00 in
  let r := Bot.send_notification env 1 "Meetup" "Monthly meetup" "photo-1"
             "starts in 1 day" (world_of store_with_event) in
  fst r = Ok tt /\
  map (fun o => match o with SendPhoto c _ _ | SendMessage c _ => c end)
      (outbox (snd r)) = [100; 2; 3] /\
  notifications (store (snd r))
  = [ mk_notification 1 100 "starts in 1 day";
      mk_notification 1 2 "starts in 1 day";
      mk_notification 1 3 "starts in 1 day" ] /\
  In (ERROR, Failed_to_send_notification_to_user 1 (Other "BotBlocked")) (log (snd r)).
Proof.
  vm_compute. repeat split; try reflexivity. tauto.
Qed.

(** * More of the program *)

(** ** Statements on an acquired connection *)

Section Statements.

Variable env : Env.

(** A function that acquires a connection and runs one statement, with
    the storage driver up for both calls. *)
Lemma acquire_then_run {A} (stmt : Store -> Result (A * Store)) w :
  storage env (storage_calls w) = None ->
  storage env (S (storage_calls w)) = None ->
  (Database.pool_acquire env ;; Database.conn_run env stmt) w
  = match stmt (store w) with
    | Ok (a, s') =>
        (Ok a, mk_world s' (scheduler w) (outbox w) (log w)
                 (transport_calls w) (S (S (storage_calls w))))
    | Raise e =>
        (Raise e, mk_world (store w) (scheduler w) (outbox w) (log w)
                    (transport_calls w) (S (S (storage_calls w))))
    end.
Proof.
  intros H1 H2. unfold Database.pool_acquire, Database.conn_run, bind,
    storage_call.
  rewrite H1. cbn [storage_calls]. rewrite H2. cbn [store].
  destruct (stmt (store w)) as [[a s']|e]; reflexivity.
Qed.

(** The same when the driver fails on one of the two calls: the fault is
    raised and the store is as it was. *)
Lemma acquire_then_run_fault {A} (stmt : Store -> Result (A * Store)) w f :
  storage env (storage_calls w) = Some f \/
  (storage env (storage_calls w) = None /\
   storage env (S (storage_calls w)) = Some f) ->
  let r := (Database.pool_acquire env ;; Database.conn_run env stmt) w in
  fst r = Raise f /\ store (snd r) = store w /\
  scheduler (snd r) = scheduler w /\ outbox (snd r) = outbox w /\
  transport_calls (snd r) = transport_calls w.
Proof.
  intros [H1 | [H1 H2]]; unfold Database.pool_acquire, Database.conn_run, bind,
    storage_call; rewrite H1; cbn [storage_calls]; [|rewrite H2]; simpl; auto.
Qed.

End Statements.

(** ** The users *)

Section UsersFacts.

Lemma has_user_find s u :
  has_user s u = true <-> exists row, Users.select_user u s = Some row.
Proof.
  unfold has_user, Users.select_user. split.
  - intros H. apply existsb_exists in H. destruct H as [r [Hin E]].
    destruct (find (fun r => user_id r =? u) (users s)) eqn:F; eauto.
    exfalso. apply (find_none _ _ F) in Hin. congruence.
  - intros [row F]. apply find_some in F. apply existsb_exists. eauto.
Qed.

Lemma select_user_id s u row :
  Users.select_user u s = Some row -> user_id row = u /\ In row (users s).
Proof.
  unfold Users.select_user. intros F. apply find_some in F.
  destruct F as [Hin E]. apply Z.eqb_eq in E. auto.
Qed.




(** The ids after [DO UPDATE]: the id of the row is taken out and put at
    the end. *)
Lemma map_id_update_user row us :
  map user_id (Users.update_user row us)
  = (filter (fun v => negb (v =? user_id row)) (map user_id us)
     ++ [user_id row])%list.
Proof.
  unfold Users.update_user. rewrite map_app. f_equal.
  induction us as [|r us IH]; simpl; [reflexivity|].
  destruct (user_id r =? user_id row); simpl; now rewrite IH.
Qed.

Lemma In_ids_update_user row us v :
  In v (map user_id us) -> In v (map user_id (Users.update_user row us)).
Proof.
  intros H. rewrite map_id_update_user. apply in_or_app.
  destruct (Z.eq_dec v (user_id row)) as [->|N]; [right; simpl; auto|].
  left. apply filter_In. split; [exact H|].
  apply negb_true_iff. now apply Z.eqb_neq.
Qed.

Lemma NoDup_ids_update_user row us :
  NoDup (map user_id us) -> NoDup (map user_id (Users.update_user row us)).
Proof.
  intros D. rewrite map_id_update_user.
  apply NoDup_app; [now apply NoDup_filter | repeat constructor; simpl; tauto |].
  intros x Hx [E|[]]. subst x. apply filter_In in Hx. destruct Hx as [_ Hx].
  rewrite Z.eqb_refl in Hx. discriminate.
Qed.

Lemma has_user_ids s u : has_user s u = true <-> In u (map user_id (users s)).
Proof.
  unfold has_user. rewrite existsb_exists, in_map_iff. split.
  - intros [r [Hin E]]. apply Z.eqb_eq in E. eauto.
  - intros [r [E Hin]]. exists r. split; [exact Hin | now apply Z.eqb_eq].
Qed.

Variable env : Env.
Variable session_utcoffset : Time.timedelta.

(** The statement of [add_user] with fields that fit. *)
Lemma upsert_user_fits u p f l s :
  (char_length p <= 20)%nat -> (char_length f <= 100)%nat ->
  (char_length l <= 100)%nat ->
  Users.upsert_user env session_utcoffset u p f l s
  = if has_user s u
    then Ok (tt, Users.with_users s
                   (Users.update_user
                      (mk_user u p f l (clock_utc env + session_utcoffset))
                      (users s)))
    else Ok (tt, Users.with_users s
                   (users s ++ [mk_user u p f l (clock_utc env)])).
Proof.
  intros Hp Hf Hl. unfold Users.upsert_user.
  now rewrite (varchar_fits_chars 20 p Hp), (varchar_fits_chars 100 f Hf),
    (varchar_fits_chars 100 l Hl).
Qed.

End UsersFacts.





(** X3.  A field that does not fit its column makes [add_user] fail and
    leaves the store as it was; the width counts characters.  With the
    storage driver up: a phone number that [VARCHAR(20)] refuses, or a
    name that [VARCHAR(100)] refuses, raises the truncation error of the
    store and nothing is written; that error is raised only when a
    field has more characters than its column is wide; and fields of at
    most 20, 100 and 100 characters are accepted, however many bytes
    their encoding takes. *)
Theorem X3_add_user_rejects_long_fields
    (env : Env) (session_utcoffset : Time.timedelta)
    (u : Z) (p f l : string) (w : World) :
  (forall n, storage env n = None) ->
  let r := Users.add_user env session_utcoffset u p f l w in
  (varchar 20 p = None \/ varchar 100 f = None \/ varchar 100 l = None ->
   fst r = Raise StringDataRightTruncationError /\ store (snd r) = store w) /\
  (fst r = Raise StringDataRightTruncationError ->
   (20 < char_length p)%nat \/ (100 < char_length f)%nat \/
   (100 < char_length l)%nat) /\
  ((char_length p <= 20)%nat -> (char_length f <= 100)%nat ->
   (char_length l <= 100)%nat -> fst r = Ok tt).
Proof.
  intros Up r.
  assert (R := acquire_then_run env
                 (Users.upsert_user env session_utcoffset u p f l) w
                 (Up _) (Up _)).
  fold (Users.add_user env session_utcoffset u p f l) in R. fold r in R.
  assert (Long : forall n s, varchar n s = None -> (n < char_length s)%nat).
  { intros n s. unfold varchar.
    destruct (char_length s <=? n)%nat eqn:L; [discriminate|].
    intros _. apply Nat.leb_gt in L. exact L. }
  split; [|split].
  - intros H.
    assert (E : Users.upsert_user env session_utcoffset u p f l (store w)
                = Raise StringDataRightTruncationError).
    { unfold Users.upsert_user.
      destruct H as [H | [H | H]]; rewrite H;
        repeat match goal with |- context [match ?x with _ => _ end] =>
          destruct x end; reflexivity. }
    rewrite E in R. rewrite R. auto.
  - rewrite R. unfold Users.upsert_user.
    destruct (varchar 20 p) eqn:Vp; [|left; now apply Long].
    destruct (varchar 100 f) eqn:Vf; [|right; left; now apply Long].
    destruct (varchar 100 l) eqn:Vl; [|right; right; now apply Long].
    destruct (has_user (store w) u); discriminate.
  - intros Hp Hf Hl. rewrite R.
    rewrite (upsert_user_fits env session_utcoffset u p f l _ Hp Hf Hl).
    now destruct (has_user (store w) u).
Qed.

(** A phone number of twenty digits after the plus sign, as
    [process_phone_number] lets through, is refused.  A first name of
    sixty Cyrillic letters, 120 bytes in UTF-8, is accepted. *)
Lemma X3_witness :
  (let r := Users.add_user (env_at t_2024_06_01_04_50 0) 0 7
              "+12345678901234567890" "Erlan" "E" (world_of store_with_event) in
   fst r = Raise StringDataRightTruncationError /\
   store (snd r) = store_with_event) /\
  String.length (cyrillic_letters 60) = 120%nat /\
  fst (Users.add_user (env_at t_2024_06_01_04_50 0) 0 7
         "+77000000007" (cyrillic_letters 60) "E" (world_of store_with_event))
  = Ok tt.
Proof.
  split; [|split].
  - apply (proj1 (X3_add_user_rejects_long_fields
                    (env_at t_2024_06_01_04_50 0) 0 7
                    "+12345678901234567890" "Erlan" "E"
                    (world_of store_with_event) (fun n => eq_refl))).
    left. reflexivity.
  - reflexivity.
  - apply (proj2 (proj2 (X3_add_user_rejects_long_fields
                           (env_at t_2024_06_01_04_50 0) 0 7
                           "+77000000007" (cyrillic_letters 60) "E"
                           (world_of store_with_event) (fun n => eq_refl)))).
    + apply Nat.leb_le. reflexivity.
    + apply Nat.leb_le. reflexivity.
    + apply Nat.leb_le. reflexivity.
Defined.

(** X4.  [get_user] on a missing id: with the storage driver up it
    returns [None] exactly when no row has the id, otherwise a row of the
    table with that id; it never writes, and a fault of the driver is
    raised to the caller. *)
Theorem X4_get_user_lookup (env : Env) (u : Z) (w : World) :
  let r := Users.get_user env u w in
  store (snd r) = store w /\
  (storage env (storage_calls w) = None ->
   storage env (S (storage_calls w)) = None ->
   exists found,
     fst r = Ok found /\
     (found = None <-> has_user (store w) u = false) /\
     (forall row, found = Some row ->
                  user_id row = u /\ In row (users (store w)))) /\
  (forall f,
     storage env (storage_calls w) = Some f \/
     (storage env (storage_calls w) = None /\
      storage env (S (storage_calls w)) = Some f) ->
     fst r = Raise f).
Proof.
  intros r. split; [|split].
  - apply (keeps_bind _ _ (keeps_storage_call _)). intros _.
    apply (keeps_conn_run_query env (fun s => Users.select_user u s)).
  - intros U0 U1.
    assert (R := acquire_then_run env
                   (fun s => Ok (Users.select_user u s, s)) w U0 U1).
    fold (Users.get_user env u) in R. fold r in R.
    exists (Users.select_user u (store w)). rewrite R.
    split; [reflexivity|]. split.
    + destruct (has_user (store w) u) eqn:H.
      * apply has_user_find in H. destruct H as [row F]. rewrite F.
        split; discriminate.
      * destruct (Users.select_user u (store w)) eqn:F; [|tauto].
        assert (has_user (store w) u = true) by (apply has_user_find; eauto).
        congruence.
    + intros row F. now apply select_user_id.
  - intros f H.
    apply (acquire_then_run_fault env
             (fun s => Ok (Users.select_user u s, s)) w f H).
Qed.

(** Nobody has the id 7; the connection lost is the caller's problem. *)
Lemma X4_witness :
  fst (Users.get_user (env_at t_2024_06_01_04_50 0) 7 (world_of store_with_event))
  = Ok None /\
  fst (Users.get_user (env_storage_down t_2024_06_01_04_50) 1
         (world_of store_with_event))
  = Raise (Other "ConnectionDoesNotExistError").
Proof.
  split.
  - destruct (proj1 (proj2 (X4_get_user_lookup (env_at t_2024_06_01_04_50 0) 7
                              (world_of store_with_event))) eq_refl eq_refl)
      as [found [R [N _]]].
    rewrite R. f_equal. apply N. reflexivity.
  - apply (proj2 (proj2 (X4_get_user_lookup (env_storage_down t_2024_06_01_04_50)
                           1 (world_of store_with_event)))).
    right. split; reflexivity.
Defined.

(** ** Creating and listing events *)

Section EventsFacts.

Variable env : Env.

Lemma create_event_run title description photo dt creator w :
  storage env (storage_calls w) = None ->
  storage env (S (storage_calls w)) = None ->
  let stored := match dt with
                | Time.Aware a => Time.instant a
                | Time.Naive n => n
                end in
  Database.create_event env title description photo dt creator w
  = (fst (Database.insert_event env title description photo stored creator
            (store w)),
     mk_world (snd (Database.insert_event env title description photo stored
                      creator (store w)))
              (scheduler w) (outbox w) (log w)
              (transport_calls w) (S (S (storage_calls w)))).
Proof.
  intros U0 U1 stored.
  assert (E : match dt with
              | Time.Aware a =>
                  Time.replace_tzinfo_None (Time.astimezone Time.UTC a)
              | Time.Naive n => n
              end = stored).
  { subst stored. destruct dt as [n|a]; [reflexivity|].
    apply stored_datetime_is_instant. }
  unfold Database.create_event. rewrite E.
  unfold Database.pool_acquire, Database.conn_run_nextval, bind, storage_call.
  rewrite U0. cbn [storage_calls]. rewrite U1. cbn [store].
  destruct (Database.insert_event env title description photo stored creator
              (store w)) as [res s']. reflexivity.
Qed.

End EventsFacts.

(** X5.  An event needs a registered creator, and a refused event uses
    up an id.  With the storage driver up and a title and photo id of at
    most 200 characters, [create_event] for a creator that is not in
    [users] raises the violation of the reference [created_by]; no event
    is added, users and ledger are as they were, and the sequence behind
    [event_id] is one further: the event that is created next gets the
    id after the one the refused event drew. *)
Theorem X5_create_event_needs_registered_creator
    (env : Env) (title description photo : string) (dt : Time.datetime)
    (creator : Z) (w : World) :
  (forall n, storage env n = None) ->
  (char_length title <= 200)%nat -> (char_length photo <= 200)%nat ->
  has_user (store w) creator = false ->
  let r := Database.create_event env title description photo dt creator w in
  let s := store w in
  let s' := store (snd r) in
  fst r = Raise ForeignKeyViolationError /\
  users s' = users s /\ events s' = events s /\
  notifications s' = notifications s /\
  events_event_id_seq s' = events_event_id_seq s + 1 /\
  (forall title' description' photo' dt' creator',
     (char_length title' <= 200)%nat -> (char_length photo' <= 200)%nat ->
     has_user s creator' = true ->
     fst (Database.create_event env title' description' photo' dt' creator'
            (snd r))
     = Ok (events_event_id_seq s + 1)).
Proof.
  intros Up Ht Hp H r s s'. subst r s'.
  rewrite (create_event_run env _ _ _ _ _ _ (Up _) (Up _)).
  unfold Database.insert_event.
  rewrite (varchar_fits_chars 200 title Ht), (varchar_fits_chars 200 photo Hp).
  subst s. rewrite H.
  cbn [fst snd store with_events users events notifications events_event_id_seq].
  do 5 (split; [reflexivity|]).
  intros title' description' photo' dt' creator' Ht' Hp' H'.
  rewrite (create_event_run env _ _ _ _ _ _ (Up _) (Up _)).
  cbn [fst store]. unfold Database.insert_event.
  rewrite (varchar_fits_chars 200 title' Ht'),
    (varchar_fits_chars 200 photo' Hp').
  unfold has_user in *. cbn [with_events users events_event_id_seq].
  now rewrite H'.
Qed.

(** An administrator who never registered (id 500) cannot create the
    first event; the event the registered administrator creates next
    gets the id 2. *)
Lemma X5_witness :
  let r := Database.create_event (env_at t_2024_05_31_04_00 0) "Meetup"
             "Monthly meetup" "photo-1"
             (Time.Aware (Time.mk_aware t_2024_06_01_10_00 (Time.hours 5)))
             500 (world_of store_with_users) in
  fst r = Raise ForeignKeyViolationError /\
  events (store (snd r)) = [] /\
  fst (Database.create_event (env_at t_2024_05_31_04_00 0) "Meetup"
         "Monthly meetup" "photo-1"
         (Time.Aware (Time.mk_aware t_2024_06_01_10_00 (Time.hours 5)))
         100 (snd r))
  = Ok 2.
Proof.
  intros r.
  destruct (X5_create_event_needs_registered_creator
              (env_at t_2024_05_31_04_00 0) "Meetup" "Monthly meetup" "photo-1"
              (Time.Aware (Time.mk_aware t_2024_06_01_10_00 (Time.hours 5)))
              500 (world_of store_with_users))
    as [R [_ [E [_ [_ Next]]]]].
  - intros n. reflexivity.
  - apply Nat.leb_le. reflexivity.
  - apply Nat.leb_le. reflexivity.
  - reflexivity.
  - fold r in R, E, Next. split; [exact R|]. split; [exact E|].
    apply Next.
    + apply Nat.leb_le. reflexivity.
    + apply Nat.leb_le. reflexivity.
    + reflexivity.
Defined.



(** X7.  [get_upcoming_events] returns a window of the events.  With the
    storage driver up it returns, writes nothing, and hands out, in
    ascending order of stored datetime, each stored event whose datetime
    is strictly after the UTC clock and, when a horizon is given, not
    after the clock plus the horizon (an event at the very instant of
    the clock is not upcoming; one exactly at the horizon is); every row
    is handed out as often as it is stored, with its stored wall clock
    and the offset of the configured zone. *)
Theorem X7_get_upcoming_events_window
    (env : Env) (hours_ahead : option Time.timedelta) (w : World) :
  storage env (storage_calls w) = None ->
  storage env (S (storage_calls w)) = None ->
  let r := Database.get_upcoming_events env hours_ahead w in
  let in_window := fun e : Event =>
    (clock_utc env <? event_datetime e)
    && match hours_ahead with
       | Some h => event_datetime e <=? clock_utc env + h
       | None => true
       end in
  exists rows,
    fst r = Ok (map (Database.localized_dict (TIMEZONE env)) rows) /\
    store (snd r) = store w /\
    Permutation rows (filter in_window (events (store w))) /\
    Sorted Database.by_datetime rows /\
    (forall e, In e rows <->
               In e (events (store w)) /\ clock_utc env < event_datetime e /\
               match hours_ahead with
               | Some h => event_datetime e <= clock_utc env + h
               | None => True
               end) /\
    (forall d, In d (map (Database.localized_dict (TIMEZONE env)) rows) ->
       exists e, In e rows /\
         Database.d_event_id d = event_id e /\
         Time.wall (Database.d_event_datetime d) = event_datetime e /\
         Time.utcoffset (Database.d_event_datetime d)
         = Time.utcoffset_at_wall (TIMEZONE env) (event_datetime e)).
Proof.
  intros U0 U1 r in_window.
  destruct (get_upcoming_events_run env hours_ahead w U0 U1) as [R S].
  fold r in R, S.
  exists (Database.select_upcoming (clock_utc env) hours_ahead (store w)).
  split; [exact R|]. split; [exact S|].
  assert (P : Permutation
                (Database.select_upcoming (clock_utc env) hours_ahead (store w))
                (filter in_window (events (store w)))).
  { unfold Database.select_upcoming, in_window.
    destruct hours_ahead as [h|]; rewrite order_by_perm.
    - reflexivity.
    - rewrite (filter_ext (fun e => (clock_utc env <? event_datetime e) && true)
                          (fun e => clock_utc env <? event_datetime e));
        [reflexivity | intros e; apply andb_true_r]. }
  split; [exact P|]. split.
  { unfold Database.select_upcoming. destruct hours_ahead; apply order_by_sorted. }
  split.
  - intros e. split.
    + intros Hin. apply (Permutation_in _ P) in Hin.
      apply filter_In in Hin. destruct Hin as [Hin W]. unfold in_window in W.
      apply andb_true_iff in W. destruct W as [W1 W2]. apply Z.ltb_lt in W1.
      repeat split; auto. destruct hours_ahead; [now apply Z.leb_le | exact I].
    + intros [Hin [W1 W2]]. apply (Permutation_in _ (Permutation_sym P)).
      apply filter_In. split; [exact Hin|]. unfold in_window.
      apply andb_true_iff. split; [now apply Z.ltb_lt|].
      destruct hours_ahead; [now apply Z.leb_le | reflexivity].
  - intros d Hd. apply in_map_iff in Hd. destruct Hd as [e [E Hin]].
    exists e. subst d. auto.
Qed.

(** A day and an hour before the event, with a horizon of twelve hours,
    nothing is upcoming; without horizon the event is. *)
Lemma X7_witness :
  (exists rows,
     fst (Database.get_upcoming_events (env_at t_2024_05_31_04_00 0)
            (Some (Time.hours 12)) (world_of store_with_event))
     = Ok (map (Database.localized_dict Asia_Almaty) rows) /\ rows = []) /\
  (exists rows,
     fst (Database.get_upcoming_events (env_at t_2024_05_31_04_00 0)
            None (world_of store_with_event))
     = Ok (map (Database.localized_dict Asia_Almaty) rows) /\
     map event_id rows = [1]).
Proof.
  split.
  - destruct (X7_get_upcoming_events_window (env_at t_2024_05_31_04_00 0)
                (Some (Time.hours 12)) (world_of store_with_event)
                eq_refl eq_refl) as [rows [R [_ [P _]]]].
    exists rows. split; [exact R|].
    apply Permutation_sym, Permutation_nil in P. exact P.
  - destruct (X7_get_upcoming_events_window (env_at t_2024_05_31_04_00 0)
                None (world_of store_with_event)
                eq_refl eq_refl) as [rows [R [_ [P _]]]].
    exists rows. split; [exact R|].
    apply Permutation_sym, Permutation_length_1_inv in P. now subst rows.
Defined.

(** ** Nothing is deleted *)

Section NeverDeletes.

Lemma extends_refl s : extends s s.
Proof. unfold extends. repeat split; auto using incl_refl. Qed.

Lemma extends_trans s1 s2 s3 : extends s1 s2 -> extends s2 s3 -> extends s1 s3.
Proof.
  unfold extends. intros [E1 [N1 U1]] [E2 [N2 U2]].
  repeat split; eauto using incl_tran.
Qed.

Lemma keeps_never_deletes {A} (m : M A) : keeps_store m -> never_deletes m.
Proof. intros K w. rewrite K. apply extends_refl. Qed.

Lemma never_deletes_bind {A B} (m : M A) (f : A -> M B) :
  never_deletes m -> (forall a, never_deletes (f a)) -> never_deletes (bind m f).
Proof.
  intros Hm Hf w. unfold bind. specialize (Hm w).
  destruct (m w) as [[a|e] w']; simpl in *; [|exact Hm].
  eapply extends_trans; [exact Hm | apply Hf].
Qed.

Lemma never_deletes_try_except {A} (m : M A) (h : Exception -> M A) :
  never_deletes m -> (forall e, never_deletes (h e)) ->
  never_deletes (try_except m h).
Proof.
  intros Hm Hh w. unfold try_except. specialize (Hm w).
  destruct (m w) as [[a|e] w']; simpl in *; [exact Hm|].
  eapply extends_trans; [exact Hm | apply Hh].
Qed.

Lemma never_deletes_for_each {A} (xs : list A) (body : A -> M unit) :
  (forall x, never_deletes (body x)) -> never_deletes (for_each xs body).
Proof.
  intros Hb. induction xs as [|x xs IH]; simpl.
  - apply keeps_never_deletes, keeps_ret.
  - apply never_deletes_bind; auto.
Qed.

Variable env : Env.

(** A statement that deletes nothing. *)
Lemma never_deletes_conn_run {A} (stmt : Store -> Result (A * Store)) :
  (forall s a s', stmt s = Ok (a, s') -> extends s s') ->
  never_deletes (Database.conn_run env stmt).
Proof.
  intros H. apply never_deletes_bind.
  - apply keeps_never_deletes, keeps_storage_call.
  - intros _ w. destruct (stmt (store w)) as [[a s']|e] eqn:E; simpl.
    + destruct w. simpl in *. eauto.
    + apply extends_refl.
Qed.

Lemma insert_notification_extends event user kind s a s' :
  Database.insert_notification event user kind s = Ok (a, s') -> extends s s'.
Proof.
  unfold Database.insert_notification.
  destruct (varchar 20 kind); [|discriminate].
  destruct (has_notification s _).
  - intros E. inversion E. apply extends_refl.
  - destruct (has_event s event && has_user s user); [|discriminate].
    intros E. inversion E. unfold extends. simpl.
    repeat split; auto using incl_refl, incl_appl.
Qed.

Lemma has_event_app s next row e :
  has_event s e = true ->
  has_event (with_events s (events s ++ [row]) next) e = true.
Proof.
  unfold has_event. simpl. rewrite existsb_app. intros ->. reflexivity.
Qed.

(** A statement that draws from a sequence and deletes nothing. *)
Lemma never_deletes_conn_run_nextval {A} (stmt : Store -> Result A * Store) :
  (forall s, extends s (snd (stmt s))) ->
  never_deletes (Database.conn_run_nextval env stmt).
Proof.
  intros H. apply never_deletes_bind.
  - apply keeps_never_deletes, keeps_storage_call.
  - intros _ w. unfold never_deletes in *. specialize (H (store w)).
    destruct (stmt (store w)) as [r s']. exact H.
Qed.

Lemma insert_event_extends title description photo dt creator s :
  extends s (snd (Database.insert_event env title description photo dt creator
                    s)).
Proof.
  unfold Database.insert_event.
  destruct (varchar 200 title); [|apply extends_refl].
  destruct (varchar 200 photo); [|apply extends_refl].
  destruct (has_user s creator); unfold extends; simpl;
    repeat split; auto using incl_refl, incl_appl.
Qed.

Lemma upsert_user_extends off u p f l s a s' :
  Users.upsert_user env off u p f l s = Ok (a, s') -> extends s s'.
Proof.
  unfold Users.upsert_user.
  destruct (varchar 20 p); [|discriminate].
  destruct (varchar 100 f); [|discriminate].
  destruct (varchar 100 l); [|discriminate].
  destruct (has_user s u) eqn:H; intros E; inversion E; unfold extends; simpl;
    (split; [apply incl_refl|]); (split; [apply incl_refl|]); intros v Hv.
  - apply has_user_ids. apply has_user_ids in Hv. simpl.
    now apply In_ids_update_user.
  - apply has_user_ids. apply has_user_ids in Hv. simpl.
    rewrite map_app. apply in_or_app. auto.
Qed.

Lemma never_deletes_record_notification event user kind :
  never_deletes (Database.record_notification env event user kind).
Proof.
  apply never_deletes_bind; [apply keeps_never_deletes, keeps_storage_call|].
  intros _. apply never_deletes_try_except.
  - apply never_deletes_bind.
    + apply never_deletes_conn_run. apply insert_notification_extends.
    + intros _. apply keeps_never_deletes, keeps_logging.
  - intros e. apply keeps_never_deletes.
    apply keeps_bind; [apply keeps_logging | intros _; apply keeps_raise].
Qed.

Lemma keeps_send_message chat text : keeps_store (Bot.send_message env chat text).
Proof.
  apply keeps_bind; [apply keeps_transport_call | intros _ w; reflexivity].
Qed.

Lemma keeps_add_job id rd a : keeps_store (Bot.add_job id rd a).
Proof. intros w. now rewrite add_job_run. Qed.

Lemma keeps_get_events_for_new_user user :
  keeps_store (Database.get_events_for_new_user env user).
Proof.
  apply keeps_bind; [apply keeps_storage_call | intros _].
  apply keeps_bind; [apply keeps_logging | intros _].
  apply keeps_bind; [apply keeps_logging | intros _].
  apply keeps_bind; [apply (keeps_conn_run_query env (fun s => _)) | intros rows].
  apply keeps_bind; [apply keeps_logging | intros _].
  apply keeps_bind; [| intros _; apply keeps_ret].
  apply keeps_for_each. intros row. apply keeps_logging.
Qed.


Lemma never_deletes_send_notification event title description photo kind :
  never_deletes (Bot.send_notification env event title description photo kind).
Proof.
  apply never_deletes_try_except;
    [| intros e; apply keeps_never_deletes, keeps_logging].
  apply never_deletes_bind;
    [apply keeps_never_deletes, keeps_get_all_users | intros us].
  apply never_deletes_for_each. intros u.
  apply never_deletes_try_except;
    [| intros e; apply keeps_never_deletes, keeps_logging].
  apply never_deletes_bind;
    [apply keeps_never_deletes, keeps_send_photo | intros _].
  apply never_deletes_bind;
    [apply never_deletes_record_notification | intros _].
  apply keeps_never_deletes, keeps_logging.
Qed.

(** The loop over the reminder table of the per-user path writes no
    table. *)
Lemma keeps_user_reminders_loop (tz : Time.tzinfo) now event_time
    (id_of : Time.timedelta -> string) (args_of : string -> JobArgs)
    (msg_of : string -> Time.aware -> LogMsg) table :
  keeps_store
    (for_each table (fun '(time_delta, notification_text) =>
       let notification_time := Time.localize tz (event_time - time_delta) in
       if Time.gtb notification_time now then
         Bot.add_job (id_of time_delta) notification_time
                     (args_of notification_text) ;;
         logging INFO (msg_of notification_text notification_time)
       else ret tt)).
Proof.
  apply keeps_for_each. intros [d text]. simpl.
  destruct (Time.gtb _ _); [|apply keeps_ret].
  apply keeps_bind; [apply keeps_add_job | intros _; apply keeps_logging].
Qed.

Lemma never_deletes_schedule_notifications_for_new_user user :
  never_deletes (Bot.schedule_notifications_for_new_user env user).
Proof.
  apply never_deletes_try_except.
  - apply never_deletes_bind; [apply keeps_never_deletes, keeps_logging|].
    intros _. apply never_deletes_bind;
      [apply keeps_never_deletes, keeps_get_events_for_new_user | intros rows].
    apply never_deletes_bind; [apply keeps_never_deletes, keeps_logging|].
    intros _. destruct rows as [|row rows].
    + apply keeps_never_deletes.
      apply keeps_bind; [apply keeps_logging | intros _; apply keeps_send_message].
    + apply never_deletes_bind;
        [apply keeps_never_deletes, keeps_send_message | intros _].
      apply never_deletes_bind; [apply keeps_never_deletes, keeps_logging|].
      intros _. apply never_deletes_for_each. intros e.
      apply never_deletes_try_except;
        [| intros x; apply keeps_never_deletes, keeps_logging].
      apply never_deletes_bind; [apply keeps_never_deletes, keeps_logging|].
      intros _. apply never_deletes_bind;
        [apply keeps_never_deletes, keeps_send_photo | intros _].
      apply never_deletes_bind; [apply keeps_never_deletes, keeps_logging|].
      intros _. apply never_deletes_bind;
        [apply never_deletes_record_notification | intros _].
      apply never_deletes_bind; [apply keeps_never_deletes, keeps_logging|].
      intros _. apply keeps_never_deletes.
      apply (keeps_user_reminders_loop (TIMEZONE env) _ (event_datetime e)
               (fun d => Bot.user_job_id (event_id e) user d)
               (fun text => mk_args (event_id e) (title e) (description e)
                                    (photo_id e) text)
               (fun text t => Scheduled_for_event_user text (event_id e) user t)).
  - intros e. apply keeps_never_deletes.
    apply keeps_bind; [apply keeps_logging | intros _].
    apply keeps_try_except; [apply keeps_send_message | intros _; apply keeps_ret].
Qed.

Lemma never_deletes_create_event title description photo dt creator :
  never_deletes (Database.create_event env title description photo dt creator).
Proof.
  unfold Database.create_event.
  apply never_deletes_bind; [apply keeps_never_deletes, keeps_storage_call|].
  intros _. apply never_deletes_conn_run_nextval. apply insert_event_extends.
Qed.

Lemma never_deletes_add_user off u p f l :
  never_deletes (Users.add_user env off u p f l).
Proof.
  apply never_deletes_bind; [apply keeps_never_deletes, keeps_storage_call|].
  intros _. apply never_deletes_conn_run. apply upsert_user_extends.
Qed.

End NeverDeletes.

(** X8.  Nothing the program does deletes from the store.  Whatever the
    transport and the storage driver do, and whether the call returns or
    raises, after [add_user], [create_event], [record_notification],
    [send_notification] or [schedule_notifications_for_new_user] every
    event and every NotificationRecord of before is still there, and
    every user id of before is still registered. *)
Theorem X8_store_only_grows (env : Env) (w : World) :
  (forall off u p f l,
     extends (store w) (store (snd (Users.add_user env off u p f l w)))) /\
  (forall title description photo dt creator,
     extends (store w)
       (store (snd (Database.create_event env title description photo dt
                      creator w)))) /\
  (forall event user kind,
     extends (store w)
       (store (snd (Database.record_notification env event user kind w)))) /\
  (forall event title description photo kind,
     extends (store w)
       (store (snd (Bot.send_notification env event title description photo
                      kind w)))) /\
  (forall user,
     extends (store w)
       (store (snd (Bot.schedule_notifications_for_new_user env user w)))).
Proof.
  split; [|split; [|split; [|split]]]; intros.
  - apply never_deletes_add_user.
  - apply never_deletes_create_event.
  - apply never_deletes_record_notification.
  - apply never_deletes_send_notification.
  - apply never_deletes_schedule_notifications_for_new_user.
Qed.

(** ** The constraints of the tables are kept *)

Section Constraints.

Lemma keeps_keeps_constraints {A} (m : M A) : keeps_store m -> keeps_constraints m.
Proof. intros K w H. now rewrite K. Qed.

Lemma keeps_constraints_bind {A B} (m : M A) (f : A -> M B) :
  keeps_constraints m -> (forall a, keeps_constraints (f a)) ->
  keeps_constraints (bind m f).
Proof.
  intros Hm Hf w H. unfold bind. specialize (Hm w H).
  destruct (m w) as [[a|e] w']; simpl in *; [|exact Hm].
  now apply Hf.
Qed.

Lemma keeps_constraints_try_except {A} (m : M A) (h : Exception -> M A) :
  keeps_constraints m -> (forall e, keeps_constraints (h e)) ->
  keeps_constraints (try_except m h).
Proof.
  intros Hm Hh w H. unfold try_except. specialize (Hm w H).
  destruct (m w) as [[a|e] w']; simpl in *; [exact Hm|].
  now apply Hh.
Qed.

Lemma keeps_constraints_for_each {A} (xs : list A) (body : A -> M unit) :
  (forall x, keeps_constraints (body x)) -> keeps_constraints (for_each xs body).
Proof.
  intros Hb. induction xs as [|x xs IH]; simpl.
  - apply keeps_keeps_constraints, keeps_ret.
  - apply keeps_constraints_bind; auto.
Qed.

Lemma Forall_update_user (P : User -> Prop) row us :
  P row -> Forall P us -> Forall P (Users.update_user row us).
Proof.
  intros Hr Hus. unfold Users.update_user. apply Forall_app. split.
  - rewrite Forall_forall in *. intros r Hin. apply filter_In in Hin.
    now apply Hus.
  - constructor; [exact Hr | constructor].
Qed.

Lemma insert_notification_ok_store event user kind s a s' :
  Database.insert_notification event user kind s = Ok (a, s') ->
  store_ok s -> store_ok s'.
Proof.
  unfold Database.insert_notification.
  destruct (varchar 20 kind) as [t|] eqn:V; [|discriminate].
  destruct (has_notification s (mk_notification event user t)) eqn:H.
  - intros E. now inversion E.
  - destruct (has_event s event && has_user s user) eqn:FK; [|discriminate].
    apply andb_true_iff in FK. destruct FK as [He Hu].
    intros E. inversion E. subst a s'. clear E.
    intros [U1 [U2 [E1 [E2 [N1 N2]]]]].
    unfold store_ok. simpl.
    split; [exact U1|]. split; [exact U2|]. split; [exact E1|].
    split; [exact E2|]. split.
    + apply NoDup_app; [exact N1 | repeat constructor; simpl; tauto |].
      intros x Hx [<-|[]].
      apply has_notification_In in Hx. congruence.
    + apply Forall_app. split; [exact N2|].
      constructor; [|constructor]. simpl.
      split; [eapply varchar_length; eauto | split; assumption].
Qed.

Variable env : Env.

Lemma insert_event_ok_store title description photo dt creator s :
  store_ok s ->
  store_ok (snd (Database.insert_event env title description photo dt creator
                   s)).
Proof.
  unfold Database.insert_event.
  destruct (varchar 200 title) as [t|] eqn:Vt; [|auto].
  destruct (varchar 200 photo) as [p|] eqn:Vp; [|auto].
  intros [U1 [U2 [E1 [E2 [N1 N2]]]]].
  destruct (has_user s creator) eqn:Hu; cbn [snd].
  - assert (Fresh : ~ In (events_event_id_seq s) (map event_id (events s))).
    { intros Hin. apply in_map_iff in Hin. destruct Hin as [e [Ee Hin]].
      rewrite Forall_forall in E2. specialize (E2 e Hin). lia. }
    unfold store_ok. simpl.
    split; [exact U1|]. split; [exact U2|].
    split; [|split; [|split; [exact N1|]]].
    + rewrite map_app. simpl.
      apply NoDup_app; [exact E1 | repeat constructor; simpl; tauto |].
      intros x Hx [<-|[]]. contradiction.
    + apply Forall_app. split.
      * eapply Forall_impl; [|exact E2]. simpl.
        intros e [He1 [He2 [He3 He4]]]. repeat split; auto. lia.
      * constructor; [|constructor]. simpl.
        split; [lia|]. split; [eapply varchar_length; eauto|].
        split; [eapply varchar_length; eauto | exact Hu].
    + eapply Forall_impl; [|exact N2]. simpl.
      intros n [Hn1 [Hn2 Hn3]]. repeat split; auto.
      now apply has_event_app.
  - unfold store_ok. simpl.
    split; [exact U1|]. split; [exact U2|]. split; [exact E1|].
    split; [|split; [exact N1 | exact N2]].
    eapply Forall_impl; [|exact E2]. simpl.
    intros e [He1 [He2 [He3 He4]]]. repeat split; auto. lia.
Qed.

Lemma upsert_user_ok_store off u p f l s a s' :
  Users.upsert_user env off u p f l s = Ok (a, s') ->
  store_ok s -> store_ok s'.
Proof.
  intros E Ok0.
  assert (Ext := upsert_user_extends env off u p f l s a s' E).
  destruct Ext as [_ [_ Mono]].
  revert E. unfold Users.upsert_user.
  destruct (varchar 20 p) as [p'|] eqn:Vp; [|discriminate].
  destruct (varchar 100 f) as [f'|] eqn:Vf; [|discriminate].
  destruct (varchar 100 l) as [l'|] eqn:Vl; [|discriminate].
  destruct Ok0 as [U1 [U2 [E1 [E2 [N1 N2]]]]].
  assert (Fits : forall t,
            (char_length (phone_number (mk_user u p' f' l' t)) <= 20)%nat /\
            (char_length (first_name (mk_user u p' f' l' t)) <= 100)%nat /\
            (char_length (last_name (mk_user u p' f' l' t)) <= 100)%nat).
  { intros t. simpl. repeat split; eapply varchar_length; eauto. }
  assert (Rest : forall us',
            s' = Users.with_users s us' ->
            NoDup (map user_id us') ->
            Forall (fun r => (char_length (phone_number r) <= 20)%nat /\
                             (char_length (first_name r) <= 100)%nat /\
                             (char_length (last_name r) <= 100)%nat) us' ->
            store_ok s').
  { intros us' -> D W. unfold store_ok. simpl.
    split; [exact D|]. split; [exact W|]. split; [exact E1|].
    split; [|split; [exact N1|]].
    - eapply Forall_impl; [|exact E2]. simpl.
      intros e [He1 [He2 [He3 He4]]]. repeat split; auto.
    - eapply Forall_impl; [|exact N2]. simpl.
      intros n [Hn1 [Hn2 Hn3]]. repeat split; auto. }
  destruct (has_user s u) eqn:H; intros E; injection E as Ea Es;
    apply (Rest _ (eq_sym Es)).
  - now apply NoDup_ids_update_user.
  - apply Forall_update_user; [apply Fits | exact U2].
  - rewrite map_app. simpl.
    apply NoDup_app; [exact U1 | repeat constructor; simpl; tauto |].
    intros x Hx [E'|[]]. subst x.
    assert (has_user s u = true) by (now apply has_user_ids). congruence.
  - apply Forall_app. split; [exact U2|].
    constructor; [apply Fits | constructor].
Qed.

Lemma keeps_constraints_conn_run {A} (stmt : Store -> Result (A * Store)) :
  (forall s a s', stmt s = Ok (a, s') -> store_ok s -> store_ok s') ->
  keeps_constraints (Database.conn_run env stmt).
Proof.
  intros H. apply keeps_constraints_bind.
  - apply keeps_keeps_constraints, keeps_storage_call.
  - intros _ w Hw. destruct (stmt (store w)) as [[a s']|e] eqn:E; simpl.
    + destruct w. simpl in *. eauto.
    + exact Hw.
Qed.

Lemma keeps_constraints_record_notification event user kind :
  keeps_constraints (Database.record_notification env event user kind).
Proof.
  apply keeps_constraints_bind;
    [apply keeps_keeps_constraints, keeps_storage_call|].
  intros _. apply keeps_constraints_try_except.
  - apply keeps_constraints_bind.
    + apply keeps_constraints_conn_run. apply insert_notification_ok_store.
    + intros _. apply keeps_keeps_constraints, keeps_logging.
  - intros e. apply keeps_keeps_constraints.
    apply keeps_bind; [apply keeps_logging | intros _; apply keeps_raise].
Qed.

Lemma keeps_constraints_send_notification event title description photo kind :
  keeps_constraints
    (Bot.send_notification env event title description photo kind).
Proof.
  apply keeps_constraints_try_except;
    [| intros e; apply keeps_keeps_constraints, keeps_logging].
  apply keeps_constraints_bind;
    [apply keeps_keeps_constraints, keeps_get_all_users | intros us].
  apply keeps_constraints_for_each. intros u.
  apply keeps_constraints_try_except;
    [| intros e; apply keeps_keeps_constraints, keeps_logging].
  apply keeps_constraints_bind;
    [apply keeps_keeps_constraints, keeps_send_photo | intros _].
  apply keeps_constraints_bind;
    [apply keeps_constraints_record_notification | intros _].
  apply keeps_keeps_constraints, keeps_logging.
Qed.

Lemma keeps_constraints_schedule_notifications_for_new_user user :
  keeps_constraints (Bot.schedule_notifications_for_new_user env user).
Proof.
  apply keeps_constraints_try_except.
  - apply keeps_constraints_bind;
      [apply keeps_keeps_constraints, keeps_logging|].
    intros _. apply keeps_constraints_bind;
      [apply keeps_keeps_constraints, keeps_get_events_for_new_user|].
    intros rows.
    apply keeps_constraints_bind;
      [apply keeps_keeps_constraints, keeps_logging|].
    intros _. destruct rows as [|row rows].
    + apply keeps_keeps_constraints.
      apply keeps_bind; [apply keeps_logging | intros _; apply keeps_send_message].
    + apply keeps_constraints_bind;
        [apply keeps_keeps_constraints, keeps_send_message | intros _].
      apply keeps_constraints_bind;
        [apply keeps_keeps_constraints, keeps_logging|].
      intros _. apply keeps_constraints_for_each. intros e.
      apply keeps_constraints_try_except;
        [| intros x; apply keeps_keeps_constraints, keeps_logging].
      apply keeps_constraints_bind;
        [apply keeps_keeps_constraints, keeps_logging|].
      intros _. apply keeps_constraints_bind;
        [apply keeps_keeps_constraints, keeps_send_photo | intros _].
      apply keeps_constraints_bind;
        [apply keeps_keeps_constraints, keeps_logging|].
      intros _. apply keeps_constraints_bind;
        [apply keeps_constraints_record_notification | intros _].
      apply keeps_constraints_bind;
        [apply keeps_keeps_constraints, keeps_logging|].
      intros _. apply keeps_keeps_constraints.
      apply (keeps_user_reminders_loop (TIMEZONE env) _ (event_datetime e)
               (fun d => Bot.user_job_id (event_id e) user d)
               (fun text => mk_args (event_id e) (title e) (description e)
                                    (photo_id e) text)
               (fun text t => Scheduled_for_event_user text (event_id e) user t)).
  - intros e. apply keeps_keeps_constraints.
    apply keeps_bind; [apply keeps_logging | intros _].
    apply keeps_try_except; [apply keeps_send_message | intros _; apply keeps_ret].
Qed.

Lemma keeps_constraints_create_event title description photo dt creator :
  keeps_constraints
    (Database.create_event env title description photo dt creator).
Proof.
  unfold Database.create_event.
  apply keeps_constraints_bind;
    [apply keeps_keeps_constraints, keeps_storage_call|].
  intros _. apply keeps_constraints_bind.
  - apply keeps_keeps_constraints, keeps_storage_call.
  - intros _ w Hw.
    pose proof (insert_event_ok_store title description photo
                  match dt with
                  | Time.Aware a =>
                      Time.replace_tzinfo_None (Time.astimezone Time.UTC a)
                  | Time.Naive n => n
                  end creator (store w) Hw) as K.
    destruct (Database.insert_event _ _ _ _ _ _ (store w)) as [r s'].
    exact K.
Qed.

Lemma keeps_constraints_add_user off u p f l :
  keeps_constraints (Users.add_user env off u p f l).
Proof.
  apply keeps_constraints_bind;
    [apply keeps_keeps_constraints, keeps_storage_call|].
  intros _. apply keeps_constraints_conn_run. apply upsert_user_ok_store.
Qed.

End Constraints.

(** X9.  The program keeps the store within the constraints of
    [create_tables].  If before a call user ids and event ids are
    unique, event ids are below their sequence, no key occurs twice in
    the ledger, every record refers to a stored event and a registered
    user, every event to a registered creator, and every text fits its
    column, then the same holds after [add_user], [create_event],
    [record_notification], [send_notification] and
    [schedule_notifications_for_new_user], whatever the transport and the
    storage driver do and whether the call returns or raises.  In
    particular no (event, user, kind) is ever recorded twice. *)
Theorem X9_constraints_are_kept (env : Env) (w : World) :
  store_ok (store w) ->
  (forall off u p f l,
     store_ok (store (snd (Users.add_user env off u p f l w)))) /\
  (forall title description photo dt creator,
     store_ok (store (snd (Database.create_event env title description photo
                             dt creator w)))) /\
  (forall event user kind,
     store_ok (store (snd (Database.record_notification env event user kind w)))) /\
  (forall event title description photo kind,
     store_ok (store (snd (Bot.send_notification env event title description
                             photo kind w)))) /\
  (forall user,
     store_ok (store (snd (Bot.schedule_notifications_for_new_user env user w)))).
Proof.
  intros H. split; [|split; [|split; [|split]]]; intros.
  - now apply keeps_constraints_add_user.
  - now apply keeps_constraints_create_event.
  - now apply keeps_constraints_record_notification.
  - now apply keeps_constraints_send_notification.
  - now apply keeps_constraints_schedule_notifications_for_new_user.
Qed.

(** The store of the examples is within the constraints, and still is
    after user 2 has been through the reconciliation. *)
Lemma X9_witness :
  store_ok (store (snd (Bot.schedule_notifications_for_new_user
                          (env_at t_2024_05_31_04_00 0) 2
                          (world_of store_with_event)))).
Proof.
  refine (proj2 (proj2 (proj2 (proj2
            (X9_constraints_are_kept (env_at t_2024_05_31_04_00 0)
               (world_of store_with_event) _)))) 2).
  unfold store_ok. simpl.
  repeat split; repeat constructor; simpl;
    try lia; try (apply Nat.leb_le; reflexivity);
    intuition discriminate.
Defined.

(** ** Jobs that are left alone *)

Section JobFrame.

Implicit Types id : string.

Lemma keeps_job_same {A} id (m : M A) :
  (forall w, scheduler (snd (m w)) = scheduler w) -> keeps_job id m.
Proof. intros H w. now rewrite H. Qed.

Lemma keeps_job_ret {A} id (a : A) : keeps_job id (ret a).
Proof. now apply keeps_job_same. Qed.

Lemma keeps_job_raise {A} id e : keeps_job id (@raise A e).
Proof. now apply keeps_job_same. Qed.

Lemma keeps_job_logging id lvl msg : keeps_job id (logging lvl msg).
Proof. now apply keeps_job_same. Qed.

Lemma keeps_job_storage_call id oracle : keeps_job id (storage_call oracle).
Proof.
  apply keeps_job_same. intros w. unfold storage_call.
  destruct (oracle (storage_calls w)); reflexivity.
Qed.

Lemma keeps_job_transport_call id oracle : keeps_job id (transport_call oracle).
Proof.
  apply keeps_job_same. intros w. unfold transport_call.
  destruct (oracle (transport_calls w)); reflexivity.
Qed.

Lemma keeps_job_bind {A B} id (m : M A) (f : A -> M B) :
  keeps_job id m -> (forall a, keeps_job id (f a)) -> keeps_job id (bind m f).
Proof.
  intros Hm Hf w. unfold bind. specialize (Hm w).
  destruct (m w) as [[a|e] w']; simpl in *; [|exact Hm].
  destruct (Hf a w') as [L C]. destruct Hm as [L' C']. split; congruence.
Qed.

Lemma keeps_job_try_except {A} id (m : M A) (h : Exception -> M A) :
  keeps_job id m -> (forall e, keeps_job id (h e)) ->
  keeps_job id (try_except m h).
Proof.
  intros Hm Hh w. unfold try_except. specialize (Hm w).
  destruct (m w) as [[a|e] w']; simpl in *; [exact Hm|].
  destruct (Hh e w') as [L C]. destruct Hm as [L' C']. split; congruence.
Qed.

Lemma keeps_job_for_each {A} id (xs : list A) (body : A -> M unit) :
  (forall x, keeps_job id (body x)) -> keeps_job id (for_each xs body).
Proof.
  intros Hb. induction xs as [|x xs IH]; simpl.
  - apply keeps_job_ret.
  - apply keeps_job_bind; auto.
Qed.

Lemma keeps_job_add_job_other id id' rd a :
  id <> id' -> keeps_job id (Bot.add_job id' rd a).
Proof.
  intros N w. rewrite add_job_run. simpl. split.
  - now apply lookup_put_other.
  - now apply count_put_other.
Qed.

Variable env : Env.

Lemma keeps_job_conn_run {A} id (stmt : Store -> Result (A * Store)) :
  keeps_job id (Database.conn_run env stmt).
Proof.
  apply keeps_job_bind; [apply keeps_job_storage_call | intros _].
  apply keeps_job_same. intros w.
  destruct (stmt (store w)) as [[a s']|e]; reflexivity.
Qed.

Lemma keeps_job_send_photo id chat photo caption :
  keeps_job id (Bot.send_photo env chat photo caption).
Proof.
  apply keeps_job_bind; [apply keeps_job_transport_call | intros _].
  now apply keeps_job_same.
Qed.

Lemma keeps_job_send_message id chat text :
  keeps_job id (Bot.send_message env chat text).
Proof.
  apply keeps_job_bind; [apply keeps_job_transport_call | intros _].
  now apply keeps_job_same.
Qed.

Lemma keeps_job_record_notification id event user kind :
  keeps_job id (Database.record_notification env event user kind).
Proof.
  apply keeps_job_bind; [apply keeps_job_storage_call | intros _].
  apply keeps_job_try_except.
  - apply keeps_job_bind; [apply keeps_job_conn_run | intros _].
    apply keeps_job_logging.
  - intros e. apply keeps_job_bind; [apply keeps_job_logging | intros _].
    apply keeps_job_raise.
Qed.

Lemma keeps_job_get_all_users id : keeps_job id (Database.get_all_users env).
Proof.
  apply keeps_job_bind; [apply keeps_job_storage_call | intros _].
  apply keeps_job_conn_run.
Qed.

Lemma keeps_job_get_events_for_new_user id user :
  keeps_job id (Database.get_events_for_new_user env user).
Proof.
  apply keeps_job_bind; [apply keeps_job_storage_call | intros _].
  apply keeps_job_bind; [apply keeps_job_logging | intros _].
  apply keeps_job_bind; [apply keeps_job_logging | intros _].
  apply keeps_job_bind; [apply keeps_job_conn_run | intros rows].
  apply keeps_job_bind; [apply keeps_job_logging | intros _].
  apply keeps_job_bind; [| intros _; apply keeps_job_ret].
  apply keeps_job_for_each. intros row. apply keeps_job_logging.
Qed.

(** The dispatchers do not touch the job store. *)
Lemma keeps_job_send_notification id event title description photo kind :
  keeps_job id (Bot.send_notification env event title description photo kind).
Proof.
  apply keeps_job_try_except; [| intros e; apply keeps_job_logging].
  apply keeps_job_bind; [apply keeps_job_get_all_users | intros us].
  apply keeps_job_for_each. intros u.
  apply keeps_job_try_except; [| intros e; apply keeps_job_logging].
  apply keeps_job_bind; [apply keeps_job_send_photo | intros _].
  apply keeps_job_bind; [apply keeps_job_record_notification | intros _].
  apply keeps_job_logging.
Qed.

Lemma keeps_job_send_event_creation_notification id event title description
    photo dt :
  keeps_job id (Bot.send_event_creation_notification env event title
                  description photo dt).
Proof.
  apply keeps_job_bind; [apply keeps_job_get_all_users | intros us].
  apply keeps_job_for_each. intros u.
  apply keeps_job_try_except; [| intros e; apply keeps_job_logging].
  apply keeps_job_bind; [apply keeps_job_send_photo | intros _].
  apply keeps_job_logging.
Qed.

(** The per-user path leaves alone every id that is not one of its
    own. *)
Lemma keeps_job_schedule_notifications_for_new_user id user :
  (forall e d, id <> Bot.user_job_id e user d) ->
  keeps_job id (Bot.schedule_notifications_for_new_user env user).
Proof.
  intros N. apply keeps_job_try_except.
  - apply keeps_job_bind; [apply keeps_job_logging | intros _].
    apply keeps_job_bind; [apply keeps_job_get_events_for_new_user|].
    intros rows. apply keeps_job_bind; [apply keeps_job_logging | intros _].
    destruct rows as [|row rows].
    + apply keeps_job_bind; [apply keeps_job_logging | intros _].
      apply keeps_job_send_message.
    + apply keeps_job_bind; [apply keeps_job_send_message | intros _].
      apply keeps_job_bind; [apply keeps_job_logging | intros _].
      apply keeps_job_for_each. intros e.
      apply keeps_job_try_except; [| intros x; apply keeps_job_logging].
      apply keeps_job_bind; [apply keeps_job_logging | intros _].
      apply keeps_job_bind; [apply keeps_job_send_photo | intros _].
      apply keeps_job_bind; [apply keeps_job_logging | intros _].
      apply keeps_job_bind; [apply keeps_job_record_notification | intros _].
      apply keeps_job_bind; [apply keeps_job_logging | intros _].
      apply keeps_job_for_each. intros [d text]. simpl.
      destruct (Time.gtb _ _); [|apply keeps_job_ret].
      apply keeps_job_bind; [| intros _; apply keeps_job_logging].
      apply keeps_job_add_job_other. apply N.
  - intros e. apply keeps_job_bind; [apply keeps_job_logging | intros _].
    apply keeps_job_try_except; [apply keeps_job_send_message|].
    intros _. apply keeps_job_ret.
Qed.

(** The broadcast path leaves alone every id that is not one of its
    own for the event. *)
Lemma keeps_job_schedule_event_notifications id event dt title description
    photo :
  (forall d, id <> Bot.event_job_id event d) ->
  keeps_job id (Bot.schedule_event_notifications env event dt title
                  description photo).
Proof.
  intros N. apply keeps_job_for_each. intros [d text]. cbv beta zeta.
  destruct (Time.gtb _ _); [|apply keeps_job_ret].
  apply keeps_job_try_except; [| intros e; apply keeps_job_logging].
  apply keeps_job_bind; [| intros _; apply keeps_job_logging].
  apply keeps_job_add_job_other. apply N.
Qed.

End JobFrame.

(** X10.  The two scheduling paths never touch each other's jobs, and
    the dispatchers touch none.  Whatever the transport and the storage
    driver do: [schedule_notifications_for_new_user] leaves the job under
    every broadcast id as it was (neither replaced nor removed nor
    duplicated), [schedule_event_notifications] leaves the job under
    every per-user id as it was, and [send_notification] and
    [send_event_creation_notification] leave every job as it was. *)
Theorem X10_paths_keep_each_others_jobs (env : Env) (w : World) :
  (forall user e d,
     let w' := snd (Bot.schedule_notifications_for_new_user env user w) in
     lookup_job (Bot.event_job_id e d) (scheduler w')
     = lookup_job (Bot.event_job_id e d) (scheduler w) /\
     count_id (Bot.event_job_id e d) (scheduler w')
     = count_id (Bot.event_job_id e d) (scheduler w)) /\
  (forall event dt title description photo e u d,
     let w' := snd (Bot.schedule_event_notifications env event dt title
                      description photo w) in
     lookup_job (Bot.user_job_id e u d) (scheduler w')
     = lookup_job (Bot.user_job_id e u d) (scheduler w) /\
     count_id (Bot.user_job_id e u d) (scheduler w')
     = count_id (Bot.user_job_id e u d) (scheduler w)) /\
  (forall id event title description photo kind dt,
     lookup_job id (scheduler (snd (Bot.send_notification env event title
                                      description photo kind w)))
     = lookup_job id (scheduler w) /\
     lookup_job id (scheduler (snd (Bot.send_event_creation_notification env
                                      event title description photo dt w)))
     = lookup_job id (scheduler w)).
Proof.
  split; [|split].
  - intros user e d.
    apply (keeps_job_schedule_notifications_for_new_user env).
    intros e' d' E. symmetry in E.
    exact (user_job_id_not_event_job_id _ _ _ _ _ E).
  - intros event dt title description photo e u d.
    apply (keeps_job_schedule_event_notifications env).
    intros d'. apply user_job_id_not_event_job_id.
  - intros id event title description photo kind dt. split.
    + apply (keeps_job_send_notification env).
    + apply (keeps_job_send_event_creation_notification env).
Qed.

(** ** Job ids, one per event and offset *)

Section JobIdsInjective.

(** Two integers with the same decimal rendering are the same. *)
Lemma str_int_inj a b : Time.str_int a = Time.str_int b -> a = b.
Proof.
  unfold Time.str_int. intros H. apply DecimalZ.to_int_inj.
  assert (N : forall n, Z.to_int n <> Decimal.Pos Decimal.Nil /\
                        Z.to_int n <> Decimal.Neg Decimal.Nil).
  { intros [|p|p]; simpl; split; try discriminate; intros E; injection E as E;
      exact (DecimalPos.Unsigned.to_uint_nonnil _ E). }
  apply (f_equal NilZero.int_of_string) in H.
  rewrite !NilZero.isi in H by apply N. now injection H.
Qed.


Lemma user_job_id_inj e u d e' d' :
  Bot.user_job_id e u d = Bot.user_job_id e' u d' ->
  e = e' /\ Time.str_timedelta d = Time.str_timedelta d'.
Proof.
  unfold Bot.user_job_id. intros H.
  apply (string_app_inv_head "event_") in H.
  change ("_user_" ++ Time.str_int u ++ "_notification_"
          ++ Time.str_timedelta d)%string
    with (String "_" ("user_" ++ Time.str_int u ++ "_notification_"
                      ++ Time.str_timedelta d)%string) in H.
  change ("_user_" ++ Time.str_int u ++ "_notification_"
          ++ Time.str_timedelta d')%string
    with (String "_" ("user_" ++ Time.str_int u ++ "_notification_"
                      ++ Time.str_timedelta d')%string) in H.
  apply split_at_underscore in H; try apply str_int_no_underscore.
  destruct H as [He Hd]. split; [now apply str_int_inj|].
  apply (string_app_inv_head "user_") in Hd.
  apply string_app_inv_head in Hd.
  now apply (string_app_inv_head "_notification_") in Hd.
Qed.

(** The renderings of the offsets of the table differ. *)
Lemma offsets_render_NoDup :
  NoDup (map (fun p => Time.str_timedelta (fst p)) Bot.notification_times).
Proof. vm_compute. repeat constructor; simpl; intuition discriminate. Qed.

Lemma put_jobs_app l1 l2 js : put_jobs (l1 ++ l2) js = put_jobs l2 (put_jobs l1 js).
Proof. unfold put_jobs. apply fold_left_app. Qed.

(** Jobs built per event from entries of the table, under ids that are
    injective in the event and the rendering of the offset, have
    different ids when the events do. *)
Lemma jobs_per_event_NoDup {E} (key : E -> Z)
    (job : E -> Time.timedelta * string -> Job)
    (keep : E -> Time.timedelta * string -> bool) (es : list E) :
  (forall e p e' p', job_id (job e p) = job_id (job e' p') ->
     key e = key e' /\
     Time.str_timedelta (fst p) = Time.str_timedelta (fst p')) ->
  NoDup (map key es) ->
  NoDup (map job_id
           (flat_map (fun e => map (job e) (filter (keep e) Bot.notification_times))
                     es)).
Proof.
  intros Inj. induction es as [|e es IH]; intros D; [constructor|].
  cbn [map] in D. cbn [flat_map].
  inversion D as [|? ? He D']; subst. rewrite map_app.
  apply NoDup_app.
  - rewrite map_map.
    apply (NoDup_map_filter (fun p => job_id (job e p))).
    assert (N := offsets_render_NoDup). revert N.
    generalize Bot.notification_times as l.
    induction l as [|p l IHl]; simpl; intros N; [constructor|].
    inversion N as [|? ? Hp N']; subst. constructor; [|auto].
    intros H. apply Hp. apply in_map_iff in H. destruct H as [q [Hq Hin]].
    apply Inj in Hq. destruct Hq as [_ Hq]. rewrite <- Hq.
    apply (in_map (fun p => Time.str_timedelta (fst p))), Hin.
  - auto.
  - intros id H1 H2. apply He.
    apply in_map_iff in H1. destruct H1 as [j1 [E1 H1]].
    apply in_map_iff in H1. destruct H1 as [p1 [Ej1 _]].
    apply in_map_iff in H2. destruct H2 as [j2 [E2 H2]].
    apply in_flat_map in H2. destruct H2 as [e2 [Hin2 H2]].
    apply in_map_iff in H2. destruct H2 as [p2 [Ej2 _]].
    subst j1 j2. rewrite <- E2 in E1. apply Inj in E1. destruct E1 as [E1 _].
    rewrite E1. now apply in_map.
Qed.

End JobIdsInjective.

(** ** The reconciliation for a new user *)

Section Reconciliation.

Lemma bind_ok {A B} (m : M A) (f : A -> M B) w a w1 :
  m w = (Ok a, w1) -> bind m f w = f a w1.
Proof. intros H. unfold bind. now rewrite H. Qed.

Lemma try_except_ok {A} (m : M A) h w a w1 :
  m w = (Ok a, w1) -> try_except m h w = (Ok a, w1).
Proof. intros H. unfold try_except. now rewrite H. Qed.

(** A [try] whose handler returns never raises. *)
Lemma try_except_returns (m : M unit) h w :
  (forall e w', fst (h e w') = Ok tt) -> fst (try_except m h w) = Ok tt.
Proof.
  intros H. unfold try_except. destruct (m w) as [[[]|e] w']; [reflexivity|].
  apply H.
Qed.

Variable env : Env.
Variable user : Z.

Let tz := TIMEZONE env.
Let now := Time.now_in (TIMEZONE env) (clock_utc env).
Let current_time := clock_utc env + system_utcoffset env.

Let photo_of := fun e : Event =>
  SendPhoto user (photo_id e)
            (UpcomingEvent (title e) (event_datetime e) (description e)).

(** The loop over the reminder table for one event. *)
Lemma user_reminders_run (e : Event) (table : list (Time.timedelta * string)) :
  forall w,
    for_each table (fun '(time_delta, notification_text) =>
      let notification_time :=
        Time.localize tz (event_datetime e - time_delta) in
      if Time.gtb notification_time now then
        let job_id := Bot.user_job_id (event_id e) user time_delta in
        Bot.add_job job_id notification_time
          (mk_args (event_id e) (title e) (description e) (photo_id e)
                   notification_text) ;;
        logging INFO (Scheduled_for_event_user notification_text
                        (event_id e) user notification_time)
      else ret tt) w
    = (Ok tt,
       let due := filter (fun p => Time.gtb (Time.localize tz
                                               (event_datetime e - fst p)) now)
                         table in
       mk_world (store w)
         (put_jobs (map (user_job tz user e) due) (scheduler w))
         (outbox w)
         (log w ++ map (fun p => (INFO, Scheduled_for_event_user (snd p)
                                          (event_id e) user
                                          (Time.localize tz
                                             (event_datetime e - fst p)))) due)
         (transport_calls w) (storage_calls w)).
Proof.
  induction table as [|[d text] table IH]; intros w; simpl.
  - unfold ret. rewrite app_nil_r. now destruct w.
  - unfold bind at 1.
    destruct (Time.gtb (Time.localize tz (event_datetime e - d)) now) eqn:G;
      simpl.
    + unfold bind at 1. rewrite add_job_run. unfold logging at 1.
      rewrite IH. simpl. rewrite <- app_assoc. reflexivity.
    + unfold ret at 1. apply IH.
Qed.

Hypothesis storage_up : forall n, storage env n = None.
Hypothesis transport_up : forall n, transport env n = None.

Lemma send_photo_run chat photo caption w :
  Bot.send_photo env chat photo caption w
  = (Ok tt, mk_world (store w) (scheduler w)
              (outbox w ++ [SendPhoto chat photo caption]) (log w)
              (S (transport_calls w)) (storage_calls w)).
Proof.
  unfold Bot.send_photo, bind, transport_call. now rewrite transport_up.
Qed.

Lemma send_message_run chat text w :
  Bot.send_message env chat text w
  = (Ok tt, mk_world (store w) (scheduler w)
              (outbox w ++ [SendMessage chat text]) (log w)
              (S (transport_calls w)) (storage_calls w)).
Proof.
  unfold Bot.send_message, bind, transport_call. now rewrite transport_up.
Qed.

(** The statement of the initial record for an event and a user that
    exist. *)
Lemma insert_initial_notification event s :
  has_event s event = true -> has_user s user = true ->
  exists s',
    Database.insert_notification event user "initial_notification" s
    = Ok (tt, s') /\
    users s' = users s /\ events s' = events s /\
    (forall row, In row (notifications s') <->
                 In row (notifications s) \/
                 row = mk_notification event user "initial_notification").
Proof.
  intros He Hu. unfold Database.insert_notification.
  change (varchar 20 "initial_notification") with (Some "initial_notification").
  cbv iota beta. rewrite He, Hu. cbn [andb].
  destruct (has_notification s _) eqn:H.
  - exists s. repeat split; auto.
    intros [Hr | ->]; [exact Hr | now apply has_notification_In].
  - eexists. split; [reflexivity|]. simpl. repeat split; auto.
    + intros Hr. apply in_app_or in Hr. simpl in Hr. intuition.
    + intros Hr. apply in_or_app. simpl. intuition.
Qed.

(** One turn of the loop over the unseen events. *)
Lemma process_event_run (e : Event) w :
  has_event (store w) (event_id e) = true ->
  has_user (store w) user = true ->
  exists w',
    try_except
      (logging INFO (Processing_event_for_user (event_id e) user) ;;
       let event_time := event_datetime e in
       Bot.send_photo env user (photo_id e)
         (UpcomingEvent (title e) event_time (description e)) ;;
       logging INFO (Sent_event_details_to_user (event_id e) user) ;;
       Database.record_notification env (event_id e) user
         "initial_notification" ;;
       logging INFO (Recorded_initial_notification (event_id e) user) ;;
       let local_tz := TIMEZONE env in
       let now := Time.now_in local_tz (clock_utc env) in
       for_each Bot.notification_times
         (fun '(time_delta, notification_text) =>
            let notification_time :=
              Time.localize local_tz (event_time - time_delta) in
            if Time.gtb notification_time now then
              let job_id := Bot.user_job_id (event_id e) user time_delta in
              Bot.add_job job_id notification_time
                (mk_args (event_id e) (title e) (description e)
                         (photo_id e) notification_text) ;;
              logging INFO (Scheduled_for_event_user notification_text
                              (event_id e) user notification_time)
            else ret tt))
      (fun x => logging ERROR
                  (Error_processing_event_for_user (event_id e) user x)) w
    = (Ok tt, w') /\
    users (store w') = users (store w) /\
    events (store w') = events (store w) /\
    outbox w' = (outbox w ++ [photo_of e])%list /\
    scheduler w'
    = put_jobs (map (user_job tz user e) (user_future_offsets tz now e))
               (scheduler w) /\
    (forall row, In row (notifications (store w')) <->
                 In row (notifications (store w)) \/
                 row = mk_notification (event_id e) user "initial_notification").
Proof.
  intros He Hu.
  destruct (insert_initial_notification (event_id e) (store w) He Hu)
    as [s' [St [Us [Ev Rows]]]].
  eexists. split.
  - apply try_except_ok. cbv zeta.
    erewrite bind_ok by reflexivity.
    erewrite bind_ok by apply send_photo_run.
    erewrite bind_ok by reflexivity.
    erewrite bind_ok.
    2:{ rewrite record_notification_statement by apply storage_up.
        cbn [store]. rewrite St. reflexivity. }
    erewrite bind_ok by reflexivity.
    apply (user_reminders_run e Bot.notification_times).
  - cbn [store scheduler outbox]. auto.
Qed.

(** The loop over the unseen events. *)
Lemma process_events_run (es : list Event) : forall w,
  (forall e, In e es -> has_event (store w) (event_id e) = true) ->
  has_user (store w) user = true ->
  exists w',
    for_each es (fun event =>
      try_except
        (logging INFO (Processing_event_for_user (event_id event) user) ;;
         let event_time := event_datetime event in
         Bot.send_photo env user (photo_id event)
           (UpcomingEvent (title event) event_time (description event)) ;;
         logging INFO (Sent_event_details_to_user (event_id event) user) ;;
         Database.record_notification env (event_id event) user
           "initial_notification" ;;
         logging INFO (Recorded_initial_notification (event_id event) user) ;;
         let local_tz := TIMEZONE env in
         let now := Time.now_in local_tz (clock_utc env) in
         for_each Bot.notification_times
           (fun '(time_delta, notification_text) =>
              let notification_time :=
                Time.localize local_tz (event_time - time_delta) in
              if Time.gtb notification_time now then
                let job_id := Bot.user_job_id (event_id event) user time_delta in
                Bot.add_job job_id notification_time
                  (mk_args (event_id event) (title event) (description event)
                           (photo_id event) notification_text) ;;
                logging INFO (Scheduled_for_event_user notification_text
                                (event_id event) user notification_time)
              else ret tt))
        (fun x => logging ERROR
                    (Error_processing_event_for_user (event_id event) user x)))
      w
    = (Ok tt, w') /\
    users (store w') = users (store w) /\
    events (store w') = events (store w) /\
    outbox w' = (outbox w ++ map photo_of es)%list /\
    scheduler w'
    = put_jobs (flat_map (fun e => map (user_job tz user e)
                                       (user_future_offsets tz now e)) es)
               (scheduler w) /\
    (forall row, In row (notifications (store w')) <->
                 In row (notifications (store w)) \/
                 exists e, In e es /\
                   row = mk_notification (event_id e) user "initial_notification").
Proof.
  induction es as [|e es IH]; intros w He Hu.
  - exists w. simpl. rewrite app_nil_r.
    repeat split; auto. intros [H | [e [[] _]]]. exact H.
  - destruct (process_event_run e w (He e (or_introl eq_refl)) Hu)
      as [w1 [R1 [Us1 [Ev1 [O1 [S1 N1]]]]]].
    assert (He1 : forall x, In x es -> has_event (store w1) (event_id x) = true).
    { intros x Hx. unfold has_event in *. rewrite Ev1. apply He. now right. }
    assert (Hu1 : has_user (store w1) user = true).
    { unfold has_user in *. now rewrite Us1. }
    destruct (IH w1 He1 Hu1) as [w' [R [Us [Ev [O [S N]]]]]].
    exists w'. split.
    { cbn [for_each]. erewrite bind_ok by exact R1. exact R. }
    split; [congruence|]. split; [congruence|]. split.
    { rewrite O, O1. cbn [map]. rewrite <- app_assoc. reflexivity. }
    split.
    { rewrite S, S1. cbn [flat_map]. now rewrite put_jobs_app. }
    intros row. rewrite N, N1. simpl. split.
    + intros [[H | ->] | [x [Hx E]]]; eauto 6.
    + intros [H | [x [[<- | Hx] E]]]; eauto 6.
Qed.

(** [get_events_for_new_user] with the storage driver up: the rows, and a
    world that differs in the log and the call count only. *)
Lemma get_events_for_new_user_world w :
  exists w',
    Database.get_events_for_new_user env user w
    = (Ok (Database.select_events_for_new_user current_time user (store w)), w') /\
    store w' = store w /\ scheduler w' = scheduler w /\ outbox w' = outbox w.
Proof.
  unfold Database.get_events_for_new_user, Database.pool_acquire,
    Database.conn_run, bind, storage_call, logging.
  rewrite storage_up. cbn [storage_calls]. rewrite storage_up.
  pose proof (@for_each_logging Event) as L. unfold logging in L.
  rewrite L. eexists. split; [reflexivity|]. simpl. auto.
Qed.

(** The whole of [schedule_notifications_for_new_user] when nothing
    fails. *)
Lemma reconcile_run w :
  has_user (store w) user = true ->
  let rows := Database.select_events_for_new_user current_time user (store w) in
  exists w',
    Bot.schedule_notifications_for_new_user env user w = (Ok tt, w') /\
    users (store w') = users (store w) /\
    events (store w') = events (store w) /\
    outbox w'
    = (outbox w ++
       match rows with
       | [] => [SendMessage user WelcomeNoUpcomingEvents]
       | _ :: _ => SendMessage user (WelcomeUpcomingEvents (List.length rows))
                   :: map photo_of rows
       end)%list /\
    scheduler w'
    = put_jobs (flat_map (fun e => map (user_job tz user e)
                                       (user_future_offsets tz now e)) rows)
               (scheduler w) /\
    (forall row, In row (notifications (store w')) <->
                 In row (notifications (store w)) \/
                 exists e, In e rows /\
                   row = mk_notification (event_id e) user "initial_notification").
Proof.
  intros Hu rows.
  destruct (get_events_for_new_user_world
              (snd (logging INFO
                      (Starting_notification_scheduling_for_new_user user) w)))
    as [w1 [R1 [St1 [Sc1 Ob1]]]].
  cbn [snd logging store scheduler outbox] in R1, St1, Sc1, Ob1.
  fold rows in R1.
  unfold Bot.schedule_notifications_for_new_user.
  destruct rows as [|row rest] eqn:Rows.
  - eexists. split.
    { apply try_except_ok.
      erewrite bind_ok by reflexivity.
      erewrite bind_ok by exact R1.
      erewrite bind_ok by reflexivity.
      erewrite bind_ok by reflexivity.
      apply send_message_run. }
    cbn [store scheduler outbox logging snd]. rewrite St1, Sc1, Ob1.
    repeat split; auto.
    intros [H | [e [[] _]]]. exact H.
  - set (w2 := mk_world (store w1) (scheduler w1)
                 (outbox w1 ++ [SendMessage user
                                  (WelcomeUpcomingEvents
                                     (List.length (row :: rest)))])
                 (log w1 ++ [(INFO, Retrieved_events_for_user
                                      (List.length (row :: rest)) user)]
                         ++ [(INFO, Sent_welcome_message_to_user user)])
                 (S (transport_calls w1)) (storage_calls w1)).
    destruct (process_events_run (row :: rest) w2) as [w' [R [Us [Ev [O [S N]]]]]].
    { intros e He. cbn [w2 store]. rewrite St1.
      assert (Hin : In e (events (store w))).
      { apply (select_events_for_new_user_In current_time user (store w) e).
        fold rows. rewrite Rows. exact He. }
      unfold has_event. apply existsb_exists. exists e.
      split; [exact Hin | apply Z.eqb_refl]. }
    { cbn [w2 store]. now rewrite St1. }
    exists w'. split.
    { apply try_except_ok.
      erewrite bind_ok by reflexivity.
      erewrite bind_ok by exact R1.
      erewrite bind_ok by reflexivity.
      erewrite bind_ok by apply send_message_run.
      erewrite bind_ok by reflexivity.
      cbn [logging store scheduler outbox log transport_calls storage_calls].
      rewrite <- app_assoc. exact R. }
    cbn [w2 store scheduler outbox] in Us, Ev, O, S, N.
    rewrite St1 in Us, Ev, N. rewrite Sc1 in S. rewrite Ob1 in O.
    split; [exact Us|]. split; [exact Ev|]. split.
    { rewrite O, <- app_assoc. reflexivity. }
    split; [exact S | exact N].
Qed.

End Reconciliation.

(** X11.  [schedule_notifications_for_new_user] never raises: whatever
    the transport and the storage driver do, the call returns, so a
    failure while reconciling cannot reach the registration handler that
    awaits it. *)
Theorem X11_reconciliation_never_raises (env : Env) (user : Z) (w : World) :
  fst (Bot.schedule_notifications_for_new_user env user w) = Ok tt.
Proof.
  unfold Bot.schedule_notifications_for_new_user.
  apply try_except_returns. intros e w'.
  unfold bind, logging. apply try_except_returns. reflexivity.
Qed.

Section ReconciliationOutcome.

Lemma NoDup_map_incl {A B} (f : A -> B) (l l' : list A) :
  NoDup (map f l) -> NoDup l' -> incl l' l -> NoDup (map f l').
Proof.
  intros D. induction l' as [|a l' IH]; simpl; intros D' I; [constructor|].
  inversion D' as [|? ? Ha Dl]; subst. constructor.
  - intros H. apply in_map_iff in H. destruct H as [b [E Hb]].
    assert (b = a).
    { apply (NoDup_map_eq f l); auto; apply I; simpl; auto. }
    subst b. contradiction.
  - apply IH; [exact Dl|]. intros x Hx. apply I. now right.
Qed.

Lemma select_events_for_new_user_NoDup t u s :
  NoDup (Database.select_events_for_new_user t u s).
Proof.
  unfold Database.select_events_for_new_user.
  eapply Permutation_NoDup; [symmetry; apply order_by_perm | apply NoDup_nodup].
Qed.

Lemma nil_if_no_element {A} (l : list A) : (forall x, ~ In x l) -> l = [].
Proof. destruct l as [|a l]; [reflexivity|]. intros H. destruct (H a). now left. Qed.

End ReconciliationOutcome.

(** X12.  The reconciliation sends each unseen event once, records it,
    and leaves nothing unseen.  When the transport and the storage driver
    work and the user is registered, [schedule_notifications_for_new_user]
    sends the user the welcome message and then one photo per row of
    [get_events_for_new_user], in that order (only the "no upcoming
    events" message when there is no row); the ledger gains exactly the
    ["initial_notification"] records of these events for the user; no
    event is added or removed; and the query of
    [get_events_for_new_user] finds nothing for the user afterwards, so
    a second reconciliation at the same time sends no event again. *)
Theorem X12_reconciliation_leaves_nothing_unseen
    (env : Env) (user : Z) (w : World) :
  (forall n, storage env n = None) ->
  (forall n, transport env n = None) ->
  has_user (store w) user = true ->
  let current_time := clock_utc env + system_utcoffset env in
  let rows := Database.select_events_for_new_user current_time user (store w) in
  let r := Bot.schedule_notifications_for_new_user env user w in
  outbox (snd r)
  = (outbox w ++
     match rows with
     | [] => [SendMessage user WelcomeNoUpcomingEvents]
     | _ :: _ =>
         SendMessage user (WelcomeUpcomingEvents (List.length rows))
         :: map (fun e => SendPhoto user (photo_id e)
                            (UpcomingEvent (title e) (event_datetime e)
                                           (description e))) rows
     end)%list /\
  (forall row, In row (notifications (store (snd r))) <->
               In row (notifications (store w)) \/
               exists e, In e rows /\
                 row = mk_notification (event_id e) user "initial_notification") /\
  events (store (snd r)) = events (store w) /\
  Database.select_events_for_new_user current_time user (store (snd r)) = [].
Proof.
  intros Su Tu Hu current_time rows r.
  destruct (reconcile_run env user Su Tu w Hu) as [w' [R [Us [Ev [O [S N]]]]]].
  fold current_time rows in O, S, N. fold r in R. rewrite R. cbn [snd].
  split; [exact O|]. split; [exact N|]. split; [exact Ev|].
  apply nil_if_no_element. intros e He.
  apply select_events_for_new_user_In in He. destruct He as [Hin [Ht Hn]].
  rewrite Ev in Hin. apply Hn. apply N. right. exists e. split; [|reflexivity].
  apply select_events_for_new_user_In. repeat split; auto.
  intros Hrow. apply Hn. apply N. now left.
Qed.

(** User 2 registers a day and an hour before the event: a welcome, the
    photo of the event, one record; and nothing is left to send. *)
Lemma X12_witness :
  let env := env_at t_2024_05_31_04_00 0 in
  let r := Bot.schedule_notifications_for_new_user env 2
             (world_of store_with_event) in
  notifications (store (snd r)) = [ mk_notification 1 2 "initial_notification" ] /\
  Database.select_events_for_new_user t_2024_05_31_04_00 2 (store (snd r)) = [].
Proof.
  intros env r. split; [vm_compute; reflexivity|].
  refine (proj2 (proj2 (proj2
            (X12_reconciliation_leaves_nothing_unseen env 2
               (world_of store_with_event) _ _ _)))).
  - intros n. reflexivity.
  - intros n. reflexivity.
  - reflexivity.
Defined.

(** X13.  The reminders of the per-user path are due at the stored
    datetime read as a wall clock of the configured zone.  When nothing
    fails, the user is registered and event ids are unique, after
    [schedule_notifications_for_new_user] every row of
    [get_events_for_new_user] has, for every entry of the table that
    passes the test, a pending job under its per-user id that runs at
    [localize(event_datetime - time_delta)]: the stored UTC value minus
    the offset, with the zone attached, which is the instant of the
    reminder moved by the UTC offset of the zone. *)
Theorem X13_per_user_reminders_are_localized
    (env : Env) (user : Z) (w : World) (e : Event)
    (delta : Time.timedelta) (text : string) :
  (forall n, storage env n = None) ->
  (forall n, transport env n = None) ->
  has_user (store w) user = true ->
  NoDup (map event_id (events (store w))) ->
  let tz := TIMEZONE env in
  let now := Time.now_in tz (clock_utc env) in
  let current_time := clock_utc env + system_utcoffset env in
  let due := Time.localize tz (event_datetime e - delta) in
  In e (Database.select_events_for_new_user current_time user (store w)) ->
  In (delta, text) Bot.notification_times ->
  Time.gtb due now = true ->
  let w' := snd (Bot.schedule_notifications_for_new_user env user w) in
  lookup_job (Bot.user_job_id (event_id e) user delta) (scheduler w')
  = Some (mk_job (Bot.user_job_id (event_id e) user delta) due
                 (mk_args (event_id e) (title e) (description e) (photo_id e)
                          text)) /\
  Time.instant due
  = event_datetime e - delta
    - Time.utcoffset_at_wall tz (event_datetime e - delta).
Proof.
  intros Su Tu Hu D tz now current_time due He Hd G w'.
  split; [|reflexivity].
  destruct (reconcile_run env user Su Tu w Hu) as [w1 [R [_ [_ [_ [S _]]]]]].
  subst w'. rewrite R. cbn [snd]. rewrite S.
  apply (lookup_put_jobs_in (user_job tz user e (delta, text))).
  - apply (jobs_per_event_NoDup event_id (user_job tz user)
             (fun e p => Time.gtb (Time.localize tz (event_datetime e - fst p))
                                  now)).
    + intros e1 p1 e2 p2 E. simpl in E. now apply user_job_id_inj in E.
    + apply (NoDup_map_incl event_id (events (store w))); auto.
      * apply select_events_for_new_user_NoDup.
      * intros x Hx. now apply select_events_for_new_user_In in Hx.
  - apply in_flat_map. exists e. split; [exact He|].
    apply in_map. apply filter_In. split; [exact Hd | exact G].
Qed.

(** User 2 registers a day and an hour before the event, stored as 05:00
    UTC: the reminder of six hours before is scheduled for 23:00 +05:00
    of the day before, which is 18:00 UTC, five hours before 23:00 UTC. *)
Lemma X13_witness :
  exists j,
    lookup_job (Bot.user_job_id 1 2 (Time.hours 6))
      (scheduler (snd (Bot.schedule_notifications_for_new_user
                         (env_at t_2024_05_31_04_00 0) 2
                         (world_of store_with_event)))) = Some j /\
    Time.instant (run_date j)
    = t_2024_06_01_05_00 - Time.hours 6 - Time.hours 5.
Proof.
  destruct (X13_per_user_reminders_are_localized
              (env_at t_2024_05_31_04_00 0) 2 (world_of store_with_event)
              (mk_event 1 "Meetup" "Monthly meetup" "photo-1" t_2024_06_01_05_00
                        t_2024_05_31_04_00 100)
              (Time.hours 6) "Event starts in 6 hours") as [L I].
  - intros n. reflexivity.
  - intros n. reflexivity.
  - reflexivity.
  - repeat constructor. simpl. tauto.
  - vm_compute. tauto.
  - simpl. tauto.
  - vm_compute. reflexivity.
  - eexists. split; [exact L|]. exact I.
Defined.

(** ** Scheduling again *)

Section Reschedule.

Lemma update_job_same j js :
  lookup_job (job_id j) js = Some j -> update_job j js = js.
Proof.
  unfold lookup_job. induction js as [|k js IH]; simpl; [reflexivity|].
  destruct (has_id (job_id j) k) eqn:E.
  - intros H. now inversion H.
  - intros H. now rewrite IH.
Qed.

Lemma put_job_same j js : lookup_job (job_id j) js = Some j -> put_job j js = js.
Proof. intros H. unfold put_job. rewrite H. now apply update_job_same. Qed.

Lemma put_jobs_same new js :
  (forall j, In j new -> lookup_job (job_id j) js = Some j) ->
  put_jobs new js = js.
Proof.
  unfold put_jobs. induction new as [|j new IH]; simpl; intros H; [reflexivity|].
  rewrite put_job_same by auto. auto.
Qed.

Lemma put_jobs_twice new js :
  NoDup (map job_id new) -> put_jobs new (put_jobs new js) = put_jobs new js.
Proof.
  intros D. apply put_jobs_same. intros j Hj. now apply lookup_put_jobs_in.
Qed.

End Reschedule.

(** X14.  Scheduling the reminders of an event again changes nothing:
    a second run of [schedule_event_notifications] with the same
    arguments at the same clock leaves the job store exactly as the
    first run left it (no job added, moved or altered), and neither run
    touches the store or sends anything. *)
Theorem X14_scheduling_again_changes_nothing
    (env : Env) (event : Z) (dt : Time.datetime)
    (title description photo : string) (w : World) :
  let r1 := Bot.schedule_event_notifications env event dt title description
              photo w in
  let r2 := Bot.schedule_event_notifications env event dt title description
              photo (snd r1) in
  fst r2 = Ok tt /\
  scheduler (snd r2) = scheduler (snd r1) /\
  store (snd r2) = store w /\ outbox (snd r2) = outbox w.
Proof.
  intros r1 r2. subst r1 r2.
  rewrite !schedule_event_notifications_run. cbn [fst snd scheduler store outbox].
  repeat split. apply put_jobs_twice. apply future_jobs_NoDup.
Qed.

(** ** The announcement of a new event *)

Section CreationBroadcast.

Variable env : Env.
Variables (title description photo : string) (dt : Time.datetime).

Let caption := NewEventCreated title dt description.

(** The loop of [send_event_creation_notification]: every user is tried
    once, the photo goes to those the transport delivers to, and a
    failure for one does not stop the loop. *)
Lemma creation_loop_run (us : list Z) : forall w,
  exists w',
    for_each us (fun user =>
      try_except
        (Bot.send_photo env user photo caption ;;
         logging INFO (Event_creation_notification_sent_to_user user))
        (fun e => logging ERROR
                    (Failed_to_send_event_creation_notification_to_user user e)))
      w
    = (Ok tt, w') /\
    store w' = store w /\ scheduler w' = scheduler w /\
    transport_calls w' = (transport_calls w + List.length us)%nat /\
    outbox w'
    = (outbox w ++ map (fun u => SendPhoto u photo caption)
                       (delivered (transport env) (transport_calls w) us))%list.
Proof.
  induction us as [|u us IH]; intros w.
  - exists w. simpl. rewrite app_nil_r, Nat.add_0_r. auto.
  - cbn [for_each delivered].
    destruct (transport env (transport_calls w)) as [e|] eqn:Tr.
    + set (w1 := mk_world (store w) (scheduler w) (outbox w)
                   (log w ++ [(ERROR,
                      Failed_to_send_event_creation_notification_to_user u e)])
                   (S (transport_calls w)) (storage_calls w)).
      destruct (IH w1) as [w' [R [St [Sc [Tc O]]]]].
      exists w'. split.
      { erewrite bind_ok; [exact R|].
        unfold try_except, Bot.send_photo, bind, transport_call.
        rewrite Tr. reflexivity. }
      cbn [w1 store scheduler outbox transport_calls] in St, Sc, Tc, O.
      repeat split; auto. rewrite Tc. simpl. lia.
    + set (w1 := mk_world (store w) (scheduler w)
                   (outbox w ++ [SendPhoto u photo caption])
                   (log w ++ [(INFO, Event_creation_notification_sent_to_user u)])
                   (S (transport_calls w)) (storage_calls w)).
      destruct (IH w1) as [w' [R [St [Sc [Tc O]]]]].
      exists w'. split.
      { erewrite bind_ok; [exact R|].
        unfold try_except, Bot.send_photo, bind, transport_call.
        rewrite Tr. reflexivity. }
      cbn [w1 store scheduler outbox transport_calls] in St, Sc, Tc, O.
      repeat split; auto.
      * rewrite Tc. simpl. lia.
      * rewrite O. cbn [map]. rewrite <- app_assoc. reflexivity.
Qed.

End CreationBroadcast.

(** X15.  The announcement of a new event is best effort per user, and
    fatal on the store.  With the storage driver up,
    [send_event_creation_notification] returns, has called the transport
    once for every registered user, and has sent the photo, in the order
    of the users, to exactly those whose call did not fail.  When the
    driver fails while the users are read, the fault is raised to the
    caller (unlike in [send_notification]) and nothing is sent. *)
Theorem X15_creation_broadcast_outcome
    (env : Env) (event : Z) (title description photo : string)
    (dt : Time.datetime) (w : World) :
  let r := Bot.send_event_creation_notification env event title description
             photo dt w in
  let us := map user_id (users (store w)) in
  (storage env (storage_calls w) = None ->
   storage env (S (storage_calls w)) = None ->
   fst r = Ok tt /\
   transport_calls (snd r) = (transport_calls w + List.length us)%nat /\
   outbox (snd r)
   = (outbox w ++
      map (fun u => SendPhoto u photo (NewEventCreated title dt description))
          (delivered (transport env) (transport_calls w) us))%list) /\
  (forall f,
     storage env (storage_calls w) = Some f \/
     (storage env (storage_calls w) = None /\
      storage env (S (storage_calls w)) = Some f) ->
     fst r = Raise f /\ outbox (snd r) = outbox w /\
     transport_calls (snd r) = transport_calls w).
Proof.
  intros r us. split.
  - intros U0 U1. subst r. unfold Bot.send_event_creation_notification.
    erewrite bind_ok.
    2:{ unfold Database.get_all_users.
        rewrite (acquire_then_run env _ w U0 U1). reflexivity. }
    match goal with
    | |- context [for_each ?l ?b ?w0] =>
        destruct (creation_loop_run env title description photo dt l w0)
          as [w' [R [_ [_ [Tc O]]]]]
    end.
    rewrite R. cbn [fst snd].
    cbn [store scheduler outbox transport_calls] in Tc, O.
    split; [reflexivity|]. split; [exact Tc | exact O].
  - intros f H. subst r. unfold Bot.send_event_creation_notification.
    destruct (acquire_then_run_fault env
                (fun s => Ok (map user_id (users s), s)) w f H)
      as [R [_ [_ [O Tc]]]].
    fold (Database.get_all_users env) in R, O, Tc.
    unfold bind.
    destruct (Database.get_all_users env w) as [[a|e] w'];
      simpl in *; [discriminate|]. inversion R. subst e. auto.
Qed.

(** The second of four deliveries fails: the other three users get the
    photo.  The connection is lost: the caller gets the fault and nobody
    a photo. *)
Lemma X15_witness :
  map (fun o => match o with SendPhoto c _ _ | SendMessage c _ => c end)
      (outbox (snd (Bot.send_event_creation_notification
                      (env_second_send_fails t_2024_05_31_04_00) 1 "Meetup"
                      "Monthly meetup" "photo-1"
                      (Time.Naive t_2024_06_01_10_00)
                      (world_of store_with_event))))
  = [100; 2; 3] /\
  (let r := Bot.send_event_creation_notification
              (env_storage_down t_2024_05_31_04_00) 1 "Meetup"
              "Monthly meetup" "photo-1" (Time.Naive t_2024_06_01_10_00)
              (world_of store_with_event) in
   fst r = Raise (Other "ConnectionDoesNotExistError") /\ outbox (snd r) = []).
Proof.
  split.
  - destruct (proj1 (X15_creation_broadcast_outcome
                       (env_second_send_fails t_2024_05_31_04_00) 1 "Meetup"
                       "Monthly meetup" "photo-1"
                       (Time.Naive t_2024_06_01_10_00)
                       (world_of store_with_event)) eq_refl eq_refl)
      as [_ [_ O]].
    rewrite O. reflexivity.
  - destruct (proj2 (X15_creation_broadcast_outcome
                       (env_storage_down t_2024_05_31_04_00) 1 "Meetup"
                       "Monthly meetup" "photo-1"
                       (Time.Naive t_2024_06_01_10_00)
                       (world_of store_with_event))
                (Other "ConnectionDoesNotExistError")) as [R [O _]].
    + right. split; reflexivity.
    + split; [exact R | exact O].
Defined.

(** ** Start-up *)

Section StartupFacts.

Variable env : Env.

Let tz := TIMEZONE env.
Let now := Time.now_in (TIMEZONE env) (clock_utc env).




Hypothesis storage_up : forall n, storage env n = None.


End StartupFacts.




(** X17.  A storage fault during start-up is fatal and schedules
    nothing.  [on_startup] makes seven calls on the storage driver before
    it schedules anything (one to connect, four for the tables, two for
    the upcoming events); when one of them fails after the earlier ones
    succeeded, [on_startup] logs the error and raises the same fault, and
    the job store, the store and the outbox are as they were. *)
Theorem X17_startup_fault_is_fatal
    (env : Env) (w : World) (k : nat) (f : Exception) :
  (k < 7)%nat ->
  (forall n, (n < k)%nat -> storage env (n + storage_calls w) = None) ->
  storage env (k + storage_calls w) = Some f ->
  let r := Startup.on_startup env w in
  let w' := snd (fst r) in
  fst (fst r) = Raise f /\ snd r = (ERROR, Error_during_startup f) /\
  scheduler w' = scheduler w /\ store w' = store w /\ outbox w' = outbox w.
Proof.
  intros Hk Hn Hf r w'. subst w' r.
  assert (H0 := Hn 0%nat). assert (H1 := Hn 1%nat). assert (H2 := Hn 2%nat).
  assert (H3 := Hn 3%nat). assert (H4 := Hn 4%nat). assert (H5 := Hn 5%nat).
  clear Hn.
  unfold Startup.on_startup, Startup.startup_body, Startup.create_pool,
    Startup.create_tables, Database.get_upcoming_events, Database.pool_acquire,
    Database.conn_run, bind, storage_call.
  destruct k as [|[|[|[|[|[|[|k]]]]]]]; [| | | | | | |lia];
    cbn [Nat.add] in *;
    try (rewrite H0 by lia; cbn [storage_calls store set_store]);
    try (rewrite H1 by lia; cbn [storage_calls store set_store]);
    try (rewrite H2 by lia; cbn [storage_calls store set_store]);
    try (rewrite H3 by lia; cbn [storage_calls store set_store]);
    try (rewrite H4 by lia; cbn [storage_calls store set_store]);
    try (rewrite H5 by lia; cbn [storage_calls store set_store]);
    rewrite Hf; cbn [fst snd scheduler store outbox]; auto.
Qed.

(** The connection is lost when the first table is created. *)
Lemma X17_witness :
  let r := Startup.on_startup (env_storage_down t_2024_05_31_04_00)
             (world_of store_with_event) in
  fst (fst r) = Raise (Other "ConnectionDoesNotExistError") /\
  scheduler (snd (fst r)) = [].
Proof.
  intros r.
  destruct (X17_startup_fault_is_fatal (env_storage_down t_2024_05_31_04_00)
              (world_of store_with_event) 1
              (Other "ConnectionDoesNotExistError")) as [R [_ [S _]]].
  - repeat constructor.
  - intros n Hn. destruct n as [|n]; [reflexivity|].
    exfalso. apply Nat.succ_lt_mono in Hn. inversion Hn.
  - reflexivity.
  - split; [exact R | exact S].
Defined.

(** ** The administrator *)

(** X18.  At most one user is the administrator for [is_admin], and
    nobody when [ADMIN_ID] is not set: two user ids that both pass
    [is_admin] are the same id. *)
Theorem X18_is_admin_unique (ADMIN_ID : option string) (u v : Z) :
  Admin.is_admin None u = false /\
  (Admin.is_admin ADMIN_ID u = true -> Admin.is_admin ADMIN_ID v = true ->
   u = v).
Proof.
  split; [reflexivity|]. unfold Admin.is_admin.
  destruct ADMIN_ID as [a|]; [|discriminate].
  intros Hu Hv. apply String.eqb_eq in Hu, Hv. apply str_int_inj. congruence.
Qed.

(** With [ADMIN_ID=100], user 100 is the administrator and user 1 is
    not; without [ADMIN_ID] user 100 is not. *)
Lemma X18_witness :
  Admin.is_admin (Some "100") 100 = true /\ Admin.is_admin None 100 = false /\
  Admin.is_admin (Some "100") 1 = false.
Proof.
  split; [reflexivity|].
  split; [exact (proj1 (X18_is_admin_unique None 100 100))|].
  destruct (Admin.is_admin (Some "100") 1) eqn:E; [|reflexivity].
  exfalso.
  assert (H := proj2 (X18_is_admin_unique (Some "100") 1 100) E eq_refl).
  discriminate H.
Defined.

(** ** The list of events: splitting the reply, the time until *)

Section ReplyParts.

Context {A : Type}.

Lemma firstn_add (a b : nat) (l : list A) :
  firstn (a + b) l = (firstn a l ++ firstn b (skipn a l))%list.
Proof.
  revert l. induction a as [|a IH]; intros l; [reflexivity|].
  destruct l as [|x l]; simpl.
  - now rewrite firstn_nil.
  - now rewrite IH.
Qed.

(** The first [m] slices of width [s] make up the first [m * s]
    elements. *)
Lemma concat_slices (s m : nat) (l : list A) :
  List.concat (map (fun i => firstn s (skipn i l))
              (map (fun k => (k * s)%nat) (seq 0 m)))
  = firstn (m * s) l.
Proof.
  induction m as [|m IH]; [reflexivity|].
  rewrite seq_S, !map_app, concat_app, IH. cbn [map List.concat Nat.add].
  rewrite app_nil_r, <- firstn_add. f_equal. lia.
Qed.

Lemma slices_cover (s n : nat) : (0 < s)%nat -> (n <= (n + s - 1) / s * s)%nat.
Proof.
  intros Hs.
  pose proof (Nat.div_mod_eq (n + s - 1) s) as E.
  pose proof (Nat.mod_upper_bound (n + s - 1) s) as B.
  nia.
Qed.

Lemma slices_start_inside (s n k : nat) :
  (0 < s)%nat -> (k < (n + s - 1) / s)%nat -> (k * s < n)%nat.
Proof.
  intros Hs Hk.
  pose proof (Nat.div_mod_eq (n + s - 1) s) as E.
  nia.
Qed.

End ReplyParts.

(** X19.  The messages [list_events] replies with are the response cut
    at every 4096 characters: put end to end they are the response, none
    is longer than 4096 characters, and when the response is not empty
    none of them is empty. *)
Theorem X19_reply_parts_cover_the_response {A : Type} (response : list A) :
  List.concat (ListEvents.reply_parts response) = response /\
  Forall (fun part => (List.length part <= ListEvents.limit)%nat)
         (ListEvents.reply_parts response) /\
  (response <> [] ->
   Forall (fun part => part <> []) (ListEvents.reply_parts response)).
Proof.
  assert (Hs : (0 < ListEvents.limit)%nat) by (unfold ListEvents.limit; lia).
  unfold ListEvents.reply_parts. generalize dependent ListEvents.limit.
  intros s Hs.
  destruct (s <? List.length response)%nat eqn:L.
  - unfold ListEvents.range_step. split; [|split].
    + rewrite concat_slices. apply firstn_all2. now apply slices_cover.
    + apply Forall_forall. intros part Hp.
      apply in_map_iff in Hp. destruct Hp as [i [<- _]].
      apply firstn_le_length.
    + intros _. apply Forall_forall. intros part Hp.
      apply in_map_iff in Hp. destruct Hp as [i [<- Hi]].
      apply in_map_iff in Hi. destruct Hi as [k [<- Hk]].
      apply in_seq in Hk.
      assert (Hin : (k * s < List.length response)%nat)
        by (apply slices_start_inside; lia).
      intros E. apply (f_equal (@List.length A)) in E.
      rewrite length_firstn, length_skipn in E. simpl in E. lia.
  - apply Nat.ltb_ge in L. simpl. rewrite app_nil_r.
    split; [reflexivity|]. split; repeat constructor; auto.
Qed.

(** A response of 4100 characters goes out in two messages, none empty. *)
Lemma X19_witness :
  Forall (fun part => part <> [])
         (ListEvents.reply_parts (repeat "a"%char 4100)).
Proof.
  apply (proj2 (proj2 (X19_reply_parts_cover_the_response
                         (repeat "a"%char 4100)))).
  intros E. apply (f_equal (@List.length ascii)) in E.
  rewrite repeat_length in E. discriminate E.
Defined.

(** X20.  What "time until" shows.  For an event that is ahead of the
    clock the three numbers are the whole days, the hours below 24 and
    the minutes below 60 of the difference, dropping what is left below
    a minute; ["Starting now!"] is shown exactly when less than a minute
    is left.  For an event behind the clock the days part is never
    shown and the text is that of the difference taken modulo one day:
    an event three hours ago reads "21 hours". *)
Theorem X20_time_until_parts (time_until : Time.timedelta) :
  let d := ListEvents.days_until time_until in
  let h := ListEvents.hours_until time_until in
  let m := ListEvents.minutes_until time_until in
  (0 <= time_until ->
   0 <= d /\ 0 <= h < 24 /\ 0 <= m < 60 /\
   Time.days d + Time.hours h + Time.minutes m <= time_until
   < Time.days d + Time.hours h + Time.minutes m + Time.minutes 1 /\
   (ListEvents.time_until_str time_until = [] <-> time_until < Time.minutes 1)) /\
  (time_until < 0 ->
   d < 0 /\
   ListEvents.time_until_formatted time_until
   = ListEvents.time_until_formatted (time_until mod Time.days 1)).
Proof.
  intros d h m. subst d h m.
  unfold ListEvents.days_until, ListEvents.hours_until,
    ListEvents.minutes_until, ListEvents.td_seconds.
  unfold Time.days, Time.hours, Time.minutes, Time.second.
  replace (1 * 86400 * 1000000) with 86400000000 by reflexivity.
  set (D := 86400000000).
  pose proof (Z.div_mod time_until D ltac:(subst D; lia)) as E1.
  pose proof (Z.mod_pos_bound time_until D ltac:(subst D; lia)) as B1.
  set (q := time_until / D) in *. set (r := time_until mod D) in *.
  pose proof (Z.div_mod r 1000000 ltac:(lia)) as E2.
  pose proof (Z.mod_pos_bound r 1000000 ltac:(lia)) as B2.
  set (sec := r / 1000000) in *.
  pose proof (Z.div_mod sec 3600 ltac:(lia)) as E3.
  pose proof (Z.mod_pos_bound sec 3600 ltac:(lia)) as B3.
  set (hh := sec / 3600) in *.
  pose proof (Z.div_mod (sec mod 3600) 60 ltac:(lia)) as E4.
  pose proof (Z.mod_pos_bound (sec mod 3600) 60 ltac:(lia)) as B4.
  set (mm := sec mod 3600 / 60) in *.
  assert (Hsec : 0 <= sec < 86400) by (subst D; lia).
  assert (Hhh : 0 <= hh < 24) by lia.
  assert (Hmm : 0 <= mm < 60) by lia.
  split.
  - intros Hpos.
    assert (Hq : 0 <= q) by (subst D; nia).
    split; [exact Hq|]. split; [exact Hhh|]. split; [exact Hmm|].
    split; [subst D; lia|].
    unfold ListEvents.time_until_str, ListEvents.days_until,
      ListEvents.hours_until, ListEvents.minutes_until, ListEvents.td_seconds.
    unfold Time.days, Time.second.
    replace (1 * 86400 * 1000000) with D by reflexivity.
    fold q r sec hh mm.
    destruct (0 <? q) eqn:Cq; destruct (0 <? hh) eqn:Ch;
      destruct (0 <? mm) eqn:Cm; simpl;
      try apply Z.ltb_lt in Cq; try apply Z.ltb_ge in Cq;
      try apply Z.ltb_lt in Ch; try apply Z.ltb_ge in Ch;
      try apply Z.ltb_lt in Cm; try apply Z.ltb_ge in Cm;
      (split; [try discriminate | intros Hlt]); try (subst D; lia).
    reflexivity.
  - intros Hneg.
    assert (Hq : q < 0) by (subst D; nia).
    split; [exact Hq|].
    unfold ListEvents.time_until_formatted, ListEvents.time_until_str,
      ListEvents.days_until, ListEvents.hours_until, ListEvents.minutes_until,
      ListEvents.td_seconds.
    unfold Time.days, Time.second.
    replace (1 * 86400 * 1000000) with D by reflexivity.
    fold q r.
    rewrite (Z.mod_small r D) by lia.
    rewrite (Z.div_small r D) by lia.
    assert ((0 <? q) = false) as -> by (apply Z.ltb_ge; lia).
    reflexivity.
Qed.

(** Two hours and a half ahead; and three hours behind. *)
Lemma X20_witness :
  ListEvents.time_until_formatted (Time.hours 2 + Time.minutes 30)
  = "2 hours, 30 minutes" /\
  ListEvents.days_until (Time.hours (-3)) < 0 /\
  ListEvents.time_until_formatted (Time.hours (-3)) = "21 hours".
Proof.
  split; [reflexivity|].
  destruct (proj2 (X20_time_until_parts (Time.hours (-3)))) as [Hd Hf].
  - reflexivity.
  - split; [exact Hd|]. rewrite Hf. reflexivity.
Defined.

(** ** Creating an event, then restarting *)



(** ** Recording a new key *)



(** ** The dispatcher, whatever the label *)

Section DispatchOutcome.

Variable env : Env.
Variables (event : Z) (title description photo kind : string).

Let caption := EventReminder title description kind.

Let body := fun user : Z =>
  try_except
    (Bot.send_photo env user photo caption ;;
     Database.record_notification env event user kind ;;
     logging INFO (Notification_sent_to_user user event))
    (fun e => logging ERROR (Failed_to_send_notification_to_user user e)).

(** [record_notification] sends nothing. *)
Lemma record_notification_sends_nothing user w :
  outbox (snd (Database.record_notification env event user kind w)) = outbox w /\
  transport_calls (snd (Database.record_notification env event user kind w))
  = transport_calls w.
Proof.
  unfold Database.record_notification, Database.pool_acquire, Database.conn_run,
    try_except, bind, storage_call, logging, raise.
  destruct (storage env (storage_calls w)); cbn [snd outbox transport_calls storage_calls store]; auto.
  destruct (storage env (S (storage_calls w)));
    cbn [snd outbox transport_calls storage_calls store]; auto.
  destruct (Database.insert_notification event user kind (store w))
    as [[[] s']|e]; cbn [snd outbox transport_calls set_store]; auto.
Qed.

(** One turn of the loop of [send_notification]: it returns, the
    transport was called once, and the photo went out unless that call
    failed, whatever the storage driver did afterwards. *)
Lemma dispatch_one_outbox user w :
  exists w',
    body user w = (Ok tt, w') /\
    transport_calls w' = S (transport_calls w) /\
    outbox w' = (outbox w ++ match transport env (transport_calls w) with
                             | None => [SendPhoto user photo caption]
                             | Some _ => []
                             end)%list.
Proof.
  unfold body, try_except, Bot.send_photo.
  unfold bind at 1. unfold bind at 1. unfold transport_call.
  destruct (transport env (transport_calls w)) as [e|] eqn:Tr.
  - eexists. split; [reflexivity|]. simpl. rewrite app_nil_r. auto.
  - unfold bind at 1.
    match goal with
    | |- context [Database.record_notification env event user kind ?w1] =>
        destruct (record_notification_sends_nothing user w1) as [O Tc];
        destruct (Database.record_notification env event user kind w1)
          as [[[]|e] w2]
    end;
      cbn [snd outbox transport_calls set_outbox] in O, Tc;
      eexists; (split; [reflexivity|]);
      cbn [logging outbox transport_calls]; auto.
Qed.

Lemma dispatch_loop_outbox us : forall w,
  exists w',
    for_each us body w = (Ok tt, w') /\
    transport_calls w' = (transport_calls w + List.length us)%nat /\
    outbox w'
    = (outbox w ++ map (fun u => SendPhoto u photo caption)
                       (delivered (transport env) (transport_calls w) us))%list.
Proof.
  induction us as [|u us IH]; intros w.
  - exists w. simpl. rewrite app_nil_r, Nat.add_0_r. auto.
  - destruct (dispatch_one_outbox u w) as [w1 [R1 [Tc1 O1]]].
    destruct (IH w1) as [w' [R [Tc O]]].
    exists w'. split.
    { cbn [for_each]. erewrite bind_ok; [exact R | exact R1]. }
    split; [rewrite Tc, Tc1; simpl; lia|].
    rewrite O, O1, Tc1. cbn [delivered].
    destruct (transport env (transport_calls w)); cbn [map];
      rewrite <- app_assoc; reflexivity.
Qed.

(** [send_notification] once the users were read. *)
Lemma send_notification_outbox w :
  storage env (storage_calls w) = None ->
  storage env (S (storage_calls w)) = None ->
  exists w',
    Bot.send_notification env event title description photo kind w = (Ok tt, w') /\
    transport_calls w'
    = (transport_calls w + List.length (users (store w)))%nat /\
    outbox w'
    = (outbox w ++ map (fun u => SendPhoto u photo caption)
                       (delivered (transport env) (transport_calls w)
                                  (map user_id (users (store w)))))%list.
Proof.
  intros U0 U1. unfold Bot.send_notification. unfold try_except at 1.
  erewrite bind_ok.
  2:{ unfold Database.get_all_users.
      rewrite (acquire_then_run env _ w U0 U1). reflexivity. }
  fold caption. fold body.
  match goal with
  | |- context [for_each ?l body ?w0] =>
      destruct (dispatch_loop_outbox l w0) as [w' [R [Tc O]]]
  end.
  rewrite R. exists w'. split; [reflexivity|].
  cbn [store scheduler outbox transport_calls] in Tc, O.
  rewrite length_map in Tc. auto.
Qed.

(** [send_notification] when the users cannot be read: the fault is
    logged, not raised, and nothing is sent. *)
Lemma send_notification_fault w f :
  storage env (storage_calls w) = Some f \/
  (storage env (storage_calls w) = None /\
   storage env (S (storage_calls w)) = Some f) ->
  let r := Bot.send_notification env event title description photo kind w in
  fst r = Ok tt /\ outbox (snd r) = outbox w /\
  transport_calls (snd r) = transport_calls w /\
  exists before,
    log (snd r)
    = (before ++ [(ERROR, Failed_to_process_notification_for_event event f)])%list.
Proof.
  intros H r. subst r.
  destruct (acquire_then_run_fault env
              (fun s => Ok (map user_id (users s), s)) w f H)
    as [R [_ [_ [O Tc]]]].
  fold (Database.get_all_users env) in R, O, Tc.
  unfold Bot.send_notification, try_except, bind.
  destruct (Database.get_all_users env w) as [[a|e] w'];
    cbn [fst snd] in *; [discriminate|].
  inversion R. subst e. cbn [logging fst snd outbox transport_calls log].
  split; [reflexivity|]. split; [exact O|]. split; [exact Tc|].
  eexists. reflexivity.
Qed.

End DispatchOutcome.

(** X23.  A reminder of the table is sent but never recorded.  Fired
    with a label of [notification_times], [send_notification] returns
    and leaves the store exactly as it was, whatever the transport and
    the storage driver do: no label of the table fits
    [notification_type VARCHAR(20)].  When the users could be read, the
    transport was called once per registered user and the photo went
    out, in the order of the users, to those whose call did not fail;
    when they could not, the fault is logged, not raised, and nothing is
    sent. *)
Theorem X23_reminders_are_sent_but_never_recorded
    (env : Env) (event : Z) (title description photo : string)
    (delta : Time.timedelta) (text : string) (w : World) :
  In (delta, text) Bot.notification_times ->
  let r := Bot.send_notification env event title description photo text w in
  let us := map user_id (users (store w)) in
  fst r = Ok tt /\ store (snd r) = store w /\
  (storage env (storage_calls w) = None ->
   storage env (S (storage_calls w)) = None ->
   transport_calls (snd r) = (transport_calls w + List.length us)%nat /\
   outbox (snd r)
   = (outbox w ++
      map (fun u => SendPhoto u photo (EventReminder title description text))
          (delivered (transport env) (transport_calls w) us))%list) /\
  (forall f,
     storage env (storage_calls w) = Some f \/
     (storage env (storage_calls w) = None /\
      storage env (S (storage_calls w)) = Some f) ->
     outbox (snd r) = outbox w /\
     exists before,
       log (snd r)
       = (before ++ [(ERROR, Failed_to_process_notification_for_event event f)])%list).
Proof.
  intros Hin r us. subst r us.
  split; [apply send_notification_returns|].
  split; [eapply send_notification_reminder_not_recorded; exact Hin|].
  split.
  - intros U0 U1.
    destruct (send_notification_outbox env event title description photo text
                w U0 U1) as [w' [R [Tc O]]].
    rewrite R. cbn [snd]. rewrite length_map. auto.
  - intros f H.
    destruct (send_notification_fault env event title description photo text
                w f H) as [_ [O [_ L]]].
    auto.
Qed.

(** The reminder "one hour before" fires while the second delivery
    fails: three users get the photo and the ledger stays empty. *)
Lemma X23_witness :
  let r := Bot.send_notification (env_second_send_fails t_2024_06_01_04_50) 1
             "Meetup" "Monthly meetup" "photo-1" "Event starts in 1 hour"
             (world_of store_with_event) in
  notifications (store (snd r)) = [] /\
  map (fun o => match o with SendPhoto c _ _ | SendMessage c _ => c end)
      (outbox (snd r))
  = [100; 2; 3].
Proof.
  intros r.
  destruct (X23_reminders_are_sent_but_never_recorded
              (env_second_send_fails t_2024_06_01_04_50) 1
              "Meetup" "Monthly meetup" "photo-1" (Time.hours 1)
              "Event starts in 1 hour" (world_of store_with_event))
    as [_ [S [O _]]].
  - simpl. tauto.
  - split.
    + fold r in S. rewrite S. reflexivity.
    + destruct (O eq_refl eq_refl) as [_ O']. fold r in O'. rewrite O'.
      reflexivity.
Defined.



(** ** Which reminders are scheduled *)

(** X25.  The reminders [schedule_event_notifications] schedules are the
    last entries of the table.  With [ahead] the time from the clock to
    the event, the entries that are skipped are those whose offset is
    not below [ahead], and they come first: the jobs handed to the
    scheduler are those of the table without its first [k] entries, so
    a reminder nearer to the event is scheduled whenever a farther one
    is, and a reminder due at the very instant of the clock is skipped.
    An event more than a day ahead gets all five; for an event that
    started a quarter of an hour ago or earlier the call changes
    nothing at all. *)
Theorem X25_scheduled_reminders_are_a_tail
    (env : Env) (event : Z) (dt : Time.datetime)
    (title description photo : string) (w : World) :
  let T := Bot.ensure_aware (TIMEZONE env) dt in
  let ahead := Time.instant T - clock_utc env in
  let k := List.length (filter (fun p => ahead <=? fst p)
                               Bot.notification_times) in
  let r := Bot.schedule_event_notifications env event dt title description
             photo w in
  scheduler (snd r)
  = put_jobs (map (Bot.event_job event T title description photo)
                  (skipn k Bot.notification_times))
             (scheduler w) /\
  (Time.days 1 < ahead -> k = 0%nat) /\
  (ahead <= Time.minutes (-15) -> snd r = w).
Proof.
  intros T ahead k r.
  assert (R := schedule_event_notifications_run env event title description
                 photo dt w).
  cbv zeta in R. fold T in R. fold r in R.
  assert (F : Bot.future_offsets T (Time.now_in (TIMEZONE env) (clock_utc env))
              = filter (fun p => fst p <? ahead) Bot.notification_times).
  { unfold Bot.future_offsets. apply filter_ext. intros [d t].
    unfold ahead, Time.gtb, Time.sub, Time.now_in, Time.instant.
    cbn [Time.wall Time.utcoffset fst].
    apply Bool.eq_true_iff_eq. rewrite !Z.ltb_lt. lia. }
  assert (Tail : filter (fun p => fst p <? ahead) Bot.notification_times
                 = skipn k Bot.notification_times).
  { subst k. unfold Bot.notification_times, Time.days, Time.hours,
      Time.minutes, Time.second. cbn [filter fst].
    destruct (Z.ltb_spec (1 * 86400 * 1000000) ahead);
      destruct (Z.ltb_spec (6 * 3600 * 1000000) ahead);
      destruct (Z.ltb_spec (1 * 3600 * 1000000) ahead);
      destruct (Z.ltb_spec (15 * 60 * 1000000) ahead);
      destruct (Z.ltb_spec (-15 * 60 * 1000000) ahead);
      try lia;
      destruct (Z.leb_spec ahead (1 * 86400 * 1000000));
      destruct (Z.leb_spec ahead (6 * 3600 * 1000000));
      destruct (Z.leb_spec ahead (1 * 3600 * 1000000));
      destruct (Z.leb_spec ahead (15 * 60 * 1000000));
      destruct (Z.leb_spec ahead (-15 * 60 * 1000000));
      try lia; reflexivity. }
  split; [|split].
  - rewrite R. cbn [snd scheduler]. now rewrite F, Tail.
  - intros H. subst k.
    unfold Bot.notification_times, Time.days, Time.hours, Time.minutes,
      Time.second in *. cbn [filter fst].
    destruct (Z.leb_spec ahead (1 * 86400 * 1000000));
      destruct (Z.leb_spec ahead (6 * 3600 * 1000000));
      destruct (Z.leb_spec ahead (1 * 3600 * 1000000));
      destruct (Z.leb_spec ahead (15 * 60 * 1000000));
      destruct (Z.leb_spec ahead (-15 * 60 * 1000000));
      try lia; reflexivity.
  - intros H. rewrite R. cbn [snd]. rewrite F.
    assert (E : filter (fun p => fst p <? ahead) Bot.notification_times = []).
    { unfold Bot.notification_times, Time.days, Time.hours, Time.minutes,
        Time.second in *. cbn [filter fst].
      destruct (Z.ltb_spec (1 * 86400 * 1000000) ahead);
        destruct (Z.ltb_spec (6 * 3600 * 1000000) ahead);
        destruct (Z.ltb_spec (1 * 3600 * 1000000) ahead);
        destruct (Z.ltb_spec (15 * 60 * 1000000) ahead);
        destruct (Z.ltb_spec (-15 * 60 * 1000000) ahead);
        try lia; reflexivity. }
    rewrite E. cbn [map put_jobs]. rewrite app_nil_r. now destruct w.
Qed.

(** A day and an hour before the meetup all five reminders are
    scheduled; five hours after it the call changes nothing. *)
Lemma X25_witness :
  List.length (scheduler (snd (Bot.schedule_event_notifications
                                 (env_at t_2024_05_31_04_00 0) 1
                                 (Time.Naive t_2024_06_01_10_00)
                                 "Meetup" "Monthly meetup" "photo-1"
                                 (world_of store_with_event))))
  = 5%nat /\
  snd (Bot.schedule_event_notifications
         (env_at t_2024_06_01_10_00 0) 1 (Time.Naive t_2024_06_01_10_00)
         "Meetup" "Monthly meetup" "photo-1" (world_of store_with_event))
  = world_of store_with_event.
Proof.
  split.
  - destruct (X25_scheduled_reminders_are_a_tail
                (env_at t_2024_05_31_04_00 0) 1 (Time.Naive t_2024_06_01_10_00)
                "Meetup" "Monthly meetup" "photo-1"
                (world_of store_with_event)) as [S [K _]].
    rewrite S, K; reflexivity.
  - apply (proj2 (proj2 (X25_scheduled_reminders_are_a_tail
                (env_at t_2024_06_01_10_00 0) 1 (Time.Naive t_2024_06_01_10_00)
                "Meetup" "Monthly meetup" "photo-1"
                (world_of store_with_event)))).
    vm_compute. discriminate.
Defined.

(** ** Registering, then the reconciliation *)


